(** * The insurance voice agent: slot filling, numeral parsing and premium

    A shallow embedding of the server of the AI agent demo: the Slovenian
    numeral parser and the entity extractors, the intent classifier, the
    premium calculator (premium.js), the /turn handler with its session
    state and the document retriever (rag.js), followed by the properties
    the specification states about them and by further properties of the
    code.

    Conventions of the embedding.
    - A JavaScript string is the list of its code points (type [jsstring]);
      for the Basic Multilingual Plane these are its UTF-16 code units.
      String literals of the source are written [js "..."] and decoded from
      UTF-8.
    - The Unicode data the source relies on (lower-casing, NFKC, the
      properties L, M and N, case folding of the [i] flag) is exact on ASCII
      and a parameter beyond it (class [Unicode]); [Slovene] is the instance
      used to run the model on concrete texts.
    - A regular expression of the source is a term of type [regex], run by a
      backtracking matcher that lists the matches at a position in the
      order the JavaScript matcher tries them.
    - An object literal used as a table is the association list of its own
      keys, in insertion order. A lookup of a name that every object
      inherits from Object.prototype (as "constructor") finds the inherited
      property in the source and nothing here: such keys are outside the
      embedding, except in [calculate_premium_amounts], which gives the
      amounts of the calculator with the prototype chain of its tables.
    - A JavaScript number is a binary64 float in premium.js, where the
      arithmetic is floating point, and an integer of [Z] where the source
      only builds integers (digit runs, table values and their sums).
    - The handler runs in a monad of session state and exceptions in which
      the state survives a throw, as mutations of the session object do. *)

From Stdlib Require Import ZArith NArith List Bool Ascii String Floats Uint63 DecimalString Lia.
From stdpp Require Import base option list gmap sets.
Import ListNotations.
Set Warnings "-inexact-float,-abstract-large-number".

Open Scope N_scope.

(** ** Strings *)

Definition jsstring := list N.

(** UTF-8 decoding of a literal. *)
Fixpoint utf8_decode (bs : list N) : list N :=
  match bs with
  | [] => []
  | b :: r =>
      if b <? 128 then b :: utf8_decode r
      else if b <? 224 then
        match r with
        | b1 :: r1 => ((b - 192) * 64 + (b1 - 128)) :: utf8_decode r1
        | _ => []
        end
      else if b <? 240 then
        match r with
        | b1 :: b2 :: r2 =>
            ((b - 224) * 4096 + (b1 - 128) * 64 + (b2 - 128)) :: utf8_decode r2
        | _ => []
        end
      else
        match r with
        | b1 :: b2 :: b3 :: r3 =>
            ((b - 240) * 262144 + (b1 - 128) * 4096 + (b2 - 128) * 64 + (b3 - 128))
              :: utf8_decode r3
        | _ => []
        end
  end.

Definition js (s : string) : jsstring :=
  utf8_decode (map N_of_ascii (list_ascii_of_string s)).

Definition chr (a : ascii) : N := N_of_ascii a.

Definition str_eqb (a b : jsstring) : bool := bool_decide (a = b).

(** ASCII classes. *)
Definition is_ascii (c : N) : bool := c <? 128.
Definition is_upper (c : N) : bool := (65 <=? c) && (c <=? 90).
Definition is_lower (c : N) : bool := (97 <=? c) && (c <=? 122).
Definition is_digit (c : N) : bool := (48 <=? c) && (c <=? 57).
Definition ascii_lower (c : N) : N := if is_upper c then c + 32 else c.

(** WhiteSpace and LineTerminator of ECMAScript: the class \s, and what
    trim() strips. *)
Definition is_space (c : N) : bool :=
  ((9 <=? c) && (c <=? 13)) || (c =? 32) || (c =? 160) || (c =? 5760)
  || ((8192 <=? c) && (c <=? 8202)) || (c =? 8232) || (c =? 8233)
  || (c =? 8239) || (c =? 8287) || (c =? 12288) || (c =? 65279).

(** The basic word characters of \w and \b: [A-Za-z0-9_]. *)
Definition is_word (c : N) : bool :=
  is_upper c || is_lower c || is_digit c || (c =? 95).

(** ** Unicode data beyond ASCII *)

Class Unicode := {
  lower_ext : N -> list N;        (* full lower-case mapping of a code point *)
  nfkc_ext : jsstring -> jsstring;  (* NFKC of a string with a non-ASCII code point *)
  fold_ext : N -> N;              (* simple case folding *)
  isL_ext : N -> bool;            (* General_Category L *)
  isM_ext : N -> bool;            (* General_Category M *)
}.

Section Strings.
Context `{U : Unicode}.

(** String.prototype.toLowerCase, code point by code point (the one
    context-sensitive rule of Unicode, the Greek final sigma, is left to
    [lower_ext]). *)
Definition toLowerCase (s : jsstring) : jsstring :=
  flat_map (fun c => if is_ascii c then [ascii_lower c] else lower_ext c) s.

(** String.prototype.normalize("NFKC"): the identity on ASCII text. *)
Definition normalizeNFKC (s : jsstring) : jsstring :=
  if forallb is_ascii s then s else nfkc_ext s.

Definition isL (c : N) : bool :=
  if is_ascii c then is_upper c || is_lower c else isL_ext c.
Definition isM (c : N) : bool :=
  if is_ascii c then false else isM_ext c.

End Strings.

(** String.prototype.trim. *)
Fixpoint trimStart (s : jsstring) : jsstring :=
  match s with
  | c :: r => if is_space c then trimStart r else s
  | [] => []
  end.
Definition trimEnd (s : jsstring) : jsstring := rev (trimStart (rev s)).
Definition trim (s : jsstring) : jsstring := trimEnd (trimStart s).

(** String.prototype.startsWith. *)
Fixpoint startsWith (s p : jsstring) {struct p} : bool :=
  match p, s with
  | [], _ => true
  | a :: p', b :: s' => (a =? b) && startsWith s' p'
  | _ :: _, [] => false
  end.

(** String.prototype.includes. *)
Fixpoint includes (s p : jsstring) : bool :=
  startsWith s p ||
  match s with
  | [] => false
  | _ :: s' => includes s' p
  end.

(** s.split(" ") on a one-character separator: every separator ends a
    field, empty fields included. *)
Fixpoint split_on (sep : N) (s : jsstring) : list jsstring :=
  match s with
  | [] => [[]]
  | c :: r =>
      if c =? sep then [] :: split_on sep r
      else match split_on sep r with
           | w :: ws => (c :: w) :: ws
           | [] => [[c]]
           end
  end.

(** .filter(Boolean) on strings: the empty string is the falsy one. *)
Definition filterBoolean (l : list jsstring) : list jsstring :=
  filter (fun w => w <> []) l.

(** Array.prototype.join. *)
Fixpoint join (sep : jsstring) (l : list jsstring) : jsstring :=
  match l with
  | [] => []
  | [w] => w
  | w :: ws => w ++ sep ++ join sep ws
  end.

(** s.split(" ").filter(Boolean) *)
Definition words_of (s : jsstring) : list jsstring :=
  filterBoolean (split_on 32 s).

(** String.prototype.slice(0, n). *)
Definition slice0 (n : nat) (s : jsstring) : jsstring := take n s.

(** Number(d) of a run of decimal digits. *)
Definition NumberOfDigits (ds : jsstring) : Z :=
  fold_left (fun a c => (10 * a + (Z.of_N c - 48))%Z) ds 0%Z.

(** Lookup of an own key in an object literal. *)
Fixpoint obj_get {A} (o : list (jsstring * A)) (k : jsstring) : option A :=
  match o with
  | [] => None
  | (k', v) :: o' => if str_eqb k' k then Some v else obj_get o' k
  end.

(** The first entry, in insertion order, whose key satisfies [p]: the
    shape of [for (const [k, v] of Object.entries(o)) if (p(k)) return ...]. *)
Fixpoint first_entry {A} (p : jsstring -> bool) (o : list (jsstring * A))
  : option (jsstring * A) :=
  match o with
  | [] => None
  | (k, v) :: o' => if p k then Some (k, v) else first_entry p o'
  end.

(** ** Regular expressions *)

(** The members of a character class. *)
Inductive citem :=
| IChar (c : N)   (* a literal character *)
| IDigit          (* \d *)
| ISpace          (* \s *)
| IWord           (* \w *)
| IL              (* \p{L} *)
| IM.             (* \p{M} *)

Inductive regex :=
| REmpty
| RChar (c : N)                                (* a literal character *)
| RSet (negated : bool) (items : list citem)   (* [...], [^...], \d, \s, \w *)
| RSeq (r1 r2 : regex)
| RAlt (r1 r2 : regex)                         (* r1|r2, r1 tried first *)
| RRep (lo : nat) (hi : option nat) (r : regex)  (* greedy r{lo,hi}; hi = None: no bound *)
| RGroup (i : nat) (r : regex)                 (* the i-th capturing group *)
| RBol                                         (* ^ *)
| REol                                         (* $ *)
| RWordB.                                      (* \b *)

Record flags := { ignoreCase : bool; unicode : bool }.

(** The position of the matcher in the subject: the character before it,
    the text from it on, and the groups captured so far. *)
Record mstate := {
  m_before : option N;
  m_rest : jsstring;
  m_caps : list (nat * jsstring)
}.

Definition advance (c : N) (r : jsstring) (st : mstate) : mstate :=
  {| m_before := Some c; m_rest := r; m_caps := m_caps st |}.

Definition consumed (st st' : mstate) : jsstring :=
  take (length (m_rest st) - length (m_rest st'))%nat (m_rest st).

Definition set_cap (i : nat) (st st' : mstate) : mstate :=
  {| m_before := m_before st'; m_rest := m_rest st';
     m_caps := (i, consumed st st') :: m_caps st' |}.

Fixpoint cap (i : nat) (cs : list (nat * jsstring)) : option jsstring :=
  match cs with
  | [] => None
  | (j, s) :: cs' => if Nat.eqb i j then Some s else cap i cs'
  end.

(** Greedy repetition: [step] matches the body once; an iteration that
    consumes nothing is taken only while the lower bound is not reached. *)
Fixpoint rep (step : mstate -> list mstate) (fuel lo : nat) (hi : option nat)
    (st : mstate) : list mstate :=
  match fuel with
  | O => if Nat.eqb lo 0 then [st] else []
  | S f =>
      (match hi with
       | Some O => []
       | _ =>
           flat_map
             (fun st' =>
                if (length (m_rest st') <? length (m_rest st))%nat || negb (Nat.eqb lo 0)
                then rep step f (Nat.pred lo) (Nat.pred <$> hi) st'
                else [])
             (step st)
       end)
      ++ (if Nat.eqb lo 0 then [st] else [])
  end.

Section Regex.
Context `{U : Unicode}.
Variable fl : flags.

(** Canonicalize of the [i] flag. *)
Definition canon (c : N) : N :=
  if negb (ignoreCase fl) then c
  else if is_ascii c then ascii_lower c
  else let f := fold_ext c in
       if unicode fl then f else if is_ascii f then c else f.

(** Word characters for \b and \w; with both [i] and [u] the long s and
    the Kelvin sign count as well. *)
Definition word_char (c : N) : bool :=
  is_word c ||
  (ignoreCase fl && unicode fl && ((c =? 383) || (c =? 8490))).

Definition item_matches (c : N) (it : citem) : bool :=
  match it with
  | IChar p => canon c =? canon p
  | IDigit => is_digit c
  | ISpace => is_space c
  | IWord => word_char c
  | IL => isL c
  | IM => isM c
  end.

Definition set_matches (negated : bool) (items : list citem) (c : N) : bool :=
  xorb negated (existsb (item_matches c) items).

Definition at_word (o : option N) : bool :=
  match o with Some c => word_char c | None => false end.

(** All the matches of [r] from [st], in the order a backtracking matcher
    finds them. *)
Fixpoint exec (r : regex) (st : mstate) : list mstate :=
  match r with
  | REmpty => [st]
  | RChar p =>
      match m_rest st with
      | c :: s => if canon c =? canon p then [advance c s st] else []
      | [] => []
      end
  | RSet neg items =>
      match m_rest st with
      | c :: s => if set_matches neg items c then [advance c s st] else []
      | [] => []
      end
  | RSeq a b => flat_map (exec b) (exec a st)
  | RAlt a b => exec a st ++ exec b st
  | RRep lo hi a => rep (exec a) (lo + S (length (m_rest st))) lo hi st
  | RGroup i a => map (set_cap i st) (exec a st)
  | RBol => match m_before st with None => [st] | Some _ => [] end
  | REol => match m_rest st with [] => [st] | _ :: _ => [] end
  | RWordB =>
      if xorb (at_word (m_before st)) (at_word (head (m_rest st))) then [st] else []
  end.

(** The match the matcher settles on at one position. *)
Definition match_here (before : option N) (s : jsstring) : regex -> option mstate :=
  fun r => head (exec r {| m_before := before; m_rest := s; m_caps := [] |}).

(** The leftmost match: the text before it, and the matcher's final state. *)
Fixpoint search (r : regex) (before : option N) (pre_rev s : jsstring)
  : option (jsstring * mstate) :=
  match match_here before s r with
  | Some st' => Some (rev pre_rev, st')
  | None =>
      match s with
      | [] => None
      | c :: s' => search r (Some c) (c :: pre_rev) s'
      end
  end.

(** RegExp.prototype.test. *)
Definition re_test (r : regex) (s : jsstring) : bool :=
  bool_decide (is_Some (search r None [] s)).

(** String.prototype.match without the [g] flag: the captured groups of the
    leftmost match. *)
Definition re_match (r : regex) (s : jsstring) : option (list (nat * jsstring)) :=
  m_caps ∘ snd <$> search r None [] s.

(** String.prototype.replace with the [g] flag and a constant replacement. *)
Fixpoint replace_go (r : regex) (repl : jsstring) (fuel : nat) (before : option N)
    (s : jsstring) : jsstring :=
  match fuel with
  | O => s
  | S f =>
      let copy :=
        match s with
        | [] => []
        | c :: s' => c :: replace_go r repl f (Some c) s'
        end in
      match match_here before s r with
      | Some st' =>
          if (length (m_rest st') <? length s)%nat
          then repl ++ replace_go r repl f (m_before st') (m_rest st')
          else repl ++ copy
      | None => copy
      end
  end.

Definition replaceAll (r : regex) (repl s : jsstring) : jsstring :=
  replace_go r repl (S (length s)) None s.

(** String.prototype.split with a regular expression (no captures): the
    fields between the matches; a match that is empty where the field
    starts does not split. *)
Fixpoint split_go (r : regex) (fuel : nat) (before : option N) (field_rev s : jsstring)
  : list jsstring :=
  match fuel with
  | O => [rev field_rev ++ s]
  | S f =>
      match s with
      | [] => [rev field_rev]
      | c :: s' =>
          let next := split_go r f (Some c) (c :: field_rev) s' in
          match match_here before s r with
          | None => next
          | Some st' =>
              if (length (m_rest st') <? length s)%nat
              then rev field_rev :: split_go r f (m_before st') [] (m_rest st')
              else if bool_decide (field_rev = []) then next
              else rev field_rev :: split_go r f before [] s
          end
      end
  end.

Definition split_re (r : regex) (s : jsstring) : list jsstring :=
  match s with
  | [] => match match_here None [] r with Some _ => [] | None => [[]] end
  | _ => split_go r (2 * S (length s)) None [] s
  end.

End Regex.

(** Building blocks for writing the source's patterns. *)
Fixpoint lit (s : jsstring) : regex :=
  match s with
  | [] => REmpty
  | [c] => RChar c
  | c :: s' => RSeq (RChar c) (lit s')
  end.

Fixpoint seq_of (rs : list regex) : regex :=
  match rs with
  | [] => REmpty
  | [r] => r
  | r :: rs' => RSeq r (seq_of rs')
  end.

Fixpoint alt_of (rs : list regex) : regex :=
  match rs with
  | [] => RSet false []
  | [r] => r
  | r :: rs' => RAlt r (alt_of rs')
  end.

Definition r_d : regex := RSet false [IDigit].
Definition r_s : regex := RSet false [ISpace].
Definition r_w : regex := RSet false [IWord].
Definition star (r : regex) : regex := RRep 0 None r.
Definition plus (r : regex) : regex := RRep 1 None r.
Definition opt (r : regex) : regex := RRep 0 (Some 1%nat) r.
Definition between (lo hi : nat) (r : regex) : regex := RRep lo (Some hi) r.
Definition at_least (lo : nat) (r : regex) : regex := RRep lo None r.

Definition no_flags : flags := {| ignoreCase := false; unicode := false |}.
Definition flag_u : flags := {| ignoreCase := false; unicode := true |}.
Definition flag_i : flags := {| ignoreCase := true; unicode := false |}.
Definition flag_iu : flags := {| ignoreCase := true; unicode := true |}.

(** ** Parsing helpers (the server's "parsing helpers" block) *)

Section Parsing.
Context `{U : Unicode}.

Definition re_zdeset : regex := seq_of [RWordB; lit (js "zdeset"); RWordB].
Definition re_not_text : regex := RSet true [IL; IM; IDigit; ISpace].
Definition re_spaces : regex := plus r_s.

(** cleanTextForNumber *)
Definition cleanTextForNumber (s : jsstring) : jsstring :=
  trim
    (replaceAll no_flags re_spaces (js " ")
       (replaceAll flag_u re_not_text (js " ")
          (replaceAll flag_u re_zdeset (js "deset")
             (normalizeNFKC (toLowerCase s))))).

(** normalizeWord *)
Definition normalizeWord (w : jsstring) : jsstring := trim (toLowerCase w).

(** isWordLike *)
Definition isWordLike (word target : jsstring) : bool :=
  let w := normalizeWord word in
  let t := normalizeWord target in
  if str_eqb w t then true
  else if startsWith w (slice0 3 t) && (3 <=? length w)%nat then true
  else
    let w2 := replaceAll no_flags (RChar (chr "u")) (js "v") w in
    let t2 := replaceAll no_flags (RChar (chr "u")) (js "v") t in
    if str_eqb w2 t2 then true else false.

(** normYesNo *)
Definition normYesNo (text : jsstring) : jsstring :=
  trim
    (replaceAll no_flags re_spaces (js " ")
       (replaceAll flag_u re_not_text (js " ")
          (normalizeNFKC (toLowerCase text)))).

(** firstToken *)
Definition firstToken (text : jsstring) : jsstring :=
  match words_of (normYesNo text) with
  | w :: _ => w
  | [] => []
  end.

(** isAffirmative *)
Definition isAffirmative (text : jsstring) : bool :=
  let t := normYesNo text in
  let ft := firstToken text in
  if str_eqb ft (js "da") || str_eqb ft (js "ja") then true
  else if startsWith t (js "seveda") then true
  else if startsWith t (js "ok") then true
  else if startsWith t (js "lahko") then true
  else if str_eqb ft (js "mhm") || str_eqb ft (js "mhmm") then true
  else if str_eqb ft (js "valda") then true
  else false.

(** isNegative *)
Definition isNegative (text : jsstring) : bool :=
  let t := normYesNo text in
  let ft := firstToken text in
  if str_eqb ft (js "ne") || str_eqb ft (js "no") then true
  else if startsWith t (js "ne hvala") then true
  else if startsWith t (js "ni treba") then true
  else if str_eqb ft (js "nic") || str_eqb ft (js "nič")
          || str_eqb ft (js "nc") || str_eqb ft (js "nč") then true
  else false.

(** The tables of parseSlNumberRobust, in the order of the source. *)
Definition ones : list (jsstring * Z) :=
  [ (js "nič", 0); (js "nic", 0); (js "nula", 0);
    (js "ena", 1); (js "en", 1); (js "eno", 1);
    (js "dva", 2); (js "dve", 2);
    (js "tri", 3);
    (js "štiri", 4); (js "stiri", 4);
    (js "pet", 5);
    (js "šest", 6); (js "sest", 6);
    (js "sedem", 7);
    (js "osem", 8);
    (js "devet", 9) ]%Z.

Definition teens : list (jsstring * Z) :=
  [ (js "deset", 10);
    (js "enajst", 11);
    (js "dvanajst", 12);
    (js "trinajst", 13);
    (js "štirinajst", 14); (js "stirinajst", 14);
    (js "petnajst", 15);
    (js "šestnajst", 16); (js "sestnajst", 16);
    (js "sedemnajst", 17);
    (js "osemnajst", 18);
    (js "devetnajst", 19) ]%Z.

Definition tens : list (jsstring * Z) :=
  [ (js "dvajset", 20);
    (js "trideset", 30);
    (js "štirideset", 40); (js "stirideset", 40);
    (js "petdeset", 50); (js "petindeset", 50);
    (js "šestdeset", 60); (js "sestdeset", 60); (js "šezdeset", 60);
    (js "sezdeset", 60); (js "sestindeset", 60);
    (js "sedemdeset", 70); (js "sedemindeset", 70);
    (js "osemdeset", 80); (js "osemindeset", 80);
    (js "devetdeset", 90); (js "devetindeset", 90) ]%Z.

Definition hundreds : list (jsstring * Z) :=
  [ (js "devetsto", 900);
    (js "osemsto", 800);
    (js "sedemsto", 700);
    (js "šeststo", 600); (js "seststo", 600);
    (js "petsto", 500);
    (js "štiristo", 400); (js "stiristo", 400);
    (js "tristo", 300);
    (js "dvesto", 200);
    (js "dve sto", 200);
    (js "sto", 100) ]%Z.

(** new RegExp(`\\b${k}\\b(?:\\s+in\\s+|\\s+)?([\\p{L}\\p{M}]+)\\b`, "iu") *)
Definition re_tens_then_word (k : jsstring) : regex :=
  seq_of [ RWordB; lit k; RWordB;
           opt (RAlt (seq_of [plus r_s; lit (js "in"); plus r_s]) (plus r_s));
           RGroup 1 (plus (RSet false [IL; IM]));
           RWordB ].

(** parseBelow100, on the joined string. *)
Definition parseBelow100 (s : jsstring) : option Z :=
  match first_entry (fun k => includes s k) tens with
  | Some (k, v) =>
      let compact := replaceAll no_flags re_spaces [] s in
      match first_entry (fun oneK => includes compact (oneK ++ js "in" ++ k)) ones with
      | Some (_, oneV) => Some (v + oneV)%Z
      | None =>
          match re_match flag_iu (re_tens_then_word k) s with
          | Some m =>
              let w := toLowerCase (default [] (cap 1 m)) in
              match obj_get ones w with
              | Some o => Some (v + o)%Z
              | None => if isWordLike w (js "devet") then Some (v + 9)%Z else Some v
              end
          | None => Some v
          end
      end
  | None =>
      match first_entry (fun k => includes s k) teens with
      | Some (_, v) => Some v
      | None =>
          let ws := words_of s in
          let fix pairs (l : list jsstring) : option Z :=
            match l with
            | a :: ((b :: _) as l') =>
                if str_eqb b (js "deset") then
                  match obj_get ones a with
                  | Some o => Some (o * 10)%Z
                  | None =>
                      if isWordLike a (js "devet") then Some 90%Z
                      else if isWordLike a (js "osem") then Some 80%Z
                      else if isWordLike a (js "sedem") then Some 70%Z
                      else pairs l'
                  end
                else pairs l'
            | _ => None
            end in
          match pairs ws with
          | Some n => Some n
          | None =>
              match first_entry (fun k => includes s k) ones with
              | Some (_, v) => Some v
              | None =>
                  match ws with
                  | [w] => if isWordLike w (js "devet") then Some 9%Z else None
                  | _ => None
                  end
              end
          end
      end
  end.

(** /\b(\d{1,4})\b/ *)
Definition re_digits : regex := seq_of [RWordB; RGroup 1 (between 1 4 r_d); RWordB].

(** new RegExp(`(^|\\s)${hWord}(\\s|$)`, "iu") *)
Definition re_hundred_word (hWord : jsstring) : regex :=
  seq_of [RGroup 1 (RAlt RBol r_s); lit hWord; RGroup 2 (RAlt r_s REol)].

(** new RegExp(`\\b${hWord}\\b`, "iu") *)
Definition re_hundred_split (hWord : jsstring) : regex :=
  seq_of [RWordB; lit hWord; RWordB].

(** parseSlNumberRobust *)
Definition parseSlNumberRobust (text : jsstring) : option Z :=
  let t := cleanTextForNumber text in
  match re_match no_flags re_digits t with
  | Some m => Some (NumberOfDigits (default [] (cap 1 m)))
  | None =>
      let words := words_of t in
      match words with
      | [] => None
      | _ =>
          let joined := join (js " ") words in
          match first_entry (fun hWord => re_test flag_iu (re_hundred_word hWord) joined)
                  hundreds with
          | Some (hWord, hVal) =>
              let parts := split_re flag_iu (re_hundred_split hWord) joined in
              let after := trim (default [] (parts !! 1%nat)) in
              match after with
              | [] => Some hVal
              | _ =>
                  match parseBelow100 after with
                  | Some rest => Some (hVal + rest)%Z
                  | None => Some hVal
                  end
              end
          | None => parseBelow100 joined
          end
      end
  end.

End Parsing.

(** ** premium.js: the tier keywords *)

Section Coverage.
Context `{U : Unicode}.

(** normalizeCoverageLevel *)
Definition normalizeCoverageLevel (s : jsstring) : option jsstring :=
  let t := toLowerCase s in
  if includes t (js "polni") then Some (js "polni_kasko")
  else if includes t (js "delni") then Some (js "delni_kasko")
  else if includes t (js "osnov") then Some (js "osnovno")
  else None.

End Coverage.

(** A JavaScript string is truthy when it is not empty. *)
Definition truthy (o : option jsstring) : bool :=
  match o with
  | Some (_ :: _) => true
  | _ => false
  end.

(** ** premium.js: numbers *)

Definition Error := jsstring.

(** An integer as a JavaScript number. *)
Definition ZtoNumber (z : Z) : float :=
  match z with
  | Z0 => 0%float
  | Zpos _ => of_uint63 (Uint63.of_Z z)
  | Zneg p => (- of_uint63 (Uint63.of_Z (Zpos p)))%float
  end.

Definition is_neg_zero (x : float) : bool :=
  match classify x with NZero => true | _ => false end.

(** Math.max and Math.min of two numbers. *)
Definition Math_max (a b : float) : float :=
  if is_nan a then a else if is_nan b then b
  else if (a <? b)%float then b
  else if (b <? a)%float then a
  else if is_neg_zero a then b else a.

Definition Math_min (a b : float) : float :=
  if is_nan a then a else if is_nan b then b
  else if (a <? b)%float then a
  else if (b <? a)%float then b
  else if is_neg_zero a then a else b.

Definition two52 : float := 4503599627370496%float.

(** Math.floor: below 2^52 in magnitude a number added to 2^52 (or taken
    from it) is rounded to an integer; at and above, it is one. *)
Definition Math_floor (x : float) : float :=
  if (abs x <? two52)%float then
    let t := if (x <? 0)%float then ((x - two52) + two52)%float
             else ((x + two52) - two52)%float in
    if (x <? t)%float then (t - 1)%float else t
  else x.

(** Math.round: the nearest integer, a tie going up; -0 for [-0.5, 0). *)
Definition Math_round (x : float) : float :=
  let f := Math_floor x in
  let r := if (0.5 <=? x - f)%float then (f + 1)%float else f in
  if (r =? 0)%float && (x <? 0)%float then (-0)%float else r.

(** The integer a finite integral number holds. *)
Definition NumberToZ (x : float) : Z :=
  match Prim2SF x with
  | S754_finite s m e =>
      let v := (if 0 <=? e then Z.pos m * 2 ^ e else Z.pos m / 2 ^ (- e))%Z in
      if s then (- v)%Z else v
  | _ => 0%Z
  end.

(** String(z) of an integer. *)
Definition ZtoString (z : Z) : jsstring := js (NilZero.string_of_int (Z.to_int z)).

(** String(x) of a number that Math.round returned: an integer below 10^21
    in magnitude, NaN or an infinity. *)
Definition roundedToString (x : float) : jsstring :=
  if is_nan x then js "NaN"
  else if (x =? infinity)%float then js "Infinity"
  else if (x =? neg_infinity)%float then js "-Infinity"
  else ZtoString (NumberToZ x).

(** ** premium.js: calculate_premium *)

Record Breakdown := {
  base : float;
  ageFactor : float;
  hpFactor : float;
  cityFactor : float;
  coverageFactor : float
}.

Record Quote := {
  annual_eur : float;
  monthly_eur : float;
  breakdown : Breakdown
}.

Definition cityFactorMap : list (jsstring * float) :=
  [ (js "ljubljana", 1.05); (js "maribor", 1.03); (js "koper", 1.02);
    (js "celje", 1.01); (js "kranj", 1.02) ]%float.

Definition coverageFactorMap : list (jsstring * float) :=
  [ (js "osnovno", 1.0); (js "delni_kasko", 1.28); (js "polni_kasko", 1.55) ]%float.

Definition ageFactorOf (age : float) : float :=
  Math_max 0.78 (Math_min 1.15 (1.10 - age * 0.02))%float.

Definition hpFactorOf (hp : float) : float :=
  Math_max 0.85 (Math_min 1.60 (0.85 + hp / 200))%float.

(** The quote built once the arguments are validated. *)
Definition quoteOf (af hf cf cov : float) : Quote :=
  let base := 220%float in
  let annual := Math_round (base * af * hf * cf * cov)%float in
  let monthly := Math_round (annual / 12)%float in
  {| annual_eur := annual; monthly_eur := monthly;
     breakdown := {| base := base; ageFactor := af; hpFactor := hf;
                     cityFactor := cf; coverageFactor := cov |} |}.

Section Premium.
Context `{U : Unicode}.

(** calculate_premium(vehicleAge, horsepower, city, coverageLevel); the two
    numbers are numbers already, [None] is null. *)
Definition calculate_premium (vehicleAge horsepower : float)
    (city coverageLevel : option jsstring) : Error + Quote :=
  let age := vehicleAge in
  let hp := horsepower in
  let lvl := if truthy coverageLevel then default [] coverageLevel else [] in
  let cityStr := if truthy city then default [] city else js "Other" in
  if negb (is_finite age) || (age <? 0)%float
  then inl (js "vehicleAge must be a non-negative number")
  else if negb (is_finite hp) || (hp <=? 0)%float
  then inl (js "horsepower must be a positive number")
  else if bool_decide (lvl = [])
  then inl (js "coverageLevel is required")
  else
    let cityKey := toLowerCase cityStr in
    let cityFactor := default 1.0%float (obj_get cityFactorMap cityKey) in
    let coverageFactor := default 1.0%float (obj_get coverageFactorMap lvl) in
    inr (quoteOf (ageFactorOf age) (hpFactorOf hp) cityFactor coverageFactor).

End Premium.

(** The property names an object inherits from Object.prototype. A lookup
    of one of them in a table of the source finds the inherited property;
    the tables of this embedding hold the own keys only, and properties of
    [calculate_premium] are stated for keys that are none of these names. *)
Definition inheritedNames : list jsstring :=
  [ js "constructor"; js "__proto__"; js "hasOwnProperty"; js "isPrototypeOf";
    js "propertyIsEnumerable"; js "toLocaleString"; js "toString"; js "valueOf";
    js "__defineGetter__"; js "__defineSetter__"; js "__lookupGetter__";
    js "__lookupSetter__" ].

(** *** The two tables with the prototype chain

    [calculate_premium] reads its two tables by their own keys. In the
    source the tables are object literals, and [cityFactorMap[cityKey]] and
    [coverageFactorMap[lvl]] also find the properties that every object
    inherits from Object.prototype. What follows is the arithmetic of lines
    26-44 with these lookups: the annual and the monthly premium of the
    result for any key. *)

(** What [table[key]] finds. *)
Inductive Found : Type :=
| FoundOwn (x : float)           (* an own key of the table: its number *)
| FoundInherited (key : jsstring) (* a property of Object.prototype: a function,
                                     or for __proto__ the prototype itself *)
| FoundNothing.                  (* undefined *)

Definition table_get (table : list (jsstring * float)) (key : jsstring) : Found :=
  match obj_get table key with
  | Some x => FoundOwn x
  | None => if bool_decide (key ∈ inheritedNames) then FoundInherited key else FoundNothing
  end.

(** [found || 1.0] as an operand of the product: a function or an object
    is truthy, so it stays, and converts to NaN. *)
Definition orOne (found : Found) : float :=
  match found with
  | FoundOwn x => if (x =? 0)%float || is_nan x then 1.0%float else x
  | FoundInherited _ => nan
  | FoundNothing => 1.0%float
  end.

(** [found ?? 1.0] as an operand of the product. *)
Definition elseOne (found : Found) : float :=
  match found with
  | FoundOwn x => x
  | FoundInherited _ => nan
  | FoundNothing => 1.0%float
  end.

Section PremiumAmounts.
Context `{U : Unicode}.

(** annual_eur and monthly_eur of calculate_premium(vehicleAge, horsepower,
    city, coverageLevel), or the error thrown. *)
Definition calculate_premium_amounts (vehicleAge horsepower : float)
    (city coverageLevel : option jsstring) : Error + float * float :=
  let age := vehicleAge in
  let hp := horsepower in
  let lvl := if truthy coverageLevel then default [] coverageLevel else [] in
  let cityStr := if truthy city then default [] city else js "Other" in
  if negb (is_finite age) || (age <? 0)%float
  then inl (js "vehicleAge must be a non-negative number")
  else if negb (is_finite hp) || (hp <=? 0)%float
  then inl (js "horsepower must be a positive number")
  else if bool_decide (lvl = [])
  then inl (js "coverageLevel is required")
  else
    let base := 220%float in
    let cityKey := toLowerCase cityStr in
    let cityFactor := orOne (table_get cityFactorMap cityKey) in
    let coverageFactor := elseOne (table_get coverageFactorMap lvl) in
    let annual :=
      Math_round (base * ageFactorOf age * hpFactorOf hp * cityFactor * coverageFactor)%float in
    let monthly := Math_round (annual / 12)%float in
    inr (annual, monthly).

End PremiumAmounts.

(** ** Entity extractors *)

Section Extractors.
Context `{U : Unicode}.

(** /\b(\d{1,2})\s*(let|leto|leti|letih|lit|lita|liti)\b/ *)
Definition re_age_unit : regex :=
  seq_of [ RWordB; RGroup 1 (between 1 2 r_d); star r_s;
           RGroup 2 (alt_of (map lit [js "let"; js "leto"; js "leti"; js "letih";
                                      js "lit"; js "lita"; js "liti"]));
           RWordB ].

(** /star\w*\s*(\d{1,2})/ *)
Definition re_star : regex :=
  seq_of [lit (js "star"); star r_w; star r_s; RGroup 1 (between 1 2 r_d)].

(** extractVehicleAge *)
Definition extractVehicleAge (text : jsstring) : option Z :=
  let t := cleanTextForNumber text in
  match re_match no_flags re_age_unit t with
  | Some m => Some (NumberOfDigits (default [] (cap 1 m)))
  | None =>
      match re_match no_flags re_star t with
      | Some m => Some (NumberOfDigits (default [] (cap 1 m)))
      | None =>
          match parseSlNumberRobust t with
          | Some n => if (0 <=? n)%Z && (n <=? 40)%Z then Some n else None
          | None => None
          end
      end
  end.

(** /\b(\d{2,4})\s*(km|konj|konji|konjev|konjska)\b/ *)
Definition re_hp_unit : regex :=
  seq_of [ RWordB; RGroup 1 (between 2 4 r_d); star r_s;
           RGroup 2 (alt_of (map lit [js "km"; js "konj"; js "konji"; js "konjev";
                                      js "konjska"]));
           RWordB ].

(** /moč\w*\s*(\d{2,4})/ *)
Definition re_moc : regex :=
  seq_of [lit (js "moč"); star r_w; star r_s; RGroup 1 (between 2 4 r_d)].

(** extractHorsepower *)
Definition extractHorsepower (text : jsstring) : option Z :=
  let t := cleanTextForNumber text in
  match re_match no_flags re_hp_unit t with
  | Some m => Some (NumberOfDigits (default [] (cap 1 m)))
  | None =>
      match re_match no_flags re_moc t with
      | Some m => Some (NumberOfDigits (default [] (cap 1 m)))
      | None =>
          match parseSlNumberRobust t with
          | Some n => if (20 <=? n)%Z && (n <=? 600)%Z then Some n else None
          | None => None
          end
      end
  end.

(** extractCoverageLevel(text, { wantsPremium }) *)
Definition extractCoverageLevel (text : jsstring) (wantsPremium : bool) : option jsstring :=
  match normalizeCoverageLevel text with
  | Some norm => Some norm
  | None =>
      let t := toLowerCase text in
      if includes t (js "osnov") then Some (js "osnovno")
      else if includes t (js "delni") then Some (js "delni_kasko")
      else if includes t (js "polni") then Some (js "polni_kasko")
      else if wantsPremium && includes t (js "kasko") then Some (js "polni_kasko")
      else None
  end.

(** mentionsCoverage *)
Definition mentionsCoverage (text : jsstring) : bool :=
  let t := toLowerCase text in
  includes t (js "kasko") || includes t (js "delni") || includes t (js "polni")
  || includes t (js "osnov").

(** isProbablyNotCityWord *)
Definition isProbablyNotCityWord (raw : jsstring) : bool :=
  let t := trim (toLowerCase raw) in
  if includes t (js "kasko") || includes t (js "osnov") then true
  else if str_eqb t (js "da") || str_eqb t (js "ne") || str_eqb t (js "ja") then true
  else if (length t <? 3)%nat then true
  else false.

Definition cityNormMap : list (jsstring * jsstring) :=
  [ (js "kopru", js "Koper"); (js "koper", js "Koper");
    (js "ljubljani", js "Ljubljana"); (js "ljubljana", js "Ljubljana");
    (js "mariboru", js "Maribor"); (js "maribor", js "Maribor");
    (js "celju", js "Celje"); (js "celje", js "Celje");
    (js "kranju", js "Kranj"); (js "kranj", js "Kranj") ].

(** [\p{L}\p{M}\-] *)
Definition r_name : regex := RSet false [IL; IM; IChar (chr "-")].

(** /[^\p{L}\p{M}\- ]+/gu *)
Definition re_not_name : regex := plus (RSet true [IL; IM; IChar (chr "-"); IChar 32]).

(** /^[\p{L}\p{M}\-]{3,}$/u *)
Definition re_one_word : regex := seq_of [RBol; at_least 3 r_name; REol].

(** (v|iz|pri|blizu|okolica) *)
Definition r_prep (i : nat) : regex :=
  RGroup i (alt_of (map lit [js "v"; js "iz"; js "pri"; js "blizu"; js "okolica"])).

(** /\b(v|iz|pri|blizu|okolica)\s+([\p{L}\p{M}\-]{3,})(?:\s+([\p{L}\p{M}\-]{3,}))?(?:\s+([\p{L}\p{M}\-]{3,}))?/iu *)
Definition re_city_phrase : regex :=
  seq_of [ RWordB; r_prep 1; plus r_s; RGroup 2 (at_least 3 r_name);
           opt (seq_of [plus r_s; RGroup 3 (at_least 3 r_name)]);
           opt (seq_of [plus r_s; RGroup 4 (at_least 3 r_name)]) ].

(** extractCity *)
Definition extractCity (text : jsstring) : option jsstring :=
  let raw0 := trim text in
  let raw :=
    trim (replaceAll no_flags re_spaces (js " ")
            (replaceAll flag_u re_not_name (js " ") raw0)) in
  let t := toLowerCase raw in
  let compact := replaceAll no_flags re_spaces [] t in
  if str_eqb compact (js "vseeno") || str_eqb compact (js "vseno")
     || str_eqb compact (js "karkoli") || str_eqb compact (js "kjerkoli")
     || includes t (js "ni pomembno") || includes t (js "nima veze")
  then Some (js "Other")
  else if mentionsCoverage raw || bool_decide (is_Some (extractCoverageLevel raw false))
  then None
  else if isProbablyNotCityWord raw then None
  else
    match parseSlNumberRobust t with
    | Some _ => None
    | None =>
        if re_test flag_u re_one_word raw then
          Some (default raw (obj_get cityNormMap t))
        else
          match re_match flag_iu re_city_phrase raw with
          | Some m =>
              let parts :=
                filterBoolean [default [] (cap 2 m); default [] (cap 3 m);
                               default [] (cap 4 m)] in
              let joined := join (js " ") parts in
              Some (default joined (obj_get cityNormMap (toLowerCase joined)))
          | None => None
          end
    end.

End Extractors.

(** ** Slots of a premium draft *)

Record Draft := {
  vehicleAge : option Z;
  horsepower : option Z;
  city : option jsstring;
  coverageLevel : option jsstring;
  pendingSlot : option jsstring
}.

(** missingSlot *)
Definition missingSlot (p : Draft) : option jsstring :=
  match vehicleAge p with
  | None => Some (js "vehicleAge")
  | Some _ =>
      match horsepower p with
      | None => Some (js "horsepower")
      | Some _ =>
          if negb (truthy (coverageLevel p)) then Some (js "coverageLevel")
          else None
      end
  end.

(** questionForSlot *)
Definition questionForSlot (slot : jsstring) : option jsstring :=
  if str_eqb slot (js "vehicleAge") then Some (js "Koliko je star avto (v letih)?")
  else if str_eqb slot (js "horsepower") then Some (js "Koliko ima avto konjskih moči (KM)?")
  else if str_eqb slot (js "coverageLevel")
  then Some (js "Katero kritje želite: osnovno, delni kasko ali polni kasko?")
  else None.

(** formatCoverageLabel *)
Definition formatCoverageLabel (lvl : jsstring) : jsstring :=
  if str_eqb lvl (js "osnovno") then js "osnovno zavarovanje"
  else if str_eqb lvl (js "delni_kasko") then js "delni kasko"
  else if str_eqb lvl (js "polni_kasko") then js "polni kasko"
  else lvl.

(** ** Intent classifier *)

Record LastPremium := {
  lp_vehicleAge : option Z;
  lp_horsepower : option Z;
  lp_city : option jsstring
}.

Record PendingComparison := { options : list jsstring }.

Record State := {
  premium : option Draft;
  lastPremium : option LastPremium;
  comparedLevels : gset jsstring;
  pendingComparison : option PendingComparison
}.

Section Intent.
Context `{U : Unicode}.

Definition infoPatterns : list regex :=
  [ seq_of [RBol; lit (js "kaj"); RWordB];
    seq_of [RBol; lit (js "kaj pomeni"); RWordB];
    seq_of [RBol; lit (js "kaj je"); RWordB];
    seq_of [RBol; lit (js "kako"); RWordB];
    seq_of [RBol; lit (js "kdaj"); RWordB];
    seq_of [RBol; lit (js "kje"); RWordB];
    seq_of [RBol; lit (js "zakaj"); RWordB];
    lit (js "pomeni"); lit (js "razlika"); lit (js "krije"); lit (js "kritje");
    lit (js "postopek"); lit (js "prijavim škodo"); lit (js "odškodnin");
    lit (js "odskodnin"); lit (js "dokaz");
    lit (js "kaj potrebujem"); lit (js "kaj rabim"); lit (js "kateri dokument");
    lit (js "škod"); lit (js "skod") ].

(** looksLikeInfoQuestion *)
Definition looksLikeInfoQuestion (text : jsstring) : bool :=
  let t := trim (toLowerCase text) in
  existsb (fun p => re_test no_flags p t) infoPatterns.

(** hasCalcWording *)
Definition hasCalcWording (text : jsstring) : bool :=
  let t := toLowerCase text in
  includes t (js "izračun") || includes t (js "izracun")
  || includes t (js "izračunaj") || includes t (js "izracunaj")
  || includes t (js "premija") || includes t (js "koliko stane")
  || includes t (js "koliko bi stal") || includes t (js "cena")
  || includes t (js "strošek") || includes t (js "stane")
  || includes t (js "koliko pride").

(** /(\d{1,2})\s*(let|leto|leti|letih|lit)\b/i *)
Definition re_age_hint : regex :=
  seq_of [ RGroup 1 (between 1 2 r_d); star r_s;
           RGroup 2 (alt_of (map lit [js "let"; js "leto"; js "leti"; js "letih";
                                      js "lit"]));
           RWordB ].

(** /(\d{2,4})\s*(km|konj|konji|konjev|konjska)\b/i *)
Definition re_hp_hint : regex :=
  seq_of [ RGroup 1 (between 2 4 r_d); star r_s;
           RGroup 2 (alt_of (map lit [js "km"; js "konj"; js "konji"; js "konjev";
                                      js "konjska"]));
           RWordB ].

(** /\b(v|iz|pri|blizu|okolica)\s+[\p{L}\p{M}\-]{3,}/iu *)
Definition re_city_hint : regex :=
  seq_of [RWordB; r_prep 1; plus r_s; at_least 3 r_name].

(** /\b(v|iz|pri|blizu|okolica)\s+/i *)
Definition re_prep_hint : regex := seq_of [RWordB; r_prep 1; plus r_s].

(** hasAnyPremiumSlotHints *)
Definition hasAnyPremiumSlotHints (text : jsstring) : bool :=
  let t := toLowerCase text in
  let hasAge := re_test flag_i re_age_hint t || includes t (js "star ") in
  let hasHp := re_test flag_i re_hp_hint t || includes t (js "konj") in
  let hasCity := re_test flag_iu re_city_hint text in
  hasAge || hasHp || hasCity.

(** wantsComparison *)
Definition wantsComparison (text : jsstring) : bool :=
  let t := toLowerCase text in
  includes t (js "primerjaj") || includes t (js "primerjava")
  || includes t (js "primerjavo") || includes t (js "daj še")
  || includes t (js "še delni") || includes t (js "še polni")
  || includes t (js "še osnovno") || includes t (js "namesto")
  || includes t (js "tudi delni") || includes t (js "tudi polni").

(** isNewPremiumRequest *)
Definition isNewPremiumRequest (text : jsstring) : bool :=
  let t := toLowerCase text in
  let hasAgeHint := re_test flag_i re_age_hint t || includes t (js "star ") in
  let hasHpHint := re_test flag_i re_hp_hint t || includes t (js "konj") in
  let hasCityHint := re_test flag_i re_prep_hint t in
  let hasVehicle := includes t (js "avto") || includes t (js "vozilo") in
  hasVehicle && (hasAgeHint || hasHpHint || hasCityHint).

(** wantsNewVehicle *)
Definition wantsNewVehicle (text : jsstring) : bool :=
  let t := toLowerCase text in
  includes t (js "nov izračun") || includes t (js "nov izracun")
  || includes t (js "novo vozilo") || includes t (js "nov avto")
  || includes t (js "novo avto") || includes t (js "drugo vozilo")
  || includes t (js "drug avto").

(** isLikelyAnswerToComparison *)
Definition isLikelyAnswerToComparison (text : jsstring) : bool :=
  isAffirmative text || isNegative text
  || bool_decide (is_Some (extractCoverageLevel text true))
  || mentionsCoverage text.

(** isPremiumIntent *)
Definition isPremiumIntent (text : jsstring) (state : State) : bool :=
  if bool_decide (is_Some (pendingComparison state)) then true
  else
    let infoQ := looksLikeInfoQuestion text in
    let calcW := hasCalcWording text in
    let cov := mentionsCoverage text in
    let slots := hasAnyPremiumSlotHints text in
    let cmp := wantsComparison text in
    if infoQ && negb calcW then false
    else if calcW then true
    else if cov && slots then true
    else if cmp && bool_decide (is_Some (lastPremium state)) then true
    else false.

End Intent.

(** ** Sessions *)

Record Message := { role : jsstring; content : jsstring }.

Record Session := { messages : list Message; state : State }.

Definition Buffer := list N.

Record Doc := { doc_id : jsstring; doc_text : jsstring }.

Definition systemPrompt : jsstring :=
  js "Ti si prijazen inbound AI voice agent zavarovalnice. "
  ++ js "Odgovarjaj v slovenščini. Če je izjava nejasna, postavi eno kratko dodatno vprašanje. "
  ++ js "Odgovori naj bodo kratki, praktični in razumljivi.".

Definition emptyState : State :=
  {| premium := None; lastPremium := None; comparedLevels := ∅;
     pendingComparison := None |}.

Definition newSession : Session :=
  {| messages := [ {| role := js "system"; content := systemPrompt |} ];
     state := emptyState |}.

(** getSession: the session of the key, created on first reference. *)
Definition getSession (sessionId : jsstring) (sessions : gmap jsstring Session)
  : gmap jsstring Session * Session :=
  match sessions !! sessionId with
  | Some sess => (sessions, sess)
  | None => (<[sessionId := newSession]> sessions, newSession)
  end.

(** ** The monad of a turn: the session, and exceptions that keep it *)

Definition M (A : Type) : Type := Session -> Session * (Error + A).

Definition ret {A} (a : A) : M A := fun s => (s, inr a).

Definition bind {A B} (m : M A) (f : A -> M B) : M B :=
  fun s =>
    match m s with
    | (s', inr a) => f a s'
    | (s', inl e) => (s', inl e)
    end.

(** await of a collaborator's promise: its value, or its rejection thrown. *)
Definition await {A} (r : Error + A) : M A := fun s => (s, r).

Definition getState : M State := fun s => (s, inr (state s)).

Definition setState (st : State) : M unit :=
  fun s => ({| messages := messages s; state := st |}, inr tt).

(** messages.push *)
Definition pushMessage (r c : jsstring) : M unit :=
  fun s => ({| messages := messages s ++ [ {| role := r; content := c |} ];
               state := state s |}, inr tt).

Definition getMessages : M (list Message) := fun s => (s, inr (messages s)).

Notation "'let*' x ':=' m 'in' k" := (bind m (fun x => k))
  (at level 10, x name, m at level 100, k at level 200).
Notation "m ';;;' k" := (bind m (fun _ => k))
  (at level 100, k at level 200, right associativity).

(** ** The /turn handler *)

Record Extra := {
  x_premium : option Draft;          (* premium: { ...p, pending: true } *)
  x_premiumResult : option Quote;    (* premiumResult *)
  x_ragDocs : option (list jsstring) (* ragDocs *)
}.

Definition noExtra : Extra :=
  {| x_premium := None; x_premiumResult := None; x_ragDocs := None |}.

Record TurnBody := {
  transcript : jsstring;
  replyText : jsstring;
  replyAudio : Buffer;   (* the mp3 that replyAudioBase64 encodes *)
  extra : Extra
}.

Inductive Response :=
| Json (b : TurnBody)        (* res.json(...) *)
| Status400 (e : jsstring)   (* res.status(400).json({ error }) *)
| Status500 (e : jsstring).  (* res.status(500).json({ error }) *)

Record Request := {
  body_sessionId : option jsstring;
  file : option (Buffer * option jsstring)   (* req.file: buffer, originalname *)
}.

(** The collaborators as one turn meets them: the text of the
    transcription, the text of the answering model, the synthesized audio,
    or the error thrown instead. *)
Record Collaborators := {
  stt : Buffer -> jsstring -> Error + jsstring;
  llm : list Message -> Error + jsstring;
  tts : jsstring -> Error + Buffer
}.

(** tailMessages *)
Definition tailMessages (messages : list Message) (maxPairs : nat) : list Message :=
  let sys := take 1 messages in
  let rest := drop 1 messages in
  let tail := drop (length rest - maxPairs * 2) rest in
  sys ++ tail.

Definition nl : jsstring := [10].

Definition ragRules : jsstring :=
  js "PRAVILA (strogo):" ++ nl
  ++ js "1) Odgovarjaj na podlagi spodnjih dokumentov: uporabi jih kot vir resnice, ampak povzemaj samo relevantne informacije." ++ nl
  ++ js "2) Ne dodajaj svojih korakov, ki niso iz dokumentov." ++ nl
  ++ js "3) Če dokumenti ne vsebujejo odgovora, reci: 'Tega podatka v dokumentih nimam.' in vprašaj 1 dodatno vprašanje." ++ nl
  ++ js "4) Če uporabnik sprašuje o postopku, vrni kratek odgovor (3–6 alinej max) in ponudi: 'Lahko razložim še podrobneje, želite?'" ++ nl
  ++ js "5) Če je izjava nejasna, uporabljaj standardne zavarovalniške izraze in NE ponavljaj nejasnega izraza uporabnika." ++ nl
  ++ js "6) Pri nejasnih izrazih najprej razjasni pomen z enim vprašanjem." ++ nl
  ++ js "7) Če vprašanje ni povezano z zavarovanjem, povej da si zavarovalniški agent in usmeri na: prijava škode, kritja (delni/polni kasko), odškodnina/dokazi, roki, samoudeležba, izračun premije." ++ nl
  ++ js "8) Odgovarjaj customer-facing (v 2. osebi): 'lahko prijavite', 'potrebujete', 'priporočamo'. Ne uporabljaj 'agent naj...'." ++ nl ++ nl
  ++ js "DOKUMENTI:" ++ nl.

Definition closingPrompt : jsstring :=
  js "Želite še kaj? Lahko naredim nov izračun za drugo vozilo.".

Definition set_pendingComparison (pc : option PendingComparison) (st : State) : State :=
  {| premium := premium st; lastPremium := lastPremium st;
     comparedLevels := comparedLevels st; pendingComparison := pc |}.

Definition set_premium (p : option Draft) (st : State) : State :=
  {| premium := p; lastPremium := lastPremium st;
     comparedLevels := comparedLevels st; pendingComparison := pendingComparison st |}.

(** The draft a comparison answer opens: the vehicle of the last quote and
    the chosen tier. *)
Definition comparisonDraft (lp : option LastPremium) (lvl : jsstring) : Draft :=
  {| vehicleAge := lp ≫= lp_vehicleAge;
     horsepower := lp ≫= lp_horsepower;
     city := lp ≫= lp_city;
     coverageLevel := Some lvl;
     pendingSlot := None |}.

(** The draft of a premium request: the vehicle of the last quote when
    prefill is allowed. *)
Definition freshDraft (lp : option LastPremium) (newVehicleReq : bool) : Draft :=
  match lp with
  | Some l =>
      if negb newVehicleReq then
        {| vehicleAge := lp_vehicleAge l; horsepower := lp_horsepower l;
           city := lp_city l; coverageLevel := None; pendingSlot := None |}
      else
        {| vehicleAge := None; horsepower := None; city := None;
           coverageLevel := None; pendingSlot := None |}
  | None =>
      {| vehicleAge := None; horsepower := None; city := None;
         coverageLevel := None; pendingSlot := None |}
  end.

(** The assignments [if (age != null) p.vehicleAge = age; ...; if (lvl)
    p.coverageLevel = lvl]. *)
Definition applySlots (p : Draft) (age hp : option Z) (cty lvl : option jsstring) : Draft :=
  {| vehicleAge := match age with Some _ => age | None => vehicleAge p end;
     horsepower := match hp with Some _ => hp | None => horsepower p end;
     city := if truthy cty then cty else city p;
     coverageLevel := if truthy lvl then lvl else coverageLevel p;
     pendingSlot := pendingSlot p |}.

Definition set_pendingSlot (slot : option jsstring) (p : Draft) : Draft :=
  {| vehicleAge := vehicleAge p; horsepower := horsepower p; city := city p;
     coverageLevel := coverageLevel p; pendingSlot := slot |}.

Definition set_city (c : option jsstring) (p : Draft) : Draft :=
  {| vehicleAge := vehicleAge p; horsepower := horsepower p; city := c;
     coverageLevel := coverageLevel p; pendingSlot := pendingSlot p |}.

(** The follow-up of a quote of tier [lvl]: its wording and the tiers to
    offer, [None] for no offer. *)
Definition followUpOf (lvl : jsstring) (compared : gset jsstring)
  : jsstring * option (list jsstring) :=
  let wantDelni := negb (bool_decide (js "delni_kasko" ∈ compared)) in
  let wantPolni := negb (bool_decide (js "polni_kasko" ∈ compared)) in
  if str_eqb lvl (js "osnovno") then
    if wantDelni || wantPolni then
      (js "Želite primerjavo za delni ali polni kasko?",
       Some ((if wantDelni then [js "delni_kasko"] else [])
             ++ (if wantPolni then [js "polni_kasko"] else [])))
    else (closingPrompt, None)
  else if str_eqb lvl (js "delni_kasko") then
    if wantPolni then (js "Želite še izračun za polni kasko?", Some [js "polni_kasko"])
    else (closingPrompt, None)
  else if str_eqb lvl (js "polni_kasko") then
    if wantDelni then (js "Želite še izračun za delni kasko?", Some [js "delni_kasko"])
    else (closingPrompt, None)
  else (closingPrompt, None).

Section Handler.
Context `{U : Unicode}.
(** The documents loaded at start-up and the retriever of rag.js. *)
Variable docs : list Doc.
Variable retrieveDocs : jsstring -> list Doc -> nat -> list Doc.
Variable c : Collaborators.

(** excerpt *)
Definition excerpt (text : jsstring) (maxChars : nat) : jsstring :=
  let s := trim (replaceAll no_flags re_spaces (js " ") text) in
  if (maxChars <? length s)%nat then take maxChars s ++ js " …" else s.

(** sttTranscribe *)
Definition sttTranscribe (audioBuffer : Buffer) (filename : jsstring) : M jsstring :=
  let* text := await (stt c audioBuffer filename) in
  ret (trim text).

(** llmReply *)
Definition llmReply (messages : list Message) : M jsstring :=
  let trimmed := tailMessages messages 8 in
  let* out := await (llm c trimmed) in
  ret (match out with
       | [] => js "Se opravičujem — lahko ponoviš vprašanje?"
       | _ => out
       end).

(** ttsSpeak *)
Definition ttsSpeak (text : jsstring) : M Buffer := await (tts c text).

(** respondWithTTS *)
Definition respondWithTTS (transcript replyText : jsstring) (extra : Extra) : M TurnBody :=
  let* mp3 := ttsSpeak replyText in
  ret {| transcript := transcript; replyText := replyText; replyAudio := mp3;
         extra := extra |}.

Definition assistantSays (transcript replyText : jsstring) (extra : Extra) : M TurnBody :=
  pushMessage (js "assistant") replyText ;;;
  respondWithTTS transcript replyText extra.

(** The block [if (state.pendingComparison) { ... }]: [Some] is the body
    of a reply returned from inside it, [None] falls through to the rest
    of the handler. *)
Definition comparisonBlock (transcript : jsstring) (pc : PendingComparison)
  : M (option TurnBody) :=
  let opts := options pc in
  let lower := toLowerCase transcript in
  let mentionsBoth := includes lower (js "delni") && includes lower (js "polni") in
  if (length opts =? 2)%nat && mentionsBoth then
    let* b := assistantSays transcript
                (js "Lahko izračunam oba. Kateri naj najprej: delni ali polni kasko?")
                noExtra in
    ret (Some b)
  else if looksLikeInfoQuestion transcript && negb (mentionsCoverage transcript)
          && negb (hasCalcWording transcript) then
    let* st := getState in
    setState (set_pendingComparison None st) ;;;
    ret None
  else if negb (isLikelyAnswerToComparison transcript) then
    let* st := getState in
    setState (set_pendingComparison None st) ;;;
    let* b := assistantSays transcript
                (js "Nisem prepričan, kaj želite. Ali želite primerjavo kritij (delni/polni kasko) "
                 ++ js "ali imate drugo vprašanje (npr. prijava škode)?")
                noExtra in
    ret (Some b)
  else
    let saidLevel := extractCoverageLevel transcript true in
    if truthy saidLevel && bool_decide (default [] saidLevel ∈ opts) then
      let* st := getState in
      setState (set_premium (Some (comparisonDraft (lastPremium st) (default [] saidLevel)))
                  (set_pendingComparison None st)) ;;;
      ret None
    else if isNegative transcript then
      let* st := getState in
      setState (set_pendingComparison None st) ;;;
      let* b := assistantSays transcript
                  (js "V redu. Želite še kaj? Lahko naredim nov izračun za drugo vozilo.")
                  noExtra in
      ret (Some b)
    else if isAffirmative transcript then
      match opts with
      | [chosen] =>
          let* st := getState in
          setState (set_premium (Some (comparisonDraft (lastPremium st) chosen))
                      (set_pendingComparison None st)) ;;;
          ret None
      | _ =>
          let* b := assistantSays transcript
                      (js "Super — želite delni kasko ali polni kasko?") noExtra in
          ret (Some b)
      end
    else
      let* b := assistantSays transcript
                  (js "Samo da preverim — želite delni kasko ali polni kasko?") noExtra in
      ret (Some b).

(** The extraction step of the premium flow: every slot when no slot is
    pending, else the pending one; then the assignments to the draft. *)
Definition fillSlots (transcript : jsstring) (p : Draft) : Draft :=
  let pending := pendingSlot p in
  let all := negb (truthy pending) in
  let age :=
    if all || bool_decide (pending = Some (js "vehicleAge"))
    then extractVehicleAge transcript else None in
  let hp :=
    if all || bool_decide (pending = Some (js "horsepower"))
    then extractHorsepower transcript else None in
  let cty := if all then extractCity transcript else None in
  let lvl :=
    if all || bool_decide (pending = Some (js "coverageLevel"))
    then extractCoverageLevel transcript true else None in
  applySlots p age hp cty lvl.

(** if (!p.city) p.city = "Other" *)
Definition defaultCity (p : Draft) : Draft :=
  if truthy (city p) then p else set_city (Some (js "Other")) p.

Definition questionText (slot : jsstring) : jsstring :=
  js "Seveda — za izračun premije potrebujem še eno informacijo. "
  ++ default [] (questionForSlot slot).

Definition quoteText (p : Draft) (result : Quote) (followUp : jsstring) : jsstring :=
  js "Ocena premije za " ++ formatCoverageLabel (default [] (coverageLevel p)) ++ js " ("
  ++ ZtoString (default 0%Z (vehicleAge p)) ++ js " let star avto, "
  ++ ZtoString (default 0%Z (horsepower p)) ++ js " KM, "
  ++ default [] (city p) ++ js ") je približno "
  ++ roundedToString (annual_eur result) ++ js " € na leto (okoli "
  ++ roundedToString (monthly_eur result) ++ js " € na mesec). "
  ++ followUp.

(** The state a quote leaves: the tier joins comparedLevels, the vehicle
    goes to lastPremium, the draft is dropped and the offer recorded. *)
Definition quotedState (p : Draft) (st : State) : State :=
  let lvl := default [] (coverageLevel p) in
  let compared := {[ lvl ]} ∪ comparedLevels st in
  {| premium := None;
     lastPremium := Some {| lp_vehicleAge := vehicleAge p;
                            lp_horsepower := horsepower p;
                            lp_city := city p |};
     comparedLevels := compared;
     pendingComparison :=
       (fun o => {| options := o |}) <$> snd (followUpOf lvl compared) |}.

(** The premium flow, entered with the draft [p] in state.premium. *)
Definition premiumFlow (transcript : jsstring) (p : Draft) : M TurnBody :=
  let p1 := fillSlots transcript p in
  match missingSlot p1 with
  | Some slot =>
      let p2 := set_pendingSlot (Some slot) p1 in
      let* st := getState in
      setState (set_premium (Some p2) st) ;;;
      assistantSays transcript (questionText slot)
        {| x_premium := Some p2; x_premiumResult := None; x_ragDocs := None |}
  | None =>
      let p2 := defaultCity p1 in
      let* st := getState in
      setState (set_premium (Some p2) st) ;;;
      let* result :=
        await (calculate_premium
                 (ZtoNumber (default 0%Z (vehicleAge p2)))
                 (ZtoNumber (default 0%Z (horsepower p2)))
                 (city p2) (coverageLevel p2)) in
      let st' := quotedState p2 st in
      let followUp :=
        fst (followUpOf (default [] (coverageLevel p2)) (comparedLevels st')) in
      setState st' ;;;
      assistantSays transcript (quoteText p2 result followUp)
        {| x_premium := None; x_premiumResult := Some result; x_ragDocs := None |}
  end.

(** The RAG flow. *)
Definition ragFlow (transcript : jsstring) : M TurnBody :=
  let hits := retrieveDocs transcript docs 10 in
  let contextDocs := match hits with [] => take 10 docs | _ => hits end in
  let context :=
    join nl (map (fun d => js "---" ++ nl ++ js "DOC: " ++ doc_id d ++ nl
                           ++ excerpt (doc_text d) 1400) contextDocs) in
  let ragSystemMsg := {| role := js "system"; content := ragRules ++ context |} in
  let* messages := getMessages in
  let* replyText := llmReply (messages ++ [ragSystemMsg]) in
  assistantSays transcript replyText
    {| x_premium := None; x_premiumResult := None;
       x_ragDocs := Some (map doc_id contextDocs) |}.

(** The state after the check [if (newPremiumReq) { ... }]: a premium
    request that names a vehicle while no draft is open drops the compared
    tiers, the last vehicle and the offer. *)
Definition isNewPremiumReq (transcript : jsstring) (st : State) : bool :=
  isPremiumIntent transcript st
  && negb (bool_decide (is_Some (premium st)))
  && isNewPremiumRequest transcript.

Definition intentState (transcript : jsstring) (st : State) : State :=
  if isNewPremiumReq transcript st
  then {| premium := premium st; lastPremium := None;
          comparedLevels := ∅; pendingComparison := None |}
  else st.

(** The handler from [const inPremiumFlow = ...] on: the premium flow or
    the RAG flow. *)
Definition routeTurn (transcript : jsstring) (newVehicleReq : bool) : M TurnBody :=
  let* st1 := getState in
  let inPremiumFlow := bool_decide (is_Some (premium st1)) in
  let wantsPremium := isPremiumIntent transcript st1 in
  setState (intentState transcript st1) ;;;
  if inPremiumFlow || wantsPremium then
    let* st2 := getState in
    match premium st2 with
    | Some p => premiumFlow transcript p
    | None =>
        let p := freshDraft (lastPremium st2) newVehicleReq in
        setState (set_premium (Some p) st2) ;;;
        premiumFlow transcript p
    end
  else ragFlow transcript.

(** The state after the check [if (newVehicleReq) { ... }]. *)
Definition vehicleState (transcript : jsstring) (st : State) : State :=
  if wantsNewVehicle transcript then emptyState else st.

(** The body of the handler's [try], from the transcription on. *)
Definition turnBody (audio : Buffer) (filename : jsstring) : M TurnBody :=
  let* transcript := sttTranscribe audio filename in
  pushMessage (js "user") transcript ;;;
  let newVehicleReq := wantsNewVehicle transcript in
  let* st := getState in
  setState (vehicleState transcript st) ;;;
  let* st0 := getState in
  let* returned :=
    match pendingComparison st0 with
    | Some pc => comparisonBlock transcript pc
    | None => ret None
    end in
  match returned with
  | Some b => ret b
  | None => routeTurn transcript newVehicleReq
  end.

End Handler.

Section Server.
Context `{U : Unicode}.
Variable docs : list Doc.
Variable retrieveDocs : jsstring -> list Doc -> nat -> list Doc.

(** String(req.body.sessionId || "default") *)
Definition sessionKey (req : Request) : jsstring :=
  if truthy (body_sessionId req) then default [] (body_sessionId req) else js "default".

(** app.post("/turn"): the sessions after the request, and the response. *)
Definition turn (c : Collaborators) (req : Request) (sessions : gmap jsstring Session)
  : gmap jsstring Session * Response :=
  let sessionId := sessionKey req in
  let '(sessions1, sess) := getSession sessionId sessions in
  match file req with
  | None => (sessions1, Status400 (js "Missing audio file"))
  | Some (buffer, originalname) =>
      let filename := if truthy originalname then default [] originalname
                      else js "audio.webm" in
      let '(sess', r) := turnBody docs retrieveDocs c buffer filename sess in
      (<[sessionId := sess']> sessions1,
       match r with
       | inr b => Json b
       | inl e => Status500 e
       end)
  end.

(** app.post("/reset") *)
Definition reset (req : Request) (sessions : gmap jsstring Session)
  : gmap jsstring Session :=
  delete (sessionKey req) sessions.

End Server.

(** ** rag.js: the retriever

    The documents are those of the handler: loadDocs gives each the set of
    the tokens of its text, which is computed here from the text. *)

Module Rag.

Section Retriever.
Context `{U : Unicode}.
(** General_Category N beyond ASCII. *)
Variable isN_ext : N -> bool.

Definition isN (c : N) : bool := if is_ascii c then is_digit c else isN_ext c.

(** tokenize: lower-case, every character that is no letter, number or
    white space replaced by a space (a one-character class with the g flag
    replaces character by character), split at runs of white space, the
    empty fields dropped. *)
Definition tokenize (s : jsstring) : list jsstring :=
  filterBoolean
    (split_re no_flags re_spaces
       (map (fun c => if isL c || isN c || is_space c then c else 32) (toLowerCase s))).

(** new Set(tokens): the distinct tokens, in the order of insertion. *)
Definition setOf (tokens : list jsstring) : list jsstring :=
  fold_left (fun acc w => if bool_decide (w ∈ acc) then acc else acc ++ [w]) tokens [].

(** The tokenSet that loadDocs gives a document. *)
Definition tokenSetOf (d : Doc) : list jsstring := setOf (tokenize (doc_text d)).

(** The score of a document: the words of the query set that its token
    set has. *)
Definition scoreOf (q : list jsstring) (d : Doc) : nat :=
  length (filter (fun w => w ∈ tokenSetOf d) q).

(** Array.prototype.sort with the comparator b.score - a.score: a stable
    sort by descending score. *)
Fixpoint insertByScore (score : Doc -> nat) (x : Doc) (l : list Doc) : list Doc :=
  match l with
  | [] => [x]
  | y :: l' => if (score x <? score y)%nat then y :: insertByScore score x l' else x :: l
  end.

Definition sortByScore (score : Doc -> nat) (l : list Doc) : list Doc :=
  foldr (insertByScore score) [] l.

(** retrieveDocs(query, docs, k) *)
Definition retrieveDocs (query : jsstring) (docs : list Doc) (k : nat) : list Doc :=
  let q := setOf (tokenize query) in
  let scored := sortByScore (scoreOf q) docs in
  filter (fun d => (0 < scoreOf q d)%nat) (take k scored).

End Retriever.

End Rag.

(** ** The Unicode data of Slovenian text

    Exact for texts over Basic Latin and the letters č, š, ž, Č, Š, Ž
    together with punctuation and symbols outside the categories L and M:
    the three capitals lower to their small letters, the six are letters,
    nothing is a combining mark, and NFKC changes nothing. *)
Definition slovene_lower (c : N) : N :=
  if (c =? 268) || (c =? 352) || (c =? 381) then c + 1 else c.

Definition slovene_letter (c : N) : bool :=
  (c =? 268) || (c =? 269) || (c =? 352) || (c =? 353) || (c =? 381) || (c =? 382).

Definition Slovene : Unicode := {|
  lower_ext := fun c => [slovene_lower c];
  nfkc_ext := fun s => s;
  fold_ext := slovene_lower;
  isL_ext := slovene_letter;
  isM_ext := fun _ => false
|}.

(** * Properties *)

(** ** Strings *)

Lemma startsWith_spec (s p : jsstring) :
  startsWith s p = true <-> exists b, s = p ++ b.
Proof.
  revert s; induction p as [|a p IH]; intros s; simpl.
  - split; [intros _; now exists s | reflexivity].
  - destruct s as [|x s]; simpl.
    + split; [discriminate | intros [b Hb]; discriminate].
    + rewrite andb_true_iff, N.eqb_eq, IH. split.
      * intros [-> [b ->]]. now exists b.
      * intros [b Hb]. injection Hb as -> ->. split; [reflexivity | now exists b].
Qed.

Lemma includes_spec (s p : jsstring) :
  includes s p = true <-> exists a b, s = a ++ p ++ b.
Proof.
  induction s as [|x s IH]; simpl.
  - rewrite orb_false_r, startsWith_spec. split.
    + intros [b Hb]. now exists [], b.
    + intros (a & b & Hab). destruct a; [now exists b | discriminate].
  - rewrite orb_true_iff, startsWith_spec, IH. split.
    + intros [[b Hb] | (a & b & Hab)].
      * now exists [], b.
      * exists (x :: a), b. now rewrite Hab.
    + intros (a & b & Hab). destruct a as [|y a]; simpl in Hab.
      * left. now exists b.
      * right. injection Hab as -> ->. now exists a, b.
Qed.

Section StringFacts.
Context `{U : Unicode}.

Lemma toLowerCase_app (a b : jsstring) :
  toLowerCase (a ++ b) = toLowerCase a ++ toLowerCase b.
Proof. unfold toLowerCase. apply flat_map_app. Qed.

(** Lower-casing leaves a run of small ASCII letters as it is. *)
Lemma toLowerCase_small (p : jsstring) :
  forallb is_lower p = true -> toLowerCase p = p.
Proof.
  induction p as [|x p IH]; simpl; [reflexivity|].
  rewrite andb_true_iff. intros [Hx Hp].
  unfold toLowerCase in *. simpl. rewrite (IH Hp).
  unfold is_lower in Hx. apply andb_true_iff in Hx as [H1 H2].
  apply N.leb_le in H1, H2.
  assert (Ha : is_ascii x = true) by (apply N.ltb_lt; lia).
  assert (Hu : is_upper x = false).
  { unfold is_upper. apply andb_false_iff. right. apply N.leb_gt. lia. }
  unfold ascii_lower. now rewrite Ha, Hu.
Qed.

Lemma includes_toLowerCase (s p : jsstring) :
  forallb is_lower p = true ->
  includes s p = true -> includes (toLowerCase s) p = true.
Proof.
  intros Hp. rewrite !includes_spec. intros (a & b & ->).
  exists (toLowerCase a), (toLowerCase b).
  now rewrite !toLowerCase_app, (toLowerCase_small p Hp).
Qed.

End StringFacts.

(** ** Coverage tier keywords *)

Section CoverageFacts.
Context `{U : Unicode}.

(** C10: a text that contains both "polni" and "delni" is read as the full
    tier by normalizeCoverageLevel, and so by extractCoverageLevel whatever
    its wantsPremium flag: full coverage wins over the other keywords. *)
Theorem full_tier_wins (s : jsstring) :
  includes s (js "polni") = true ->
  includes s (js "delni") = true ->
  normalizeCoverageLevel s = Some (js "polni_kasko")
  /\ forall wantsPremium : bool,
       extractCoverageLevel s wantsPremium = Some (js "polni_kasko").
Proof.
  intros Hp _.
  assert (Hn : normalizeCoverageLevel s = Some (js "polni_kasko")).
  { unfold normalizeCoverageLevel.
    rewrite (includes_toLowerCase s (js "polni")); [reflexivity | reflexivity | exact Hp]. }
  split; [exact Hn|].
  intros wp. unfold extractCoverageLevel. now rewrite Hn.
Qed.

End CoverageFacts.

(** ** The premium calculator *)

(** The arguments calculate_premium refuses: an age that is not finite or
    is negative, a horsepower that is not finite or not positive, a tier
    that is null or empty. *)
Definition invalidArguments (age hp : float) (lvl : option jsstring) : Prop :=
  (is_finite age = false \/ (age <? 0)%float = true)
  \/ (is_finite hp = false \/ (hp <=? 0)%float = true)
  \/ (lvl = None \/ lvl = Some []).

Section PremiumFacts.
Context `{U : Unicode}.

(** C6: calculate_premium throws exactly on the refused arguments, and
    returns a quote on all others. *)
Theorem calculate_premium_validation (age hp : float) (city lvl : option jsstring) :
  ((exists e, calculate_premium age hp city lvl = inl e) <-> invalidArguments age hp lvl)
  /\ ((exists q, calculate_premium age hp city lvl = inr q) <-> ~ invalidArguments age hp lvl).
Proof.
  unfold calculate_premium, invalidArguments.
  destruct (is_finite age) eqn:Ha; simpl;
    [destruct (age <? 0)%float eqn:Ha0; simpl;
      [|destruct (is_finite hp) eqn:Hh; simpl;
         [destruct (hp <=? 0)%float eqn:Hh0; simpl;
           [|destruct lvl as [[|x l]|]; simpl]|]]|].
  all: split; split.
  all: try (intros [? ?]; discriminate).
  all: try (intros _; eexists; reflexivity).
  all: try (intros _; tauto).
  all: try (intros H; exfalso; apply H; tauto).
  all: try (intros [[?|?]|[[?|?]|[?|?]]]; discriminate).
  all: intros _ [[?|?]|[[?|?]|[?|?]]]; discriminate.
Qed.

End PremiumFacts.

(** ** Pending slots *)

(** The slots of a draft are asked for in the order age, horsepower, tier;
    no other slot, the city in particular, is ever the missing one. *)
Lemma missingSlot_priority (p : Draft) :
  (missingSlot p = Some (js "vehicleAge") <-> vehicleAge p = None)
  /\ (missingSlot p = Some (js "horsepower") <->
        vehicleAge p <> None /\ horsepower p = None)
  /\ (missingSlot p = Some (js "coverageLevel") <->
        vehicleAge p <> None /\ horsepower p <> None /\ truthy (coverageLevel p) = false)
  /\ (missingSlot p = None <->
        vehicleAge p <> None /\ horsepower p <> None /\ truthy (coverageLevel p) = true)
  /\ missingSlot p <> Some (js "city").
Proof.
  unfold missingSlot.
  destruct (vehicleAge p), (horsepower p), (truthy (coverageLevel p)); simpl.
  all: repeat split; try congruence; try discriminate.
  all: try (intros [? ?]; congruence); try (intros [? [? ?]]; congruence).
  all: intros H; vm_compute in H; discriminate.
Qed.

(** ** Monotonicity of the premium in the tier *)

(** The integers z, z+1, ..., z+n-1. *)
Fixpoint zrange (n : nat) (z : Z) : list Z :=
  match n with
  | O => []
  | S k => z :: zrange k (Z.succ z)
  end.

Lemma In_zrange (n : nat) (z x : Z) :
  (z <= x < z + Z.of_nat n)%Z -> In x (zrange n z).
Proof.
  revert z; induction n as [|n IH]; intros z Hx; simpl; [lia|].
  destruct (Z.eq_dec z x) as [->|Hne]; [now left|].
  right. apply IH. lia.
Qed.

Lemma forallb_zrange (P : Z -> bool) (n : nat) (z x : Z) :
  forallb P (zrange n z) = true -> (z <= x < z + Z.of_nat n)%Z -> P x = true.
Proof.
  intros H Hx. rewrite forallb_forall in H. apply H, In_zrange, Hx.
Qed.

(** Closes a range check: the boolean side by evaluation, the bound by
    arithmetic once the length of the range is a numeral of Z. *)
Ltac by_range :=
  lazymatch goal with
  | |- context [Z.of_nat ?n] =>
      let v := eval vm_compute in (Z.of_nat n) in
      change (Z.of_nat n) with v; lia
  | |- _ => vm_compute; reflexivity
  end.

(** The annual premiums of the three tiers, for given factors, increase. *)
Definition tiers_increase (af hf cf : float) : bool :=
  (annual_eur (quoteOf af hf cf 1.0) <? annual_eur (quoteOf af hf cf 1.28))%float
  && (annual_eur (quoteOf af hf cf 1.28) <? annual_eur (quoteOf af hf cf 1.55))%float.

Definition cityFactors : list float := [1.05; 1.03; 1.02; 1.01; 1.0]%float.

(** The ages and horsepowers the extractors can hand over and the
    calculator accepts. *)
Definition acceptedAge (a : Z) : bool :=
  is_finite (ZtoNumber a) && negb (ZtoNumber a <? 0)%float.
Definition acceptedHp (h : Z) : bool :=
  is_finite (ZtoNumber h) && negb (ZtoNumber h <=? 0)%float.

Lemma ages_accepted (a : Z) : (0 <= a <= 99)%Z -> acceptedAge a = true.
Proof.
  intros Ha. apply (forallb_zrange acceptedAge 100 0); by_range.
Qed.

Lemma hps_accepted (h : Z) : (1 <= h <= 9999)%Z -> acceptedHp h = true.
Proof.
  intros Hh. apply (forallb_zrange acceptedHp 9999 1); by_range.
Qed.

(** From 16 years on the age factor is clamped to its floor, from 150
    horsepower on the horsepower factor to its ceiling. *)
Lemma ageFactor_clamped (a : Z) :
  (16 <= a <= 99)%Z -> ageFactorOf (ZtoNumber a) = ageFactorOf (ZtoNumber 16).
Proof.
  intros Ha. apply FloatAxioms.Leibniz.eqb_spec.
  apply (forallb_zrange
           (fun a => PrimFloat.Leibniz.eqb (ageFactorOf (ZtoNumber a))
                       (ageFactorOf (ZtoNumber 16))) 84 16); by_range.
Qed.

Lemma hpFactor_clamped (h : Z) :
  (150 <= h <= 9999)%Z -> hpFactorOf (ZtoNumber h) = hpFactorOf (ZtoNumber 150).
Proof.
  intros Hh. apply FloatAxioms.Leibniz.eqb_spec.
  apply (forallb_zrange
           (fun h => PrimFloat.Leibniz.eqb (hpFactorOf (ZtoNumber h))
                       (hpFactorOf (ZtoNumber 150))) 9850 150); by_range.
Qed.

(** Below the clamps, every combination of factors is checked by running
    the calculator's arithmetic. *)
Lemma tiers_increase_unclamped (a h : Z) (cf : float) :
  (0 <= a <= 16)%Z -> (1 <= h <= 150)%Z -> In cf cityFactors ->
  tiers_increase (ageFactorOf (ZtoNumber a)) (hpFactorOf (ZtoNumber h)) cf = true.
Proof.
  intros Ha Hh Hcf.
  assert (H : forallb (fun a => forallb (fun h => forallb
                (tiers_increase (ageFactorOf (ZtoNumber a)) (hpFactorOf (ZtoNumber h)))
                cityFactors) (zrange 150 1)) (zrange 17 0) = true)
    by (vm_compute; reflexivity).
  apply (forallb_zrange _ 17 0 a) in H; [|lia].
  apply (forallb_zrange _ 150 1 h) in H; [|lia].
  rewrite forallb_forall in H. now apply H.
Qed.

Lemma tiers_increase_all (a h : Z) (cf : float) :
  (0 <= a <= 99)%Z -> (1 <= h <= 9999)%Z -> In cf cityFactors ->
  tiers_increase (ageFactorOf (ZtoNumber a)) (hpFactorOf (ZtoNumber h)) cf = true.
Proof.
  intros Ha Hh Hcf.
  destruct (Z_le_gt_dec a 16) as [Ha16|Ha16], (Z_le_gt_dec h 150) as [Hh150|Hh150].
  - apply tiers_increase_unclamped; [lia | lia | exact Hcf].
  - rewrite (hpFactor_clamped h) by lia. apply tiers_increase_unclamped; [lia | lia | exact Hcf].
  - rewrite (ageFactor_clamped a) by lia. apply tiers_increase_unclamped; [lia | lia | exact Hcf].
  - rewrite (ageFactor_clamped a), (hpFactor_clamped h) by lia.
    apply tiers_increase_unclamped; [lia | lia | exact Hcf].
Qed.

Lemma cityFactor_listed (k : jsstring) :
  In (default 1.0%float (obj_get cityFactorMap k)) cityFactors.
Proof.
  unfold cityFactorMap, obj_get, cityFactors.
  repeat match goal with
         | |- context [str_eqb ?a ?b] => destruct (str_eqb a b)
         end; simpl; tauto.
Qed.

Section Monotonicity.
Context `{U : Unicode}.

(** On accepted arguments the calculator returns the quote of the four
    factors. *)
Lemma calculate_premium_accepted (age hp : float) (city : option jsstring) (l : jsstring) :
  is_finite age = true -> (age <? 0)%float = false ->
  is_finite hp = true -> (hp <=? 0)%float = false ->
  l <> [] ->
  calculate_premium age hp city (Some l) =
  inr (quoteOf (ageFactorOf age) (hpFactorOf hp)
         (default 1.0%float
            (obj_get cityFactorMap
               (toLowerCase (if truthy city then default [] city else js "Other"))))
         (default 1.0%float (obj_get coverageFactorMap l))).
Proof.
  intros Ha1 Ha2 Hh1 Hh2 Hl. unfold calculate_premium.
  rewrite Ha1, Ha2, Hh1, Hh2.
  destruct l as [|x l]; [congruence|]. reflexivity.
Qed.

End Monotonicity.

(** ** The calculator at a key of Object.prototype *)

Lemma orOne_own (key : jsstring) :
  key ∉ inheritedNames ->
  orOne (table_get cityFactorMap key) = default 1.0%float (obj_get cityFactorMap key).
Proof.
  intros Hk. unfold table_get.
  destruct (obj_get cityFactorMap key) as [x|] eqn:E.
  - pose proof (cityFactor_listed key) as H. rewrite E in H.
    change (In x cityFactors) in H.
    repeat (destruct H as [<-|H]; [exact eq_refl|]). destruct H.
  - rewrite bool_decide_eq_false_2 by exact Hk. reflexivity.
Qed.

Lemma elseOne_own (key : jsstring) :
  key ∉ inheritedNames ->
  elseOne (table_get coverageFactorMap key)
  = default 1.0%float (obj_get coverageFactorMap key).
Proof.
  intros Hk. unfold table_get.
  destruct (obj_get coverageFactorMap key) as [x|]; [reflexivity|].
  rewrite bool_decide_eq_false_2 by exact Hk. reflexivity.
Qed.

Section AmountsFacts.
Context `{U : Unicode}.

(** On keys that Object.prototype does not hold, the amounts are those of
    [calculate_premium]. *)
Lemma amounts_agree (age hp : float) (city coverageLevel : option jsstring) :
  (forall c, city = Some c -> ~ In (toLowerCase c) inheritedNames) ->
  (forall l, coverageLevel = Some l -> ~ In l inheritedNames) ->
  calculate_premium_amounts age hp city coverageLevel
  = match calculate_premium age hp city coverageLevel with
    | inl e => inl e
    | inr q => inr (annual_eur q, monthly_eur q)
    end.
Proof.
  intros Hc Hl. unfold calculate_premium_amounts, calculate_premium. cbv zeta.
  destruct (negb (is_finite age) || (age <? 0)%float); [reflexivity|].
  destruct (negb (is_finite hp) || (hp <=? 0)%float); [reflexivity|].
  destruct (bool_decide _); [reflexivity|].
  rewrite orOne_own, elseOne_own; [reflexivity | |].
  - destruct coverageLevel as [l|]; cbn [truthy default].
    + destruct l as [|x l]; cbn [default].
      * intros H. apply list_elem_of_In in H. vm_compute in H. intuition discriminate.
      * intros H. apply list_elem_of_In in H. exact (Hl _ eq_refl H).
    + intros H. apply list_elem_of_In in H. vm_compute in H. intuition discriminate.
  - assert (Ho : toLowerCase (js "Other") ∉ inheritedNames).
    { intros H. apply list_elem_of_In in H. vm_compute in H. intuition discriminate. }
    destruct city as [c|]; cbn [truthy default]; [|exact Ho].
    destruct c as [|x c]; cbn [default]; [exact Ho|].
    intros H. apply list_elem_of_In in H. exact (Hc _ eq_refl H).
Qed.

End AmountsFacts.


(** ** The matcher *)

(** The character before the position reached after reading [ds]. *)
Definition before_after (b : option N) (ds : jsstring) : option N :=
  match last ds with
  | Some c => Some c
  | None => b
  end.

Lemma before_after_cons (b : option N) (c : N) (ds : jsstring) :
  before_after (Some c) ds = before_after b (c :: ds).
Proof.
  unfold before_after. destruct ds as [|d ds]; [reflexivity|].
  rewrite last_cons_cons. destruct (last (d :: ds)) eqn:E; [reflexivity|].
  now apply last_None in E.
Qed.

(** A step that reads one character of a class. *)
Definition char_step (P : N -> bool) (step : mstate -> list mstate) : Prop :=
  forall st,
    step st = match m_rest st with
              | c :: s => if P c then [advance c s st] else []
              | [] => []
              end.

Lemma rep_char_sound (P : N -> bool) (step : mstate -> list mstate) :
  char_step P step ->
  forall fuel lo hi st st',
    In st' (rep step fuel lo hi st) ->
    exists ds,
      m_rest st = ds ++ m_rest st'
      /\ forallb P ds = true
      /\ (lo <= length ds)%nat
      /\ (forall h, hi = Some h -> (length ds <= h)%nat)
      /\ m_caps st' = m_caps st
      /\ m_before st' = before_after (m_before st) ds.
Proof.
  intros Hstep. induction fuel as [|f IH]; intros lo hi st st' Hin; simpl in Hin.
  - destruct (Nat.eqb_spec lo 0) as [->|]; [|destruct Hin].
    destruct Hin as [<-|[]]. exists []. repeat split; auto; intros; simpl; lia.
  - apply in_app_or in Hin as [Hin|Hin].
    + assert (Hhi : hi <> Some O) by (intros ->; destruct Hin).
      assert (Hin' : In st' (flat_map (fun st1 =>
                 if (length (m_rest st1) <? length (m_rest st))%nat || negb (Nat.eqb lo 0)
                 then rep step f (Nat.pred lo) (Nat.pred <$> hi) st1 else []) (step st))).
      { destruct hi as [[|h]|]; [congruence | exact Hin | exact Hin]. }
      clear Hin. apply in_flat_map in Hin' as (st1 & H1 & H2).
      rewrite Hstep in H1. destruct (m_rest st) as [|c s] eqn:Hrest; [destruct H1|].
      destruct (P c) eqn:HP; [|destruct H1]. destruct H1 as [<-|[]].
      destruct (_ || _) in H2; [|destruct H2].
      apply IH in H2 as (ds & E1 & E2 & E3 & E4 & E5 & E6). simpl in *.
      exists (c :: ds). repeat split.
      * now rewrite E1.
      * simpl. now rewrite HP, E2.
      * simpl. lia.
      * intros h ->. simpl. destruct h as [|h]; [congruence|].
        specialize (E4 h eq_refl). lia.
      * exact E5.
      * rewrite E6. apply before_after_cons.
    + destruct (Nat.eqb_spec lo 0) as [->|]; [|destruct Hin].
      destruct Hin as [<-|[]]. exists []. repeat split; auto; intros; simpl; lia.
Qed.

Lemma rep_char_complete (P : N -> bool) (step : mstate -> list mstate) :
  char_step P step ->
  forall ds fuel lo hi st post,
    m_rest st = ds ++ post ->
    forallb P ds = true ->
    (lo <= length ds)%nat ->
    (forall h, hi = Some h -> (length ds <= h)%nat) ->
    (length ds <= fuel)%nat ->
    In {| m_before := before_after (m_before st) ds; m_rest := post;
          m_caps := m_caps st |}
       (rep step fuel lo hi st).
Proof.
  intros Hstep. induction ds as [|c ds IH]; intros fuel lo hi st post Hrest HP Hlo Hhi Hfuel.
  - simpl in *. assert (lo = O) as -> by lia.
    assert (Hst : {| m_before := before_after (m_before st) []; m_rest := post;
                     m_caps := m_caps st |} = st).
    { destruct st; simpl in *. now subst. }
    rewrite Hst. destruct fuel; simpl; [now left|].
    apply in_or_app. right. now left.
  - destruct fuel as [|f]; simpl in Hfuel; [lia|]. simpl in HP.
    apply andb_true_iff in HP as [HPc HPds]. simpl.
    apply in_or_app. left.
    assert (Hin : In {| m_before := before_after (m_before st) (c :: ds); m_rest := post;
                        m_caps := m_caps st |}
                    (flat_map (fun st1 =>
                       if (length (m_rest st1) <? length (m_rest st))%nat || negb (Nat.eqb lo 0)
                       then rep step f (Nat.pred lo) (Nat.pred <$> hi) st1 else []) (step st))).
    { rewrite Hstep, Hrest. simpl. rewrite HPc. simpl.
      rewrite app_nil_r.
      assert (Hlt : (length (ds ++ post) <? S (length (ds ++ post)))%nat = true).
      { apply Nat.ltb_lt. lia. }
      rewrite Hlt. simpl.
      rewrite <- before_after_cons.
      apply (IH f (Nat.pred lo) (Nat.pred <$> hi) (advance c (ds ++ post) st) post);
        simpl in *; auto; try lia.
      intros h Hh. destruct hi as [h0|]; [|discriminate]. simpl in Hh.
      injection Hh as <-. specialize (Hhi h0 eq_refl). lia. }
    destruct hi as [[|h]|]; [|exact Hin|exact Hin].
    specialize (Hhi O eq_refl). simpl in Hhi. lia.
Qed.

(** The prefix a group captures. *)
Lemma consumed_app (st st' : mstate) (ds : jsstring) :
  m_rest st = ds ++ m_rest st' -> consumed st st' = ds.
Proof.
  intros H. unfold consumed. rewrite H, length_app.
  replace (length ds + length (m_rest st') - length (m_rest st'))%nat with (length ds) by lia.
  apply take_app_length.
Qed.

(** The groups of a pattern. *)
Fixpoint groups (r : regex) : list nat :=
  match r with
  | RSeq a b | RAlt a b => groups a ++ groups b
  | RRep _ _ a => groups a
  | RGroup i a => i :: groups a
  | _ => []
  end.

Lemma rep_keeps_cap (i : nat) (step : mstate -> list mstate) :
  (forall st st', In st' (step st) -> cap i (m_caps st') = cap i (m_caps st)) ->
  forall fuel lo hi st st',
    In st' (rep step fuel lo hi st) -> cap i (m_caps st') = cap i (m_caps st).
Proof.
  intros Hstep. induction fuel as [|f IH]; intros lo hi st st' Hin; simpl in Hin.
  - destruct (Nat.eqb lo 0); [|destruct Hin]. now destruct Hin as [<-|[]].
  - apply in_app_or in Hin as [Hin|Hin].
    + assert (Hin' : In st' (flat_map (fun st1 =>
                 if (length (m_rest st1) <? length (m_rest st))%nat || negb (Nat.eqb lo 0)
                 then rep step f (Nat.pred lo) (Nat.pred <$> hi) st1 else []) (step st))).
      { destruct hi as [[|h]|]; [destruct Hin | exact Hin | exact Hin]. }
      apply in_flat_map in Hin' as (st1 & H1 & H2).
      destruct (_ || _) in H2; [|destruct H2].
      rewrite (IH _ _ _ _ H2). now apply Hstep.
    + destruct (Nat.eqb lo 0); [|destruct Hin]. now destruct Hin as [<-|[]].
Qed.

Section MatcherFacts.
Context `{U : Unicode}.
Variable fl : flags.

Lemma exec_set_char_step (neg : bool) (items : list citem) :
  char_step (set_matches fl neg items) (exec fl (RSet neg items)).
Proof. intros st. reflexivity. Qed.

(** A pattern leaves the groups it does not contain as they were. *)
Lemma exec_keeps_cap (i : nat) (r : regex) :
  ~ In i (groups r) ->
  forall st st', In st' (exec fl r st) -> cap i (m_caps st') = cap i (m_caps st).
Proof.
  induction r as [| p | neg items | a IHa b IHb | a IHa b IHb | lo hi a IHa | j a IHa | | |];
    intros Hi st st' Hin; simpl in Hin, Hi.
  - now destruct Hin as [<-|[]].
  - destruct (m_rest st); [destruct Hin|]. destruct (_ =? _); [|destruct Hin].
    now destruct Hin as [<-|[]].
  - destruct (m_rest st); [destruct Hin|]. destruct (set_matches _ _ _ _); [|destruct Hin].
    now destruct Hin as [<-|[]].
  - apply in_flat_map in Hin as (st1 & H1 & H2).
    rewrite (IHb ltac:(intros H; apply Hi, in_or_app; now right) _ _ H2).
    apply IHa; [intros H; apply Hi, in_or_app; now left | exact H1].
  - apply in_app_or in Hin as [Hin|Hin].
    + apply IHa; [intros H; apply Hi, in_or_app; now left | exact Hin].
    + apply IHb; [intros H; apply Hi, in_or_app; now right | exact Hin].
  - eapply rep_keeps_cap; [|exact Hin]. intros s1 s2. now apply IHa.
  - apply in_map_iff in Hin as (st1 & <- & H1). simpl.
    destruct (Nat.eqb_spec i j) as [->|Hne]; [exfalso; apply Hi; now left|].
    apply IHa; [intros H; apply Hi; now right | exact H1].
  - destruct (m_before st); [destruct Hin|]. now destruct Hin as [<-|[]].
  - destruct (m_rest st); [|destruct Hin]. now destruct Hin as [<-|[]].
  - destruct (xorb _ _); [|destruct Hin]. now destruct Hin as [<-|[]].
Qed.

(** What a group around a bounded run of one class yields. *)
Lemma exec_group_run (i lo hi : nat) (neg : bool) (items : list citem) (st st' : mstate) :
  In st' (exec fl (RGroup i (RRep lo (Some hi) (RSet neg items))) st) ->
  exists ds,
    m_rest st = ds ++ m_rest st'
    /\ forallb (set_matches fl neg items) ds = true
    /\ (lo <= length ds <= hi)%nat
    /\ cap i (m_caps st') = Some ds
    /\ m_before st' = before_after (m_before st) ds.
Proof.
  simpl. intros Hin. apply in_map_iff in Hin as (st1 & <- & H1).
  apply (rep_char_sound _ _ (exec_set_char_step neg items)) in H1
    as (ds & E1 & E2 & E3 & E4 & E5 & E6).
  exists ds. simpl.
  split; [exact E1|]. split; [exact E2|].
  split; [split; [exact E3 | now apply E4]|].
  split; [|exact E6].
  rewrite Nat.eqb_refl. f_equal. now apply consumed_app.
Qed.

Lemma exec_seq_inv (a b : regex) (st st' : mstate) :
  In st' (exec fl (RSeq a b) st) ->
  exists s1, In s1 (exec fl a st) /\ In st' (exec fl b s1).
Proof. simpl. intros H. apply in_flat_map in H. exact H. Qed.

(** A match found by the search is a match of the pattern somewhere. *)
Lemma search_sound (r : regex) (s : jsstring) :
  forall before pre_rev p st',
    search fl r before pre_rev s = Some (p, st') ->
    exists b s2, In st' (exec fl r {| m_before := b; m_rest := s2; m_caps := [] |}).
Proof.
  induction s as [|c s IH]; intros before pre_rev p st' H; simpl in H.
  - unfold match_here in H.
    destruct (exec fl r _) as [|x l] eqn:E; simpl in H; [discriminate|].
    injection H as _ <-. exists before, []. rewrite E. now left.
  - unfold match_here in H.
    destruct (exec fl r _) as [|x l] eqn:E; simpl in H.
    + now apply IH in H.
    + injection H as _ <-. exists before, (c :: s). rewrite E. now left.
Qed.

Lemma re_match_sound (r : regex) (s : jsstring) (m : list (nat * jsstring)) :
  re_match fl r s = Some m ->
  exists b s2 st',
    In st' (exec fl r {| m_before := b; m_rest := s2; m_caps := [] |}) /\ m = m_caps st'.
Proof.
  unfold re_match. destruct (search fl r None [] s) as [[p st']|] eqn:E; simpl; [|discriminate].
  intros H. injection H as <-. apply search_sound in E as (b & s2 & Hin).
  now exists b, s2, st'.
Qed.

End MatcherFacts.

(** ** Numbers written in digits *)

Lemma NumberOfDigits_snoc (ds : jsstring) (c : N) :
  NumberOfDigits (ds ++ [c]) = (10 * NumberOfDigits ds + (Z.of_N c - 48))%Z.
Proof. unfold NumberOfDigits. now rewrite fold_left_app. Qed.

Lemma NumberOfDigits_bound (ds : jsstring) :
  forallb is_digit ds = true ->
  (0 <= NumberOfDigits ds < 10 ^ Z.of_nat (length ds))%Z.
Proof.
  induction ds as [|c ds IH] using rev_ind; intros H.
  - simpl. unfold NumberOfDigits. simpl. lia.
  - rewrite forallb_app in H. apply andb_true_iff in H as [H1 H2].
    simpl in H2. rewrite andb_true_r in H2.
    unfold is_digit in H2. apply andb_true_iff in H2 as [Hlo Hhi].
    apply N.leb_le in Hlo, Hhi.
    specialize (IH H1). rewrite NumberOfDigits_snoc, length_app. simpl.
    replace (Z.of_nat (length ds + 1)) with (Z.succ (Z.of_nat (length ds))) by lia.
    rewrite Z.pow_succ_r by lia. lia.
Qed.

(** ** Ranges of the extractors *)

(** Group [i] holds between [lo] and [hi] decimal digits. *)
Definition digit_cap (i lo hi : nat) (st : mstate) : Prop :=
  exists ds, cap i (m_caps st) = Some ds
             /\ forallb is_digit ds = true
             /\ (lo <= length ds <= hi)%nat.

Section ExtractorFacts.
Context `{U : Unicode}.

Lemma forallb_digit_class (fl : flags) (ds : jsstring) :
  forallb (set_matches fl false [IDigit]) ds = true -> forallb is_digit ds = true.
Proof.
  induction ds as [|c ds IH]; simpl; [reflexivity|].
  rewrite !andb_true_iff. intros [Hc Hds]. split; [|now apply IH].
  unfold set_matches in Hc. simpl in Hc. now rewrite orb_false_r in Hc.
Qed.

Lemma digit_class_forallb (fl : flags) (ds : jsstring) :
  forallb is_digit ds = true -> forallb (set_matches fl false [IDigit]) ds = true.
Proof.
  induction ds as [|c ds IH]; simpl; [reflexivity|].
  rewrite !andb_true_iff. intros [Hc Hds]. split; [|now apply IH].
  unfold set_matches. simpl. now rewrite orb_false_r.
Qed.

Lemma exec_digit_group (fl : flags) (i lo hi : nat) (st st' : mstate) :
  In st' (exec fl (RGroup i (between lo hi r_d)) st) -> digit_cap i lo hi st'.
Proof.
  intros H. apply exec_group_run in H as (ds & _ & E2 & E3 & E4 & _).
  exists ds. split; [exact E4|]. split; [|exact E3].
  now apply forallb_digit_class in E2.
Qed.

Lemma digit_cap_kept (fl : flags) (i lo hi : nat) (r : regex) (st st' : mstate) :
  ~ In i (groups r) -> digit_cap i lo hi st -> In st' (exec fl r st) ->
  digit_cap i lo hi st'.
Proof.
  intros Hi (ds & E & H) Hin. exists ds. split; [|exact H].
  now rewrite (exec_keeps_cap fl i r Hi st st' Hin).
Qed.

(** The four unit patterns capture their digits in group 1. *)
Lemma re_age_unit_cap (st st' : mstate) :
  In st' (exec no_flags re_age_unit st) -> digit_cap 1 1 2 st'.
Proof.
  unfold re_age_unit. cbn [seq_of]. intros H.
  apply exec_seq_inv in H as (s1 & _ & H).
  apply exec_seq_inv in H as (s2 & H2 & H).
  apply exec_digit_group in H2.
  eapply digit_cap_kept; [|exact H2|exact H].
  vm_compute. intros [E|[]]. discriminate.
Qed.

Lemma re_hp_unit_cap (st st' : mstate) :
  In st' (exec no_flags re_hp_unit st) -> digit_cap 1 2 4 st'.
Proof.
  unfold re_hp_unit. cbn [seq_of]. intros H.
  apply exec_seq_inv in H as (s1 & _ & H).
  apply exec_seq_inv in H as (s2 & H2 & H).
  apply exec_digit_group in H2.
  eapply digit_cap_kept; [|exact H2|exact H].
  vm_compute. intros [E|[]]. discriminate.
Qed.

Lemma re_star_cap (st st' : mstate) :
  In st' (exec no_flags re_star st) -> digit_cap 1 1 2 st'.
Proof.
  unfold re_star. cbn [seq_of]. intros H.
  apply exec_seq_inv in H as (s1 & _ & H).
  apply exec_seq_inv in H as (s2 & _ & H).
  apply exec_seq_inv in H as (s3 & _ & H).
  now apply exec_digit_group in H.
Qed.

Lemma re_moc_cap (st st' : mstate) :
  In st' (exec no_flags re_moc st) -> digit_cap 1 2 4 st'.
Proof.
  unfold re_moc. cbn [seq_of]. intros H.
  apply exec_seq_inv in H as (s1 & _ & H).
  apply exec_seq_inv in H as (s2 & _ & H).
  apply exec_seq_inv in H as (s3 & _ & H).
  now apply exec_digit_group in H.
Qed.

(** The number read from a captured run of at most [hi] digits. *)
Lemma captured_number_bound (r : regex) (lo hi : nat) (t : jsstring)
    (m : list (nat * jsstring)) :
  (forall st st', In st' (exec no_flags r st) -> digit_cap 1 lo hi st') ->
  re_match no_flags r t = Some m ->
  (0 <= NumberOfDigits (default [] (cap 1 m)) < 10 ^ Z.of_nat hi)%Z.
Proof.
  intros Hr Hm. apply re_match_sound in Hm as (b & s2 & st' & Hin & ->).
  apply Hr in Hin as (ds & -> & Hd & Hlen). simpl.
  pose proof (NumberOfDigits_bound ds Hd) as [H0 H1]. split; [exact H0|].
  eapply Z.lt_le_trans; [exact H1|]. apply Z.pow_le_mono_r; lia.
Qed.


End ExtractorFacts.

(** ** Digit literals *)

Definition nonword (o : option N) : Prop :=
  match o with
  | Some c => is_word c = false
  | None => True
  end.

(** [ds] is a run of one to four digits standing alone between [pre] and
    [post]: no word character touches it on either side. *)
Definition standalone_run (pre ds post : jsstring) : Prop :=
  (1 <= length ds <= 4)%nat
  /\ forallb is_digit ds = true
  /\ nonword (last pre)
  /\ nonword (head post).

Lemma is_digit_word (c : N) : is_digit c = true -> is_word c = true.
Proof. unfold is_word. intros ->. now rewrite !orb_true_r. Qed.

Lemma at_word_no_flags (o : option N) :
  at_word no_flags o = false <-> nonword o.
Proof.
  destruct o as [c|]; simpl; [|tauto].
  unfold word_char. simpl. now rewrite orb_false_r.
Qed.

Lemma at_word_Some (c : N) : at_word no_flags (Some c) = is_word c.
Proof. simpl. unfold word_char. simpl. now rewrite orb_false_r. Qed.

Lemma before_after_None (pre : jsstring) : before_after None pre = last pre.
Proof. unfold before_after. now destruct (last pre). Qed.

(** Two runs of digits that start at the same place and are both followed
    by a non-word character (or the end) are the same run. *)
Lemma digit_run_unique (ds ds' post post' : jsstring) :
  forallb is_digit ds = true -> forallb is_digit ds' = true ->
  nonword (head post) -> nonword (head post') ->
  ds ++ post = ds' ++ post' -> ds = ds'.
Proof.
  revert ds'. induction ds as [|c ds IH]; intros [|c' ds'] Hd Hd' Hp Hp' E; simpl in *.
  - reflexivity.
  - subst post. simpl in Hp. apply andb_true_iff in Hd' as [Hc _].
    apply is_digit_word in Hc. congruence.
  - subst post'. simpl in Hp'. apply andb_true_iff in Hd as [Hc _].
    apply is_digit_word in Hc. congruence.
  - injection E as -> E. apply andb_true_iff in Hd as [_ Hd].
    apply andb_true_iff in Hd' as [_ Hd']. f_equal. now apply (IH ds').
Qed.

Section DigitFacts.
Context `{U : Unicode}.

(** The search settles on the leftmost position at which the pattern
    matches. *)
Lemma search_leftmost (fl : flags) (r : regex) (s : jsstring) :
  forall b pr p st',
    search fl r b pr s = Some (p, st') ->
    exists s1 s2,
      s = s1 ++ s2 /\ p = rev pr ++ s1
      /\ match_here fl (before_after b s1) s2 r = Some st'
      /\ forall s1' s2', s = s1' ++ s2' -> (length s1' < length s1)%nat ->
           match_here fl (before_after b s1') s2' r = None.
Proof.
  induction s as [|c s IH]; intros b pr p st' H; simpl in H.
  - destruct (match_here fl b [] r) as [x|] eqn:E; [|discriminate].
    injection H as <- <-. exists [], []. repeat split.
    + now rewrite app_nil_r.
    + exact E.
    + intros s1' s2' _ Hlen. simpl in Hlen. lia.
  - destruct (match_here fl b (c :: s) r) as [x|] eqn:E.
    + injection H as <- <-. exists [], (c :: s). repeat split.
      * now rewrite app_nil_r.
      * exact E.
      * intros s1' s2' _ Hlen. simpl in Hlen. lia.
    + apply IH in H as (s1 & s2 & -> & -> & Hm & Hleft).
      exists (c :: s1), s2. repeat split.
      * simpl. now rewrite <- app_assoc.
      * now rewrite <- before_after_cons.
      * intros [|c' s1'] s2' Hs Hlen; simpl in Hs.
        { subst s2'. exact E. }
        injection Hs as -> Hs. rewrite <- before_after_cons.
        apply Hleft; [exact Hs | simpl in Hlen; lia].
Qed.

Lemma search_finds (fl : flags) (r : regex) (s : jsstring) :
  forall b pr s1 s2,
    s = s1 ++ s2 -> match_here fl (before_after b s1) s2 r <> None ->
    search fl r b pr s <> None.
Proof.
  induction s as [|c s IH]; intros b pr s1 s2 Hs Hm; simpl.
  - destruct s1; [|discriminate]. simpl in Hs. subst s2.
    change (before_after b []) with b in Hm.
    destruct (match_here fl b [] r); [discriminate | congruence].
  - destruct (match_here fl b (c :: s) r) eqn:E; [discriminate|].
    destruct s1 as [|c' s1]; simpl in Hs.
    + subst s2. change (before_after b []) with b in Hm. congruence.
    + injection Hs as -> Hs. rewrite <- before_after_cons in Hm.
      now apply (IH (Some c') (c' :: pr) s1 s2).
Qed.

Lemma exec_wordb_inv (fl : flags) (st st' : mstate) :
  In st' (exec fl RWordB st) ->
  st' = st /\ xorb (at_word fl (m_before st)) (at_word fl (head (m_rest st))) = true.
Proof.
  simpl. destruct (xorb _ _); [|intros []]. intros [<-|[]]. now split.
Qed.

(** A match of /\b(\d{1,4})\b/ at a position is a standalone run there,
    held by group 1. *)
Lemma re_digits_sound (b : option N) (s : jsstring) (st' : mstate) :
  In st' (exec no_flags re_digits {| m_before := b; m_rest := s; m_caps := [] |}) ->
  exists ds post,
    s = ds ++ post
    /\ (1 <= length ds <= 4)%nat
    /\ forallb is_digit ds = true
    /\ nonword b /\ nonword (head post)
    /\ cap 1 (m_caps st') = Some ds.
Proof.
  unfold re_digits. cbn [seq_of]. intros H.
  apply exec_seq_inv in H as (s1 & H1 & H).
  apply exec_seq_inv in H as (s2 & H2 & H3).
  apply exec_wordb_inv in H1 as [-> Hb1]. simpl in Hb1.
  apply exec_group_run in H2 as (ds & E1 & E2 & E3 & E4 & E5). simpl in E1, E5.
  apply forallb_digit_class in E2.
  apply exec_wordb_inv in H3 as [-> Hb2].
  exists ds, (m_rest s2). split; [exact E1|]. split; [exact E3|]. split; [exact E2|].
  destruct ds as [|d ds]; [simpl in E3; lia|].
  assert (Hd : is_digit d = true) by (simpl in E2; now apply andb_true_iff in E2 as [? _]).
  split; [|split; [|exact E4]].
  - rewrite E1 in Hb1. change (head ((d :: ds) ++ m_rest s2)) with (Some d) in Hb1.
    rewrite at_word_Some, (is_digit_word d Hd) in Hb1.
    apply at_word_no_flags. now destruct (at_word no_flags b).
  - rewrite E5 in Hb2. unfold before_after in Hb2.
    destruct (last (d :: ds)) as [l|] eqn:El; [|now apply last_None in El].
    assert (Hl : is_digit l = true).
    { apply last_Some in El as [l' El]. rewrite El, forallb_app in E2.
      apply andb_true_iff in E2 as [_ E2]. simpl in E2. now rewrite andb_true_r in E2. }
    rewrite at_word_Some, (is_digit_word l Hl) in Hb2.
    apply at_word_no_flags. now destruct (at_word no_flags (head (m_rest s2))).
Qed.

(** At a standalone run the pattern matches. *)
Lemma re_digits_complete (b : option N) (ds post : jsstring) :
  (1 <= length ds <= 4)%nat -> forallb is_digit ds = true ->
  nonword b -> nonword (head post) ->
  match_here no_flags b (ds ++ post) re_digits <> None.
Proof.
  intros Hlen Hd Hb Hp.
  set (st0 := {| m_before := b; m_rest := ds ++ post; m_caps := [] |}).
  set (st1 := {| m_before := before_after b ds; m_rest := post; m_caps := [] |}).
  assert (Hin : In (set_cap 1 st0 st1) (exec no_flags re_digits st0)).
  { unfold re_digits. cbn [seq_of].
    destruct ds as [|d ds]; [simpl in Hlen; lia|].
    assert (Hdw : is_word d = true)
      by (simpl in Hd; apply andb_true_iff in Hd as [? _]; now apply is_digit_word).
    change (exec no_flags (RSeq RWordB ?r) st0)
      with (flat_map (exec no_flags r) (exec no_flags RWordB st0)).
    apply in_flat_map. exists st0. split.
    { cbn [exec m_before m_rest st0].
      change (head ((d :: ds) ++ post)) with (Some d).
      rewrite at_word_Some, Hdw.
      apply at_word_no_flags in Hb. rewrite Hb. now left. }
    change (exec no_flags (RSeq ?g RWordB) st0)
      with (flat_map (exec no_flags RWordB) (exec no_flags g st0)).
    apply in_flat_map. exists (set_cap 1 st0 st1). split.
    { change (exec no_flags (RGroup 1 ?a) st0)
        with (map (set_cap 1 st0) (exec no_flags a st0)).
      apply in_map.
      change (exec no_flags (between 1 4 r_d) st0)
        with (rep (exec no_flags (RSet false [IDigit]))
                (1 + S (length (m_rest st0))) 1 (Some 4%nat) st0).
      apply (rep_char_complete _ _ (exec_set_char_step no_flags false [IDigit])
               (d :: ds) _ 1%nat (Some 4%nat) st0 post).
      - reflexivity.
      - now apply digit_class_forallb.
      - simpl; lia.
      - intros h Hh. injection Hh as <-. exact (proj2 Hlen).
      - cbn [m_rest st0]. rewrite length_app. lia. }
    cbn [exec set_cap m_before m_rest st1]. unfold before_after.
    destruct (last (d :: ds)) as [l|] eqn:El; [|now apply last_None in El].
    assert (Hl : is_word l = true).
    { apply last_Some in El as [l' El]. rewrite El, forallb_app in Hd.
      apply andb_true_iff in Hd as [_ Hd]. simpl in Hd. rewrite andb_true_r in Hd.
      now apply is_digit_word. }
    rewrite at_word_Some, Hl.
    apply at_word_no_flags in Hp. rewrite Hp. now left. }
  unfold match_here. fold st0. destruct (exec no_flags re_digits st0); [destruct Hin | discriminate].
Qed.

(** C4: when the normalized phrase contains a standalone run of one to
    four digits, parseSlNumberRobust returns the value of that run (the
    leftmost one, if there are several), whatever number words the phrase
    holds. *)
Theorem digits_take_precedence (text pre ds post : jsstring) :
  cleanTextForNumber text = pre ++ ds ++ post ->
  standalone_run pre ds post ->
  (forall pre' ds' post',
      cleanTextForNumber text = pre' ++ ds' ++ post' ->
      standalone_run pre' ds' post' -> (length pre <= length pre')%nat) ->
  parseSlNumberRobust text = Some (NumberOfDigits ds).
Proof.
  intros Ht (Hlen & Hd & Hpre & Hpost) Hleft.
  unfold parseSlNumberRobust, re_match.
  set (t := cleanTextForNumber text) in *.
  assert (Hhere : match_here no_flags (before_after None pre) (ds ++ post) re_digits <> None).
  { apply re_digits_complete; auto. now rewrite before_after_None. }
  destruct (search no_flags re_digits None [] t) as [[p st']|] eqn:Es.
  2:{ exfalso. now apply (search_finds no_flags re_digits t None [] pre (ds ++ post)). }
  apply search_leftmost in Es as (s1 & s2 & Hs & _ & Hm & Hmin).
  unfold match_here in Hm.
  destruct (exec no_flags re_digits _) as [|x l] eqn:Ee; [discriminate|].
  simpl in Hm. injection Hm as ->.
  assert (Hin : In st' (exec no_flags re_digits
                          {| m_before := before_after None s1; m_rest := s2; m_caps := [] |}))
    by (rewrite Ee; now left).
  apply re_digits_sound in Hin as (ds' & post' & -> & Hlen' & Hd' & Hb' & Hp' & Hcap).
  rewrite before_after_None in Hb'.
  assert (Hge : (length pre <= length s1)%nat).
  { apply (Hleft s1 ds' post' Hs). now repeat split. }
  assert (Hle : (length s1 <= length pre)%nat).
  { destruct (Nat.le_gt_cases (length s1) (length pre)) as [?|Hgt]; [assumption|].
    exfalso. apply Hhere. apply Hmin; [exact Ht | exact Hgt]. }
  assert (Hsame : s1 = pre /\ ds' ++ post' = ds ++ post).
  { rewrite Ht in Hs. apply app_inj_1 in Hs as [-> ->]; [now split | lia]. }
  destruct Hsame as [-> Happ].
  assert (ds' = ds) as -> by exact (digit_run_unique ds' ds post' post Hd' Hd Hp' Hpost Happ).
  change (m_caps ∘ snd <$> Some (p, st')) with (Some (m_caps st')).
  cbv beta iota. now rewrite Hcap.
Qed.

End DigitFacts.

(** ** Number words below one hundred *)

(** The canonical word forms: the ones, the teens, the tens, and the
    compound of a ones word, "in" and a tens word. *)
Definition onesWords : list jsstring :=
  [js "nič"; js "ena"; js "dva"; js "tri"; js "štiri"; js "pet"; js "šest";
   js "sedem"; js "osem"; js "devet"].

Definition teensWords : list jsstring :=
  [js "deset"; js "enajst"; js "dvanajst"; js "trinajst"; js "štirinajst";
   js "petnajst"; js "šestnajst"; js "sedemnajst"; js "osemnajst"; js "devetnajst"].

Definition tensWords : list jsstring :=
  [js "dvajset"; js "trideset"; js "štirideset"; js "petdeset"; js "šestdeset";
   js "sedemdeset"; js "osemdeset"; js "devetdeset"].

Definition wordForm (n : nat) : jsstring :=
  if (n <? 10)%nat then nth n onesWords []
  else if (n <? 20)%nat then nth (n - 10) teensWords []
  else
    let t := nth (n / 10 - 2) tensWords [] in
    if (n mod 10 =? 0)%nat then t
    else nth (n mod 10) onesWords [] ++ js "in" ++ t.

(** The spellings the parser's tables list for a value. *)
Definition keys_of (tbl : list (jsstring * Z)) (v : Z) : list jsstring :=
  map fst (List.filter (fun kv => (snd kv =? v)%Z) tbl).

(** All documented spellings of a number below one hundred: every table
    spelling of a one, a teen or a ten, and every compound of a spelling
    of the ones digit, "in" and a spelling of the ten. *)
Definition spellings (n : nat) : list jsstring :=
  let z := Z.of_nat n in
  if (n <? 10)%nat then keys_of ones z
  else if (n <? 20)%nat then keys_of teens z
  else
    let ts := keys_of tens (10 * (z / 10))%Z in
    if (n mod 10 =? 0)%nat then ts
    else flat_map (fun o => map (fun t => o ++ js "in" ++ t) ts) (keys_of ones (z mod 10)%Z).

(** The check the round trip is settled by: the parser, run on the
    canonical form of [n] and on each of its spellings, returns [n]. *)
Definition round_trips (n : nat) : bool :=
  bool_decide (parseSlNumberRobust (U := Slovene) (wordForm n) = Some (Z.of_nat n))
  && forallb
       (fun w => bool_decide (parseSlNumberRobust (U := Slovene) w = Some (Z.of_nat n)))
       (spellings n).

Lemma round_trips_below_100 : forallb round_trips (seq 0 100) = true.
Proof. vm_compute. reflexivity. Qed.

(** The canonical form is one of the documented spellings. *)
Lemma wordForm_is_spelling (n : nat) : (n < 100)%nat -> In (wordForm n) (spellings n).
Proof.
  intros Hn.
  assert (H : forallb (fun n => existsb (fun w => str_eqb w (wordForm n)) (spellings n))
                (seq 0 100) = true) by (vm_compute; reflexivity).
  rewrite forallb_forall in H. specialize (H n).
  rewrite existsb_exists in H. destruct H as (w & Hw & Heq).
  - apply in_seq. lia.
  - unfold str_eqb in Heq. apply bool_decide_eq_true in Heq. now subst.
Qed.

(** C3: for every n from 0 to 99, parseSlNumberRobust returns n on the
    canonical Slovenian word form of n (a ones word, a teens word, a tens
    word, or the compound of a ones word, "in" and a tens word, as in
    "enaindvajset"), and on every spelling variant of it that the parser's
    tables document. *)
Theorem number_words_round_trip (n : nat) :
  (n < 100)%nat ->
  parseSlNumberRobust (U := Slovene) (wordForm n) = Some (Z.of_nat n)
  /\ forall w, In w (spellings n) ->
       parseSlNumberRobust (U := Slovene) w = Some (Z.of_nat n).
Proof.
  intros Hn. pose proof round_trips_below_100 as H.
  rewrite forallb_forall in H. specialize (H n).
  assert (Hin : In n (seq 0 100)) by (apply in_seq; lia).
  apply H in Hin. unfold round_trips in Hin.
  apply andb_true_iff in Hin as [H1 H2]. split.
  - now apply bool_decide_eq_true in H1.
  - intros w Hw. rewrite forallb_forall in H2.
    specialize (H2 w Hw). now apply bool_decide_eq_true in H2.
Qed.

(** ** The turn handler *)

(** Unfolds the operations of the turn monad in a hypothesis or the goal. *)
Ltac run_monad :=
  cbv beta iota zeta delta
    [bind ret await getState setState pushMessage getMessages
     assistantSays respondWithTTS ttsSpeak sttTranscribe llmReply].
Ltac run_monad_in H :=
  cbv beta iota zeta delta
    [bind ret await getState setState pushMessage getMessages
     assistantSays respondWithTTS ttsSpeak sttTranscribe llmReply] in H.

(** Splits the goal on what a run branches on: the outcome of a synthesis,
    or any scrutinee that does not depend on one. *)
Ltac case_step :=
  match goal with
  | |- context [match tts ?c ?x with _ => _ end] => destruct (tts c x)
  | |- context [match ?x with _ => _ end] =>
      lazymatch x with
      | context [tts] => fail
      | _ => destruct x
      end
  end.

Definition questionExtra (p : Draft) : Extra :=
  {| x_premium := Some p; x_premiumResult := None; x_ragDocs := None |}.
Definition quoteExtra (q : Quote) : Extra :=
  {| x_premium := None; x_premiumResult := Some q; x_ragDocs := None |}.

Section HandlerFacts.
Context `{U : Unicode}.
Variable docs : list Doc.
Variable retrieveDocs : jsstring -> list Doc -> nat -> list Doc.

Lemma premiumFlow_cases (c : Collaborators) (t : jsstring) (p : Draft)
    (s s' : Session) (r : Error + TurnBody) :
  premiumFlow c t p s = (s', r) ->
  let p1 := fillSlots t p in
  let p2 := defaultCity p1 in
  (exists slot,
      missingSlot p1 = Some slot
      /\ state s' = set_premium (Some (set_pendingSlot (Some slot) p1)) (state s)
      /\ forall b, r = inr b -> extra b = questionExtra (set_pendingSlot (Some slot) p1))
  \/ (missingSlot p1 = None
      /\ state s' = set_premium (Some p2) (state s)
      /\ exists e, r = inl e)
  \/ (missingSlot p1 = None
      /\ state s' = quotedState p2 (state s)
      /\ exists q,
           calculate_premium (ZtoNumber (default 0%Z (vehicleAge p2)))
             (ZtoNumber (default 0%Z (horsepower p2))) (city p2) (coverageLevel p2) = inr q
           /\ forall b, r = inr b -> extra b = quoteExtra q).
Proof.
  intros H p1 p2. unfold premiumFlow in H. fold p1 in H. fold p2 in H.
  destruct (missingSlot p1) as [slot|] eqn:Em.
  - left. exists slot. run_monad_in H.
    split; [reflexivity|].
    destruct (tts c (questionText slot)) as [e|mp3]; injection H as <- <-.
    + split; [reflexivity | discriminate].
    + split; [reflexivity|]. intros b Hb. now injection Hb as <-.
  - right. run_monad_in H.
    destruct (calculate_premium _ _ _ _) as [e|q] eqn:Ec.
    + left. injection H as <- <-.
      split; [reflexivity|]. split; [reflexivity | now exists e].
    + right. cbv beta iota in H. split; [reflexivity|].
      destruct (tts c _) as [e|mp3]; injection H as <- <-.
      * split; [reflexivity|]. exists q. split; [reflexivity | discriminate].
      * split; [reflexivity|]. exists q. split; [reflexivity|].
        intros b Hb. now injection Hb as <-.
Qed.

(** A reply made by [assistantSays]: the assistant's entry is pushed, then
    the synthesis returns the body or throws. *)
Lemma assistantSays_cases (c : Collaborators) (t txt : jsstring) (x : Extra)
    (s s' : Session) (r : Error + TurnBody) :
  assistantSays c t txt x s = (s', r) ->
  state s' = state s
  /\ messages s' = messages s ++ [ {| role := js "assistant"; content := txt |} ]
  /\ ((exists e, tts c txt = inl e /\ r = inl e)
      \/ (exists mp3, tts c txt = inr mp3
                      /\ r = inr {| transcript := t; replyText := txt;
                                    replyAudio := mp3; extra := x |})).
Proof.
  intros H. run_monad_in H.
  destruct (tts c txt) as [e|mp3] eqn:Et; injection H as <- <-.
  - split; [reflexivity|]. split; [reflexivity|]. left. now exists e.
  - split; [reflexivity|]. split; [reflexivity|]. right. now exists mp3.
Qed.

(** The replies of the comparison block carry no extra field and leave
    comparedLevels alone; falling through, the offer is gone, and the draft
    of a chosen tier may be open. *)
Lemma comparisonBlock_cases (c : Collaborators) (t : jsstring) (pc : PendingComparison)
    (s s' : Session) (r : Error + option TurnBody) :
  comparisonBlock c t pc s = (s', r) ->
  (r <> inr None
   /\ (state s' = state s \/ state s' = set_pendingComparison None (state s))
   /\ forall b, r = inr (Some b) -> extra b = noExtra /\ transcript b = t)
  \/ (r = inr None
      /\ messages s' = messages s
      /\ (state s' = set_pendingComparison None (state s)
          \/ exists lvl,
               lvl ∈ options pc
               /\ state s' = set_premium (Some (comparisonDraft (lastPremium (state s)) lvl))
                               (set_pendingComparison None (state s)))).
Proof.
  intros H. unfold comparisonBlock in H.
  assert (Hsay : forall txt s0 s1 (r1 : Error + option TurnBody),
             (let* b := assistantSays c t txt noExtra in ret (Some b)) s0 = (s1, r1) ->
             r1 <> inr None /\ state s1 = state s0
             /\ forall b, r1 = inr (Some b) -> extra b = noExtra /\ transcript b = t).
  { intros txt s0 s1 r1 H1. run_monad_in H1.
    destruct (tts c txt) as [e|mp3]; injection H1 as <- <-.
    - repeat split; discriminate.
    - split; [discriminate|]. split; [reflexivity|].
      intros b Hb. injection Hb as <-. now split. }
  destruct (_ && _) eqn:E1 in H.
  { left. apply Hsay in H as (H1 & H2 & H3). split; [exact H1|]. split; [now left | exact H3]. }
  destruct (_ && _) eqn:E2 in H.
  { right. run_monad_in H. injection H as <- <-.
    split; [reflexivity|]. split; [reflexivity|]. now left. }
  destruct (negb _) eqn:E3 in H.
  { left. unfold bind at 1 in H. unfold getState at 1 in H.
    unfold bind at 1 in H. unfold setState at 1 in H.
    apply Hsay in H as (H1 & H2 & H3). split; [exact H1|]. split; [now right | exact H3]. }
  destruct (_ && _) eqn:E4 in H.
  { right. run_monad_in H. injection H as <- <-.
    split; [reflexivity|]. split; [reflexivity|]. right.
    apply andb_true_iff in E4 as [_ E4]. apply bool_decide_eq_true in E4.
    eexists. split; [exact E4 | reflexivity]. }
  destruct (isNegative t) eqn:E5.
  { left. unfold bind at 1 in H. unfold getState at 1 in H.
    unfold bind at 1 in H. unfold setState at 1 in H.
    apply Hsay in H as (H1 & H2 & H3). split; [exact H1|]. split; [now right | exact H3]. }
  destruct (isAffirmative t) eqn:E6.
  - destruct (options pc) as [|chosen [|x l]] eqn:Eo.
    + left. apply Hsay in H as (H1 & H2 & H3). split; [exact H1|]. split; [now left | exact H3].
    + right. run_monad_in H. injection H as <- <-.
      split; [reflexivity|]. split; [reflexivity|]. right.
      exists chosen. split; [apply list_elem_of_singleton; reflexivity | reflexivity].
    + left. apply Hsay in H as (H1 & H2 & H3). split; [exact H1|]. split; [now left | exact H3].
  - left. apply Hsay in H as (H1 & H2 & H3). split; [exact H1|]. split; [now left | exact H3].
Qed.

Definition ragExtra (ids : list jsstring) : Extra :=
  {| x_premium := None; x_premiumResult := None; x_ragDocs := Some ids |}.

(** The RAG flow leaves the state alone; its reply carries the documents. *)
Lemma ragFlow_cases (c : Collaborators) (t : jsstring) (s s' : Session)
    (r : Error + TurnBody) :
  ragFlow docs retrieveDocs c t s = (s', r) ->
  state s' = state s
  /\ forall b, r = inr b -> exists ids, extra b = ragExtra ids.
Proof.
  intros H. unfold ragFlow in H. run_monad_in H.
  destruct (llm c _) as [e|out]; [injection H as <- <-; split; [reflexivity | discriminate]|].
  cbv beta iota in H.
  destruct (tts c _) as [e|mp3]; injection H as <- <-.
  - split; [reflexivity | discriminate].
  - split; [reflexivity|]. intros b Hb. injection Hb as <-. eexists. reflexivity.
Qed.

Lemma set_premium_same (st : State) (p : Draft) :
  premium st = Some p -> set_premium (Some p) st = st.
Proof. destruct st. simpl. now intros ->. Qed.

(** What [premiumFlow_cases] says of a run of the premium flow on the
    draft [p] from the state [st]. *)
Definition premiumOutcome (t : jsstring) (p : Draft) (st st' : State)
    (r : Error + TurnBody) : Prop :=
  let p1 := fillSlots t p in
  let p2 := defaultCity p1 in
  (exists slot,
      missingSlot p1 = Some slot
      /\ st' = set_premium (Some (set_pendingSlot (Some slot) p1)) st
      /\ forall b, r = inr b -> extra b = questionExtra (set_pendingSlot (Some slot) p1))
  \/ (missingSlot p1 = None
      /\ st' = set_premium (Some p2) st
      /\ exists e, r = inl e)
  \/ (missingSlot p1 = None
      /\ st' = quotedState p2 st
      /\ exists q,
           calculate_premium (ZtoNumber (default 0%Z (vehicleAge p2)))
             (ZtoNumber (default 0%Z (horsepower p2))) (city p2) (coverageLevel p2) = inr q
           /\ forall b, r = inr b -> extra b = quoteExtra q).

(** The two routes of a turn that got past the comparison block. *)
Definition routeOutcome (t : jsstring) (newVehicleReq : bool) (st st' : State)
    (r : Error + TurnBody) : Prop :=
  let st2 := intentState t st in
  (exists p,
      (premium st2 = Some p
       \/ premium st2 = None /\ p = freshDraft (lastPremium st2) newVehicleReq)
      /\ premiumOutcome t p (set_premium (Some p) st2) st' r)
  \/ (st' = st2 /\ forall b, r = inr b -> exists ids, extra b = ragExtra ids).

Lemma routeTurn_cases (c : Collaborators) (t : jsstring) (nv : bool) (s s' : Session)
    (r : Error + TurnBody) :
  routeTurn docs retrieveDocs c t nv s = (s', r) ->
  routeOutcome t nv (state s) (state s') r.
Proof.
  intros H. unfold routeTurn in H.
  unfold bind at 1 in H. unfold getState at 1 in H.
  unfold bind at 1 in H. unfold setState at 1 in H.
  unfold routeOutcome. set (st2 := intentState t (state s)) in *.
  destruct (_ || _) in H.
  - left. unfold bind at 1 in H. unfold getState at 1 in H. cbn [state] in H.
    destruct (premium st2) as [p|] eqn:Ep.
    + exists p. split; [now left|].
      apply premiumFlow_cases in H. cbn [state] in H.
      rewrite (set_premium_same st2 p Ep). exact H.
    + exists (freshDraft (lastPremium st2) nv). split; [now right|].
      unfold bind at 1 in H. unfold setState at 1 in H.
      apply premiumFlow_cases in H. exact H.
  - right. apply ragFlow_cases in H as [H1 H2]. split; [exact H1 | exact H2].
Qed.

(** Every body a route returns carries the turn's transcript. *)
Lemma routeTurn_transcript (c : Collaborators) (t : jsstring) (nv : bool) (s s' : Session)
    (b : TurnBody) :
  routeTurn docs retrieveDocs c t nv s = (s', inr b) -> transcript b = t.
Proof.
  intros H. unfold routeTurn, premiumFlow, ragFlow in H. run_monad_in H.
  repeat match type of H with
         | context [if ?x then _ else _] => destruct x
         | context [match ?x with _ => _ end] => destruct x
         end;
    try discriminate; injection H as _ <-; reflexivity.
Qed.

(** The outcome of a turn whose transcription gave [t], from the state
    [st]: a reply of the comparison block, or one of the two routes. *)
Definition turnOutcome (t : jsstring) (st st' : State) (r : Error + TurnBody) : Prop :=
  let st0 := vehicleState t st in
  (exists pc,
      pendingComparison st0 = Some pc
      /\ (st' = st0 \/ st' = set_pendingComparison None st0)
      /\ forall b, r = inr b -> extra b = noExtra)
  \/ (exists st1,
        (pendingComparison st0 = None /\ st1 = st0
         \/ exists pc,
              pendingComparison st0 = Some pc
              /\ (st1 = set_pendingComparison None st0
                  \/ exists lvl,
                       lvl ∈ options pc
                       /\ st1 = set_premium (Some (comparisonDraft (lastPremium st0) lvl))
                                  (set_pendingComparison None st0)))
        /\ routeOutcome t (wantsNewVehicle t) st1 st' r).

Lemma turnBody_cases (c : Collaborators) (audio : Buffer) (filename : jsstring)
    (s s' : Session) (r : Error + TurnBody) :
  turnBody docs retrieveDocs c audio filename s = (s', r) ->
  (exists e, stt c audio filename = inl e /\ s' = s /\ r = inl e)
  \/ (exists text,
        stt c audio filename = inr text
        /\ (forall b, r = inr b -> transcript b = trim text)
        /\ turnOutcome (trim text) (state s) (state s') r).
Proof.
  intros H. unfold turnBody in H.
  unfold bind at 1 in H. unfold sttTranscribe in H. run_monad_in H.
  destruct (stt c audio filename) as [e|text] eqn:Es.
  { left. exists e. injection H as <- <-. now repeat split. }
  right. exists text. split; [reflexivity|]. cbv beta iota in H. cbn [state messages] in H.
  set (t := trim text) in *. set (st0 := vehicleState t (state s)) in *.
  unfold turnOutcome. fold st0.
  destruct (pendingComparison st0) as [pc|] eqn:Epc.
  - destruct (comparisonBlock c t pc _) as [s1 r1] eqn:Ec.
    apply comparisonBlock_cases in Ec as [(Hr & Hst & Hx) | (-> & Hm & Hst)]; cbn [state] in Hst.
    + destruct r1 as [e|[b|]]; [| |congruence].
      * injection H as <- <-. split; [discriminate|]. left. exists pc.
        split; [reflexivity|]. split; [exact Hst | discriminate].
      * injection H as <- <-. split.
        { intros b' Hb. injection Hb as <-. now apply (Hx b). }
        left. exists pc. split; [reflexivity|]. split; [exact Hst|].
        intros b' Hb. injection Hb as <-. now apply (Hx b).
    + pose proof (routeTurn_cases _ _ _ _ _ _ H) as Hroute. split.
      { intros b ->. now apply routeTurn_transcript in H. }
      right. exists (state s1). split; [|exact Hroute].
      right. exists pc. split; [reflexivity | exact Hst].
  - pose proof (routeTurn_cases _ _ _ _ _ _ H) as Hroute. split.
    { intros b ->. now apply routeTurn_transcript in H. }
    right. exists st0. split; [now left | exact Hroute].
Qed.

(** *** The fields that accompany a reply *)

(** How many of premium, premiumResult and ragDocs a reply carries. *)
Definition fieldCount (x : Extra) : nat :=
  (match x_premium x with Some _ => 1 | None => 0 end)
  + (match x_premiumResult x with Some _ => 1 | None => 0 end)
  + (match x_ragDocs x with Some _ => 1 | None => 0 end).

(** The session a request is served from. *)
Definition sessionOf (req : Request) (sessions : gmap jsstring Session) : Session :=
  snd (getSession (sessionKey req) sessions).

(** *** Compared tiers and comparison offers *)











(** The sessions the server can hold: none at the start, then whatever
    turns and resets leave. *)
Inductive reachable : gmap jsstring Session -> Prop :=
| reachable_start : reachable ∅
| reachable_turn (c : Collaborators) (req : Request) (sessions : gmap jsstring Session) :
    reachable sessions -> reachable (fst (turn docs retrieveDocs c req sessions))
| reachable_reset (req : Request) (sessions : gmap jsstring Session) :
    reachable sessions -> reachable (reset req sessions).


Lemma getSession_lookup (k : jsstring) (sessions : gmap jsstring Session) :
  fst (getSession k sessions) !! k = Some (snd (getSession k sessions))
  /\ forall k' sess, fst (getSession k sessions) !! k' = Some sess ->
       sessions !! k' = Some sess \/ sess = newSession.
Proof.
  unfold getSession. destruct (sessions !! k) as [s0|] eqn:E; cbn [fst snd].
  - split; [exact E|]. intros k' sess H. now left.
  - split; [apply lookup_insert_eq|]. intros k' sess H.
    destruct (decide (k = k')) as [->|Hne].
    + rewrite lookup_insert_eq in H. right. congruence.
    + rewrite lookup_insert_ne in H by exact Hne. now left.
Qed.

(** The session of the request's key after a turn, and what became of the
    others. *)
Lemma turn_sessions (c : Collaborators) (req : Request)
    (sessions sessions' : gmap jsstring Session) (resp : Response) :
  turn docs retrieveDocs c req sessions = (sessions', resp) ->
  (forall k sess, k <> sessionKey req -> sessions' !! k = Some sess ->
     sessions !! k = Some sess \/ sess = newSession)
  /\ ((resp = Status400 (js "Missing audio file")
       /\ sessions' !! sessionKey req = Some (sessionOf req sessions))
      \/ exists audio name sess' r,
           file req = Some (audio, name)
           /\ turnBody docs retrieveDocs c audio
                (if truthy name then default [] name else js "audio.webm")
                (sessionOf req sessions) = (sess', r)
           /\ sessions' !! sessionKey req = Some sess'
           /\ resp = match r with inr b => Json b | inl e => Status500 e end).
Proof.
  unfold turn, sessionOf. intros H.
  pose proof (getSession_lookup (sessionKey req) sessions) as [Hk Hother].
  destruct (getSession (sessionKey req) sessions) as [ss1 sess] eqn:Eg. cbn [fst snd] in *.
  destruct (file req) as [[audio name]|].
  - destruct (turnBody _ _ _ _ _ _) as [sess' r] eqn:Et. injection H as <- <-. split.
    + intros k s0 Hne Hl. rewrite lookup_insert_ne in Hl by congruence. now apply Hother in Hl.
    + right. exists audio, name, sess', r. split; [reflexivity|]. split; [exact Et|].
      split; [apply lookup_insert_eq | reflexivity].
  - injection H as <- <-. split.
    + intros k s0 _ Hl. now apply Hother in Hl.
    + left. now split.
Qed.









(** *** What a failed collaborator leaves behind *)

(** Finishes a goal that compares two runs once their branch is fixed:
    only the outcomes of the synthesis remain to be told apart. *)
Ltac same_session :=
  run_monad;
  repeat match goal with
         | |- context [match tts ?c ?x with _ => _ end] => destruct (tts c x)
         end;
  cbv beta iota;
  first [ reflexivity
        | split; [reflexivity | split; intros ?; (discriminate || reflexivity)] ].

Lemma comparisonBlock_tts (c c' : Collaborators) (t : jsstring) (pc : PendingComparison)
    (s : Session) :
  fst (comparisonBlock c t pc s) = fst (comparisonBlock c' t pc s)
  /\ (snd (comparisonBlock c t pc s) = inr None
      <-> snd (comparisonBlock c' t pc s) = inr None).
Proof.
  unfold comparisonBlock.
  destruct (_ && _); [same_session|].
  destruct (_ && _); [same_session|].
  destruct (negb _); [same_session|].
  destruct (_ && _); [same_session|].
  destruct (isNegative t); [same_session|].
  destruct (isAffirmative t); [|same_session].
  destruct (options pc) as [|chosen [|x l]]; same_session.
Qed.

Lemma premiumFlow_tts (c c' : Collaborators) (t : jsstring) (p : Draft) (s : Session) :
  fst (premiumFlow c t p s) = fst (premiumFlow c' t p s).
Proof.
  unfold premiumFlow.
  destruct (missingSlot _); [same_session|].
  run_monad. destruct (calculate_premium _ _ _ _); [reflexivity|]. same_session.
Qed.

Lemma ragFlow_tts (c c' : Collaborators) (t : jsstring) (s : Session) :
  llm c = llm c' ->
  fst (ragFlow docs retrieveDocs c t s) = fst (ragFlow docs retrieveDocs c' t s).
Proof.
  intros Hllm. unfold ragFlow. run_monad. rewrite Hllm.
  destruct (llm c' _); [reflexivity|]. same_session.
Qed.

Lemma routeTurn_tts (c c' : Collaborators) (t : jsstring) (nv : bool) (s : Session) :
  llm c = llm c' ->
  fst (routeTurn docs retrieveDocs c t nv s) = fst (routeTurn docs retrieveDocs c' t nv s).
Proof.
  intros Hllm. unfold routeTurn. run_monad.
  destruct (_ || _); [|now apply ragFlow_tts].
  destruct (premium _); apply premiumFlow_tts.
Qed.

Lemma turnBody_tts (c c' : Collaborators) (audio : Buffer) (filename : jsstring)
    (s : Session) :
  stt c = stt c' -> llm c = llm c' ->
  fst (turnBody docs retrieveDocs c audio filename s)
  = fst (turnBody docs retrieveDocs c' audio filename s).
Proof.
  intros Hstt Hllm. unfold turnBody. run_monad. rewrite Hstt.
  destruct (stt c' audio filename) as [e|text]; [reflexivity|].
  cbv beta iota. cbn [state messages].
  destruct (pendingComparison _) as [pc|]; [|apply routeTurn_tts, Hllm].
  match goal with
  | |- context [comparisonBlock c ?t ?pc ?s0] =>
      pose proof (comparisonBlock_tts c c' t pc s0) as [Hs Hr];
      destruct (comparisonBlock c t pc s0) as [s1 r1];
      destruct (comparisonBlock c' t pc s0) as [s1' r1']
  end.
  cbn [fst snd] in Hs, Hr. subst s1'.
  destruct r1 as [e|[b|]], r1' as [e'|[b'|]]; try reflexivity;
    try (exfalso; destruct Hr as [H1 H2]; (specialize (H1 eq_refl) || specialize (H2 eq_refl));
         discriminate).
  apply routeTurn_tts, Hllm.
Qed.

(** C2 (as the code has it): the handler commits as it goes and rolls
    nothing back. The session a turn leaves does not depend on whether the
    speech synthesis succeeds or throws, so after a failed synthesis the
    user entry, the slot updates and the assistant entry of the turn are
    all in the session; only a turn whose transcription throws leaves the
    session as it was. *)
Theorem failed_turn_keeps_writes :
  (forall c c' req sessions,
      stt c = stt c' -> llm c = llm c' ->
      fst (turn docs retrieveDocs c req sessions)
      = fst (turn docs retrieveDocs c' req sessions))
  /\ (forall c req sessions audio name e,
        file req = Some (audio, name) ->
        stt c audio (if truthy name then default [] name else js "audio.webm") = inl e ->
        turn docs retrieveDocs c req sessions
        = (fst (getSession (sessionKey req) sessions), Status500 e)
        /\ fst (getSession (sessionKey req) sessions) !! sessionKey req
           = Some (sessionOf req sessions)).
Proof.
  split.
  - intros c c' req ss Hstt Hllm. unfold turn.
    destruct (getSession (sessionKey req) ss) as [ss1 sess].
    destruct (file req) as [[audio name]|]; [|reflexivity].
    pose proof (turnBody_tts c c' audio
                  (if truthy name then default [] name else js "audio.webm") sess Hstt Hllm) as H.
    destruct (turnBody docs retrieveDocs c _ _ _) as [s1 r1].
    destruct (turnBody docs retrieveDocs c' _ _ _) as [s1' r1'].
    cbn [fst] in *. now subst.
  - intros c req ss audio name e Hf Hs.
    pose proof (getSession_lookup (sessionKey req) ss) as [Hk _].
    split; [|exact Hk].
    unfold turn. unfold sessionOf in Hk.
    destruct (getSession (sessionKey req) ss) as [ss1 sess]. cbn [fst snd] in *.
    rewrite Hf. set (fname := if truthy name then _ else _) in *.
    unfold turnBody. run_monad. rewrite Hs.
    now rewrite (insert_id ss1 _ _ Hk).
Qed.

End HandlerFacts.

(** * Further properties of the code *)

(** ** premium.js: the quote over the whole range of vehicles *)

Definition tierNames : list jsstring := [js "osnovno"; js "delni_kasko"; js "polni_kasko"].

Lemma tierNames_nonempty (l : jsstring) : In l tierNames -> l <> [].
Proof. intros [<-|[<-|[<-|[]]]]; discriminate. Qed.

Definition coverageFactors : list float := [1.0; 1.28; 1.55]%float.

Lemma coverageFactor_listed (l : jsstring) :
  In (default 1.0%float (obj_get coverageFactorMap l)) coverageFactors.
Proof.
  unfold coverageFactorMap, obj_get, coverageFactors.
  repeat match goal with
         | |- context [str_eqb ?a ?b] => destruct (str_eqb a b)
         end; simpl; tauto.
Qed.

(** The integer a number between 1 and 2^53 holds, read off its mantissa. *)
Definition wholePart (x : float) : Z :=
  let '(m, e) := frshiftexp x in
  Uint63.to_Z (Uint63.lsr (normfr_mantissa m) (Uint63.sub 2154 e)).

(** The annual premium for given factors, and its integer. *)
Definition annualOf (af hf cf cov : float) : float := annual_eur (quoteOf af hf cf cov).
Definition annualZ (af hf cf cov : float) : Z := wholePart (annualOf af hf cf cov).

(** A quote is well formed: whole euros within the bounds of the tariff,
    and twelve monthly payments within six euros of the annual premium. *)
Definition wellFormedQuote (q : Quote) : bool :=
  (147 <=? annual_eur q)%float && (annual_eur q <=? 630)%float
  && PrimFloat.Leibniz.eqb (Math_floor (annual_eur q)) (annual_eur q)
  && (12 <=? monthly_eur q)%float && (monthly_eur q <=? 53)%float
  && PrimFloat.Leibniz.eqb (Math_floor (monthly_eur q)) (monthly_eur q)
  && (abs (12 * monthly_eur q - annual_eur q) <=? 6)%float.

(** What is checked of the factors [af], [hf] of a vehicle and the factors
    [af'], [hf'] of the vehicle one year older, or one horsepower stronger. *)
Definition grid_ok (af af' hf hf' cf cov : float) : bool :=
  let z := annualZ af hf cf cov in
  let m := wholePart (monthly_eur (quoteOf af hf cf cov)) in
  wellFormedQuote (quoteOf af hf cf cov)
  && PrimFloat.Leibniz.eqb (annualOf af hf cf cov) (ZtoNumber z)
  && (147 <=? z)%Z && (z <=? 630)%Z
  && (annualZ af' hf cf cov <=? z)%Z
  && (z <=? annualZ af hf' cf cov)%Z
  && PrimFloat.Leibniz.eqb (monthly_eur (quoteOf af hf cf cov)) (ZtoNumber m)
  && (12 <=? m)%Z && (m <=? 53)%Z.

Definition AF (a : Z) : float := ageFactorOf (ZtoNumber a).
Definition HF (h : Z) : float := hpFactorOf (ZtoNumber h).

Lemma grid_unclamped (a h : Z) (cf cov : float) :
  (0 <= a <= 16)%Z -> (1 <= h <= 150)%Z -> In cf cityFactors -> In cov coverageFactors ->
  grid_ok (AF a) (AF (a + 1)) (HF h) (HF (h + 1)) cf cov = true.
Proof.
  intros Ha Hh Hcf Hcov.
  assert (H : forallb (fun a => forallb (fun h => forallb (fun cf => forallb
                (grid_ok (AF a) (AF (a + 1)) (HF h) (HF (h + 1)) cf)
                coverageFactors) cityFactors) (zrange 150 1)) (zrange 17 0) = true)
    by (vm_compute; reflexivity).
  apply (forallb_zrange _ 17 0 a) in H; [|lia].
  apply (forallb_zrange _ 150 1 h) in H; [|lia].
  rewrite forallb_forall in H. specialize (H cf Hcf).
  rewrite forallb_forall in H. now apply H.
Qed.

Lemma AF_clamp (a : Z) :
  (0 <= a <= 98)%Z ->
  AF a = AF (Z.min a 16) /\ AF (a + 1) = AF (Z.min a 16 + 1).
Proof.
  intros Ha. unfold AF. destruct (Z_le_gt_dec a 15%Z) as [H|H].
  - rewrite Z.min_l by lia. split; reflexivity.
  - rewrite Z.min_r by lia.
    rewrite (ageFactor_clamped a), (ageFactor_clamped (a + 1)), (ageFactor_clamped (16 + 1))
      by lia.
    split; reflexivity.
Qed.

Lemma HF_clamp (h : Z) :
  (1 <= h <= 9998)%Z ->
  HF h = HF (Z.min h 150) /\ HF (h + 1) = HF (Z.min h 150 + 1).
Proof.
  intros Hh. unfold HF. destruct (Z_le_gt_dec h 149%Z) as [H|H].
  - rewrite Z.min_l by lia. split; reflexivity.
  - rewrite Z.min_r by lia.
    rewrite (hpFactor_clamped h), (hpFactor_clamped (h + 1)), (hpFactor_clamped (150 + 1))
      by lia.
    split; reflexivity.
Qed.

Lemma grid_all (a h : Z) (cf cov : float) :
  (0 <= a <= 98)%Z -> (1 <= h <= 9998)%Z -> In cf cityFactors -> In cov coverageFactors ->
  grid_ok (AF a) (AF (a + 1)) (HF h) (HF (h + 1)) cf cov = true.
Proof.
  intros Ha Hh Hcf Hcov.
  destruct (AF_clamp a Ha) as [-> ->]. destruct (HF_clamp h Hh) as [-> ->].
  apply grid_unclamped; [lia | lia | exact Hcf | exact Hcov].
Qed.

(** The last age and the last horsepower have the factors of their
    predecessors. *)
Lemma AF_last : AF 99 = AF 98.
Proof. unfold AF. now rewrite (ageFactor_clamped 99), (ageFactor_clamped 98) by lia. Qed.

Lemma HF_last : HF 9999 = HF 9998.
Proof. unfold HF. now rewrite (hpFactor_clamped 9999), (hpFactor_clamped 9998) by lia. Qed.

Lemma grid_parts (af af' hf hf' cf cov : float) :
  grid_ok af af' hf hf' cf cov = true ->
  wellFormedQuote (quoteOf af hf cf cov) = true
  /\ annualOf af hf cf cov = ZtoNumber (annualZ af hf cf cov)
  /\ (147 <= annualZ af hf cf cov)%Z /\ (annualZ af hf cf cov <= 630)%Z
  /\ (annualZ af' hf cf cov <= annualZ af hf cf cov)%Z
  /\ (annualZ af hf cf cov <= annualZ af hf' cf cov)%Z
  /\ monthly_eur (quoteOf af hf cf cov)
     = ZtoNumber (wholePart (monthly_eur (quoteOf af hf cf cov)))
  /\ (12 <= wholePart (monthly_eur (quoteOf af hf cf cov)))%Z
  /\ (wholePart (monthly_eur (quoteOf af hf cf cov)) <= 53)%Z.
Proof.
  unfold grid_ok. cbv zeta. rewrite !andb_true_iff, !Z.leb_le.
  intros ((((((((W & E1) & L1) & L2) & M1) & M2) & E2) & L3) & L4).
  apply FloatAxioms.Leibniz.eqb_spec in E1, E2. now repeat split.
Qed.

Lemma wellFormedQuote_parts (q : Quote) :
  wellFormedQuote q = true ->
  (147 <=? annual_eur q)%float = true /\ (annual_eur q <=? 630)%float = true
  /\ Math_floor (annual_eur q) = annual_eur q
  /\ (12 <=? monthly_eur q)%float = true /\ (monthly_eur q <=? 53)%float = true
  /\ Math_floor (monthly_eur q) = monthly_eur q
  /\ (abs (12 * monthly_eur q - annual_eur q) <=? 6)%float = true.
Proof.
  unfold wellFormedQuote. rewrite !andb_true_iff.
  intros ((((((B1 & B2) & I1) & B3) & B4) & I2) & D).
  apply FloatAxioms.Leibniz.eqb_spec in I1, I2. now repeat split.
Qed.

Lemma quote_checked (a h : Z) (cf cov : float) :
  (0 <= a <= 99)%Z -> (1 <= h <= 9999)%Z -> In cf cityFactors -> In cov coverageFactors ->
  wellFormedQuote (quoteOf (AF a) (HF h) cf cov) = true
  /\ annualOf (AF a) (HF h) cf cov = ZtoNumber (annualZ (AF a) (HF h) cf cov)
  /\ (147 <= annualZ (AF a) (HF h) cf cov <= 630)%Z
  /\ exists m, monthly_eur (quoteOf (AF a) (HF h) cf cov) = ZtoNumber m /\ (12 <= m <= 53)%Z.
Proof.
  intros Ha Hh Hcf Hcov.
  assert (E : exists a' h', (0 <= a' <= 98)%Z /\ (1 <= h' <= 9998)%Z
                            /\ AF a = AF a' /\ HF h = HF h').
  { exists (Z.min a 98), (Z.min h 9998). split; [lia|]. split; [lia|]. split.
    - destruct (Z.eq_dec a 99%Z) as [->|]; [exact AF_last | now rewrite Z.min_l by lia].
    - destruct (Z.eq_dec h 9999%Z) as [->|]; [exact HF_last | now rewrite Z.min_l by lia]. }
  destruct E as (a' & h' & Ha' & Hh' & -> & ->).
  pose proof (grid_all a' h' cf cov Ha' Hh' Hcf Hcov) as H.
  destruct (grid_parts _ _ _ _ _ _ H) as (W & E1 & L1 & L2 & _ & _ & E2 & L3 & L4).
  split; [exact W|]. split; [exact E1|]. split; [lia|].
  eexists. split; [exact E2 | lia].
Qed.

Lemma annualZ_older (a a' h : Z) (cf cov : float) :
  (0 <= a <= a')%Z -> (a' <= 99)%Z -> (1 <= h <= 9999)%Z ->
  In cf cityFactors -> In cov coverageFactors ->
  (annualZ (AF a') (HF h) cf cov <= annualZ (AF a) (HF h) cf cov)%Z.
Proof.
  intros Ha Ha' Hh Hcf Hcov.
  assert (Hn : exists n : nat, a' = (a + Z.of_nat n)%Z) by (exists (Z.to_nat (a' - a)); lia).
  destruct Hn as [n ->]. induction n as [|n IH]; [rewrite Z.add_0_r; lia|].
  etransitivity; [|apply IH; lia].
  replace (a + Z.of_nat (S n))%Z with ((a + Z.of_nat n) + 1)%Z by lia.
  assert (E : exists h', (1 <= h' <= 9998)%Z /\ HF h = HF h').
  { exists (Z.min h 9998). split; [lia|].
    destruct (Z.eq_dec h 9999%Z) as [->|]; [exact HF_last | now rewrite Z.min_l by lia]. }
  destruct E as (h' & Hh' & ->).
  pose proof (grid_all (a + Z.of_nat n) h' cf cov ltac:(lia) Hh' Hcf Hcov) as H.
  now destruct (grid_parts _ _ _ _ _ _ H) as (_ & _ & _ & _ & M1 & _).
Qed.

Lemma annualZ_stronger (a h h' : Z) (cf cov : float) :
  (0 <= a <= 99)%Z -> (1 <= h <= h')%Z -> (h' <= 9999)%Z ->
  In cf cityFactors -> In cov coverageFactors ->
  (annualZ (AF a) (HF h) cf cov <= annualZ (AF a) (HF h') cf cov)%Z.
Proof.
  intros Ha Hh Hh' Hcf Hcov.
  assert (Hn : exists n : nat, h' = (h + Z.of_nat n)%Z) by (exists (Z.to_nat (h' - h)); lia).
  destruct Hn as [n ->]. induction n as [|n IH]; [rewrite Z.add_0_r; lia|].
  etransitivity; [apply IH; lia|].
  replace (h + Z.of_nat (S n))%Z with ((h + Z.of_nat n) + 1)%Z by lia.
  assert (E : exists a', (0 <= a' <= 98)%Z /\ AF a = AF a').
  { exists (Z.min a 98). split; [lia|].
    destruct (Z.eq_dec a 99%Z) as [->|]; [exact AF_last | now rewrite Z.min_l by lia]. }
  destruct E as (a' & Ha' & ->).
  pose proof (grid_all a' (h + Z.of_nat n) cf cov Ha' ltac:(lia) Hcf Hcov) as H.
  now destruct (grid_parts _ _ _ _ _ _ H) as (_ & _ & _ & _ & _ & M2 & _).
Qed.

(** On the whole euros of the tariff the order of numbers is the order of
    integers. *)
Definition leb_agrees (n m : Z) : bool :=
  Bool.eqb (ZtoNumber n <=? ZtoNumber m)%float (n <=? m)%Z.

Lemma leb_of_Z (n m : Z) :
  (147 <= n <= 630)%Z -> (147 <= m <= 630)%Z -> (n <= m)%Z ->
  (ZtoNumber n <=? ZtoNumber m)%float = true.
Proof.
  intros Hn Hm Hnm.
  assert (H : forallb (fun n => forallb (leb_agrees n) (zrange 484 147)) (zrange 484 147)
              = true) by (vm_compute; reflexivity).
  apply (forallb_zrange _ 484 147 n) in H; [|lia].
  apply (forallb_zrange _ 484 147 m) in H; [|lia].
  unfold leb_agrees in H. apply Bool.eqb_prop in H. rewrite H. now apply Z.leb_le.
Qed.

(** String(x) of the whole euros of the tariff is the decimal numeral. *)
Definition prints_as_integer (n : Z) : bool :=
  bool_decide (roundedToString (ZtoNumber n) = ZtoString n).

Lemma amount_prints (n : Z) :
  (12 <= n <= 630)%Z -> roundedToString (ZtoNumber n) = ZtoString n.
Proof.
  intros Hn.
  assert (H : forallb prints_as_integer (zrange 619 12) = true) by (vm_compute; reflexivity).
  apply (forallb_zrange _ 619 12 n) in H; [|lia].
  unfold prints_as_integer in H. now apply bool_decide_eq_true in H.
Qed.

Section QuoteFacts.
Context `{U : Unicode}.

(** The key under which the city is looked up is an own key of the table,
    or of no object at all. *)
Definition ownCityKey (city : option jsstring) : Prop :=
  forall c, city = Some c -> ~ In (toLowerCase c) inheritedNames.

Lemma calculate_premium_factors (age hp : Z) (city : option jsstring) (lvl : jsstring) :
  (0 <= age <= 99)%Z -> (1 <= hp <= 9999)%Z -> lvl <> [] ->
  exists cf cov, In cf cityFactors /\ In cov coverageFactors
    /\ (forall a h, (0 <= a <= 99)%Z -> (1 <= h <= 9999)%Z ->
          calculate_premium (ZtoNumber a) (ZtoNumber h) city (Some lvl)
          = inr (quoteOf (AF a) (HF h) cf cov)).
Proof.
  intros _ _ Hl.
  exists (default 1.0%float
            (obj_get cityFactorMap
               (toLowerCase (if truthy city then default [] city else js "Other")))),
         (default 1.0%float (obj_get coverageFactorMap lvl)).
  split; [apply cityFactor_listed|]. split; [apply coverageFactor_listed|].
  intros a h Ha Hh.
  pose proof (ages_accepted a Ha) as Va. pose proof (hps_accepted h Hh) as Vh.
  unfold acceptedAge in Va. unfold acceptedHp in Vh.
  apply andb_true_iff in Va as [Va1 Va2]. apply andb_true_iff in Vh as [Vh1 Vh2].
  apply negb_true_iff in Va2, Vh2.
  now rewrite calculate_premium_accepted by assumption.
Qed.

(** X1: for every age in 0..99, every horsepower in 1..9999, every city
    (whose name is no property name of Object.prototype) and each of the
    three tiers, calculate_premium returns a quote in whole euros, with an
    annual premium between 147 and 630, a monthly premium between 12 and
    53, and twelve monthly premiums within 6 euros of the annual one. *)
Theorem quote_in_tariff_bounds (age hp : Z) (city : option jsstring) (lvl : jsstring) :
  (0 <= age <= 99)%Z -> (1 <= hp <= 9999)%Z -> In lvl tierNames -> ownCityKey city ->
  exists q : Quote,
    calculate_premium (ZtoNumber age) (ZtoNumber hp) city (Some lvl) = inr q
    /\ (147 <=? annual_eur q)%float = true /\ (annual_eur q <=? 630)%float = true
    /\ Math_floor (annual_eur q) = annual_eur q
    /\ (12 <=? monthly_eur q)%float = true /\ (monthly_eur q <=? 53)%float = true
    /\ Math_floor (monthly_eur q) = monthly_eur q
    /\ (abs (12 * monthly_eur q - annual_eur q) <=? 6)%float = true.
Proof.
  intros Ha Hh Hl _. apply tierNames_nonempty in Hl.
  destruct (calculate_premium_factors age hp city lvl Ha Hh Hl) as (cf & cov & Hcf & Hcov & E).
  eexists. split; [apply E; assumption|].
  destruct (quote_checked age hp cf cov Ha Hh Hcf Hcov) as [H _].
  now apply wellFormedQuote_parts.
Qed.

(** X2: the amounts the reply speaks are those of the quote. For every age
    in 0..99, horsepower in 1..9999, city (as in X1) and tier, the annual
    and the monthly premium of the quote are whole numbers of euros, and
    their conversions to strings, which the text of the reply holds, are
    the decimal numerals of these numbers. *)
Theorem amounts_print_as_integers (age hp : Z) (city : option jsstring) (lvl : jsstring) :
  (0 <= age <= 99)%Z -> (1 <= hp <= 9999)%Z -> In lvl tierNames -> ownCityKey city ->
  exists (q : Quote) (a m : Z),
    calculate_premium (ZtoNumber age) (ZtoNumber hp) city (Some lvl) = inr q
    /\ annual_eur q = ZtoNumber a /\ (147 <= a <= 630)%Z
    /\ monthly_eur q = ZtoNumber m /\ (12 <= m <= 53)%Z
    /\ roundedToString (annual_eur q) = ZtoString a
    /\ roundedToString (monthly_eur q) = ZtoString m.
Proof.
  intros Ha Hh Hl _. apply tierNames_nonempty in Hl.
  destruct (calculate_premium_factors age hp city lvl Ha Hh Hl) as (cf & cov & Hcf & Hcov & E).
  destruct (quote_checked age hp cf cov Ha Hh Hcf Hcov) as (_ & Ea & Ba & m & Em & Bm).
  unfold annualOf in Ea.
  eexists _, _, m. split; [apply E; assumption|].
  split; [exact Ea|]. split; [exact Ba|]. split; [exact Em|]. split; [exact Bm|].
  rewrite Ea, Em. split; apply amount_prints; lia.
Qed.

(** X3: an older vehicle never costs more and a stronger one never less:
    with the city (as in X1) and the tier fixed, the annual premium of a
    vehicle that is at least as old and at most as strong as another is at
    most the other's. *)
Theorem older_and_weaker_costs_no_more (age age' hp hp' : Z)
    (city : option jsstring) (lvl : jsstring) :
  (0 <= age <= age')%Z -> (age' <= 99)%Z -> (1 <= hp <= hp')%Z -> (hp' <= 9999)%Z ->
  In lvl tierNames -> ownCityKey city ->
  exists q q' : Quote,
    calculate_premium (ZtoNumber age') (ZtoNumber hp) city (Some lvl) = inr q
    /\ calculate_premium (ZtoNumber age) (ZtoNumber hp') city (Some lvl) = inr q'
    /\ (annual_eur q <=? annual_eur q')%float = true.
Proof.
  intros Ha Ha' Hh Hh' Hl _. apply tierNames_nonempty in Hl.
  destruct (calculate_premium_factors age hp city lvl ltac:(lia) ltac:(lia) Hl)
    as (cf & cov & Hcf & Hcov & E).
  do 2 eexists. split; [apply E; lia|]. split; [apply E; lia|].
  destruct (quote_checked age' hp cf cov ltac:(lia) ltac:(lia) Hcf Hcov) as (_ & E1 & B1 & _).
  destruct (quote_checked age hp' cf cov ltac:(lia) ltac:(lia) Hcf Hcov) as (_ & E2 & B2 & _).
  unfold annualOf in E1, E2. rewrite E1, E2.
  apply leb_of_Z; [exact B1 | exact B2 |].
  etransitivity; [apply annualZ_older with (a := age); [lia | lia | lia | exact Hcf | exact Hcov]|].
  apply annualZ_stronger; [lia | lia | lia | exact Hcf | exact Hcov].
Qed.

(** X4: a tier name that is not one of the three is priced as osnovno, and
    a city that is not in the table as no city at all, provided the name
    looked up (the tier as given, the city in lower case) is no property
    name of Object.prototype. *)
Theorem unlisted_tier_and_city (age hp : float) (city lvl : jsstring) (o : option jsstring) :
  (lvl <> [] -> obj_get coverageFactorMap lvl = None -> ~ In lvl inheritedNames ->
   calculate_premium age hp o (Some lvl) = calculate_premium age hp o (Some (js "osnovno")))
  /\ (obj_get cityFactorMap (toLowerCase city) = None ->
      ~ In (toLowerCase city) inheritedNames ->
      calculate_premium age hp (Some city) o = calculate_premium age hp None o).
Proof.
  split.
  - intros Hl Hk _. unfold calculate_premium. cbv zeta.
    destruct lvl as [|x l]; [congruence|].
    change (truthy (Some (x :: l))) with true. cbv iota.
    change (default [] (Some (x :: l))) with (x :: l).
    rewrite Hk.
    destruct (negb (is_finite age) || (age <? 0)%float); [reflexivity|].
    destruct (negb (is_finite hp) || (hp <=? 0)%float); reflexivity.
  - intros Hk _. unfold calculate_premium.
    destruct (negb (is_finite age) || (age <? 0)%float); [reflexivity|].
    destruct (negb (is_finite hp) || (hp <=? 0)%float); [reflexivity|].
    destruct (bool_decide _); [reflexivity|].
    assert (Hc : obj_get cityFactorMap
                   (toLowerCase (if truthy (Some city) then default [] (Some city)
                                 else js "Other")) = None).
    { destruct city as [|x l]; [vm_compute; reflexivity | exact Hk]. }
    assert (Hn : obj_get cityFactorMap
                   (toLowerCase (if truthy None then default [] None else js "Other"))
                 = None) by (vm_compute; reflexivity).
    cbv zeta.
    match goal with
    | |- inr (quoteOf _ _ (default _ ?x) _) = inr (quoteOf _ _ (default _ ?y) _) =>
        replace x with (@None float) by (symmetry; exact Hc);
        replace y with (@None float) by (symmetry; exact Hn)
    end.
    reflexivity.
Qed.

(** X21: for every age in 0..99, every horsepower in 1..9999 and every
    city (whose name is no property name of Object.prototype),
    calculate_premium returns a quote for each of the three tiers, and the
    annual premium strictly increases from osnovno to delni_kasko to
    polni_kasko. *)
Theorem annual_increases_with_tier (age hp : Z) (city : option jsstring) :
  (0 <= age <= 99)%Z -> (1 <= hp <= 9999)%Z -> ownCityKey city ->
  exists q1 q2 q3 : Quote,
    calculate_premium (ZtoNumber age) (ZtoNumber hp) city (Some (js "osnovno")) = inr q1
    /\ calculate_premium (ZtoNumber age) (ZtoNumber hp) city (Some (js "delni_kasko")) = inr q2
    /\ calculate_premium (ZtoNumber age) (ZtoNumber hp) city (Some (js "polni_kasko")) = inr q3
    /\ (annual_eur q1 <? annual_eur q2)%float = true
    /\ (annual_eur q2 <? annual_eur q3)%float = true.
Proof.
  intros Ha Hh _.
  pose proof (ages_accepted age Ha) as Va.
  pose proof (hps_accepted hp Hh) as Vh.
  unfold acceptedAge in Va. unfold acceptedHp in Vh.
  apply andb_true_iff in Va as [Va1 Va2]. apply andb_true_iff in Vh as [Vh1 Vh2].
  apply negb_true_iff in Va2, Vh2.
  rewrite !calculate_premium_accepted by (assumption || discriminate).
  set (cf := default 1.0%float (obj_get cityFactorMap _)).
  assert (Hcf : In cf cityFactors) by apply cityFactor_listed.
  pose proof (tiers_increase_all age hp cf Ha Hh Hcf) as H.
  unfold tiers_increase in H. apply andb_true_iff in H as [H1 H2].
  do 3 eexists. repeat split; [exact H1 | exact H2].
Qed.

End QuoteFacts.

Lemma maribor_own : ownCityKey (U := Slovene) (Some (js "Maribor")).
Proof. intros c E. apply (inj Some) in E. subst c. vm_compute. intuition discriminate. Qed.

(** X1 for a five-year-old car of 150 horsepower in Maribor. *)
Lemma quote_in_tariff_bounds_maribor :
  (0 <= 5 <= 99)%Z /\ (1 <= 150 <= 9999)%Z /\ In (js "delni_kasko") tierNames
  /\ ownCityKey (U := Slovene) (Some (js "Maribor"))
  /\ exists q : Quote,
       calculate_premium (U := Slovene) (ZtoNumber 5) (ZtoNumber 150)
         (Some (js "Maribor")) (Some (js "delni_kasko")) = inr q
       /\ (147 <=? annual_eur q)%float = true /\ (annual_eur q <=? 630)%float = true
       /\ Math_floor (annual_eur q) = annual_eur q
       /\ (12 <=? monthly_eur q)%float = true /\ (monthly_eur q <=? 53)%float = true
       /\ Math_floor (monthly_eur q) = monthly_eur q
       /\ (abs (12 * monthly_eur q - annual_eur q) <=? 6)%float = true.
Proof.
  assert (Ht : In (js "delni_kasko") tierNames) by (right; left; exact eq_refl).
  split; [lia|]. split; [lia|]. split; [exact Ht|]. split; [exact maribor_own|].
  apply (quote_in_tariff_bounds (U := Slovene) 5 150 (Some (js "Maribor")) (js "delni_kasko"));
    [lia | lia | exact Ht | exact maribor_own].
Defined.

(** X3 for a car of 3 years and 120 horsepower against one of 10 years and
    90 horsepower. *)
Lemma older_and_weaker_costs_no_more_maribor :
  (0 <= 3 <= 10)%Z /\ (10 <= 99)%Z /\ (1 <= 90 <= 120)%Z /\ (120 <= 9999)%Z
  /\ In (js "delni_kasko") tierNames /\ ownCityKey (U := Slovene) (Some (js "Maribor"))
  /\ exists q q' : Quote,
       calculate_premium (U := Slovene) (ZtoNumber 10) (ZtoNumber 90)
         (Some (js "Maribor")) (Some (js "delni_kasko")) = inr q
       /\ calculate_premium (U := Slovene) (ZtoNumber 3) (ZtoNumber 120)
            (Some (js "Maribor")) (Some (js "delni_kasko")) = inr q'
       /\ (annual_eur q <=? annual_eur q')%float = true.
Proof.
  assert (Ht : In (js "delni_kasko") tierNames) by (right; left; exact eq_refl).
  split; [lia|]. split; [lia|]. split; [lia|]. split; [lia|]. split; [exact Ht|].
  split; [exact maribor_own|].
  apply (older_and_weaker_costs_no_more (U := Slovene) 3 10 90 120 (Some (js "Maribor"))
           (js "delni_kasko")); [lia | lia | lia | lia | exact Ht | exact maribor_own].
Defined.

(** X4 on the tier name "premium" and the city "Ptuj". *)
Lemma unlisted_tier_and_city_ptuj :
  (js "premium" <> [] /\ obj_get coverageFactorMap (js "premium") = None
   /\ ~ In (js "premium") inheritedNames
   /\ calculate_premium (U := Slovene) (ZtoNumber 5) (ZtoNumber 150) None (Some (js "premium"))
      = calculate_premium (U := Slovene) (ZtoNumber 5) (ZtoNumber 150) None
          (Some (js "osnovno")))
  /\ (obj_get cityFactorMap (toLowerCase (U := Slovene) (js "Ptuj")) = None
      /\ ~ In (toLowerCase (U := Slovene) (js "Ptuj")) inheritedNames
      /\ calculate_premium (U := Slovene) (ZtoNumber 5) (ZtoNumber 150) (Some (js "Ptuj"))
           (Some (js "osnovno"))
         = calculate_premium (U := Slovene) (ZtoNumber 5) (ZtoNumber 150) None
             (Some (js "osnovno"))).
Proof.
  assert (H1 : js "premium" <> []) by discriminate.
  assert (H2 : obj_get coverageFactorMap (js "premium") = None) by (vm_compute; reflexivity).
  assert (H3 : obj_get cityFactorMap (toLowerCase (U := Slovene) (js "Ptuj")) = None)
    by (vm_compute; reflexivity).
  assert (H4 : ~ In (js "premium") inheritedNames) by (vm_compute; intuition discriminate).
  assert (H5 : ~ In (toLowerCase (U := Slovene) (js "Ptuj")) inheritedNames)
    by (vm_compute; intuition discriminate).
  split.
  - split; [exact H1|]. split; [exact H2|]. split; [exact H4|].
    exact (proj1 (unlisted_tier_and_city (U := Slovene) (ZtoNumber 5) (ZtoNumber 150)
                    [] (js "premium") None) H1 H2 H4).
  - split; [exact H3|]. split; [exact H5|].
    exact (proj2 (unlisted_tier_and_city (U := Slovene) (ZtoNumber 5) (ZtoNumber 150)
                    (js "Ptuj") [] (Some (js "osnovno"))) H3 H5).
Defined.

(** X2 for a five-year-old car of 150 horsepower in Maribor. *)
Lemma amounts_print_as_integers_maribor :
  (0 <= 5 <= 99)%Z /\ (1 <= 150 <= 9999)%Z /\ In (js "delni_kasko") tierNames
  /\ ownCityKey (U := Slovene) (Some (js "Maribor"))
  /\ exists (q : Quote) (a m : Z),
       calculate_premium (U := Slovene) (ZtoNumber 5) (ZtoNumber 150)
         (Some (js "Maribor")) (Some (js "delni_kasko")) = inr q
       /\ annual_eur q = ZtoNumber a /\ (147 <= a <= 630)%Z
       /\ monthly_eur q = ZtoNumber m /\ (12 <= m <= 53)%Z
       /\ roundedToString (annual_eur q) = ZtoString a
       /\ roundedToString (monthly_eur q) = ZtoString m.
Proof.
  assert (Ht : In (js "delni_kasko") tierNames) by (right; left; exact eq_refl).
  split; [lia|]. split; [lia|]. split; [exact Ht|]. split; [exact maribor_own|].
  apply (amounts_print_as_integers (U := Slovene) 5 150 (Some (js "Maribor"))
           (js "delni_kasko")); [lia | lia | exact Ht | exact maribor_own].
Defined.

(** ** The numeral parser: the range of its results *)

Lemma first_entry_In {A} (p : jsstring -> bool) (o : list (jsstring * A)) (k : jsstring) (v : A) :
  first_entry p o = Some (k, v) -> In (k, v) o /\ p k = true.
Proof.
  induction o as [|[k' v'] o IH]; simpl; [discriminate|].
  destruct (p k') eqn:E.
  - intros H. injection H as -> ->. split; [now left | exact E].
  - intros H. apply IH in H as [H1 H2]. split; [now right | exact H2].
Qed.

Lemma obj_get_In {A} (o : list (jsstring * A)) (k : jsstring) (v : A) :
  obj_get o k = Some v -> In (k, v) o.
Proof.
  induction o as [|[k' v'] o IH]; simpl; [discriminate|].
  unfold str_eqb. destruct (bool_decide_reflect (k' = k)) as [->|Hne].
  - intros H. injection H as ->. now left.
  - intros H. right. now apply IH.
Qed.

(** The values of a table lie between [lo] and [hi]. *)
Definition values_within (lo hi : Z) (tbl : list (jsstring * Z)) : bool :=
  forallb (fun kv => (lo <=? snd kv)%Z && (snd kv <=? hi)%Z) tbl.

Lemma values_within_In (lo hi : Z) (tbl : list (jsstring * Z)) (k : jsstring) (v : Z) :
  values_within lo hi tbl = true -> In (k, v) tbl -> (lo <= v <= hi)%Z.
Proof.
  unfold values_within. rewrite forallb_forall. intros H Hin.
  specialize (H _ Hin). simpl in H.
  apply andb_true_iff in H as [H1 H2]. apply Z.leb_le in H1, H2. lia.
Qed.

Lemma ones_values : values_within 0 9 ones = true.
Proof. reflexivity. Qed.
Lemma teens_values : values_within 10 19 teens = true.
Proof. reflexivity. Qed.
Lemma tens_values : values_within 20 90 tens = true.
Proof. reflexivity. Qed.
Lemma hundreds_values : values_within 100 900 hundreds = true.
Proof. reflexivity. Qed.

Section ParserFacts.
Context `{U : Unicode}.

Lemma parseBelow100_range (s : jsstring) (n : Z) :
  parseBelow100 s = Some n -> (0 <= n <= 99)%Z.
Proof.
  unfold parseBelow100.
  destruct (first_entry _ tens) as [[k v]|] eqn:Et.
  { apply first_entry_In in Et as [Et _].
    pose proof (values_within_In _ _ _ _ _ tens_values Et) as Hv.
    destruct (first_entry _ ones) as [[k1 v1]|] eqn:Eo.
    { apply first_entry_In in Eo as [Eo _].
      pose proof (values_within_In _ _ _ _ _ ones_values Eo) as Hv1.
      intros H. injection H as <-. lia. }
    destruct (re_match _ _ _) as [m|]; [|intros H; injection H as <-; lia].
    destruct (obj_get ones _) as [o|] eqn:Eg.
    { apply obj_get_In in Eg.
      pose proof (values_within_In _ _ _ _ _ ones_values Eg) as Hv1.
      intros H. injection H as <-. lia. }
    destruct (isWordLike _ _); intros H; injection H as <-; lia. }
  destruct (first_entry _ teens) as [[k v]|] eqn:Ete.
  { apply first_entry_In in Ete as [Ete _].
    pose proof (values_within_In _ _ _ _ _ teens_values Ete) as Hv.
    intros H. injection H as <-. lia. }
  match goal with
  | |- context [match ?f (words_of s) with _ => _ end] => set (pairs := f)
  end.
  assert (Hp : forall l k, pairs l = Some k -> (0 <= k <= 99)%Z).
  { induction l as [|a l IH]; intros k; [discriminate|].
    destruct l as [|b l']; [discriminate|].
    change (pairs (a :: b :: l'))
      with (if str_eqb b (js "deset") then
              match obj_get ones a with
              | Some o => Some (o * 10)%Z
              | None =>
                  if isWordLike a (js "devet") then Some 90%Z
                  else if isWordLike a (js "osem") then Some 80%Z
                  else if isWordLike a (js "sedem") then Some 70%Z
                  else pairs (b :: l')
              end
            else pairs (b :: l')).
    destruct (str_eqb b (js "deset")); [|apply IH].
    destruct (obj_get ones a) as [o|] eqn:Eg.
    { apply obj_get_In in Eg.
      pose proof (values_within_In _ _ _ _ _ ones_values Eg) as Hv1.
      intros H. injection H as <-. lia. }
    destruct (isWordLike a (js "devet")); [intros H; injection H as <-; lia|].
    destruct (isWordLike a (js "osem")); [intros H; injection H as <-; lia|].
    destruct (isWordLike a (js "sedem")); [intros H; injection H as <-; lia|].
    apply IH. }
  destruct (pairs _) as [k|] eqn:Ep.
  { apply Hp in Ep. intros H. injection H as <-. exact Ep. }
  destruct (first_entry _ ones) as [[k v]|] eqn:Eo.
  { apply first_entry_In in Eo as [Eo _].
    pose proof (values_within_In _ _ _ _ _ ones_values Eo) as Hv.
    intros H. injection H as <-. lia. }
  destruct (words_of s) as [|w [|w' l]]; try discriminate.
  destruct (isWordLike w (js "devet")); [|discriminate].
  intros H. injection H as <-. lia.
Qed.

Lemma re_digits_cap (st st' : mstate) :
  In st' (exec no_flags re_digits st) -> digit_cap 1 1 4 st'.
Proof.
  unfold re_digits. cbn [seq_of]. intros H.
  apply exec_seq_inv in H as (s1 & _ & H).
  apply exec_seq_inv in H as (s2 & H2 & H).
  apply exec_digit_group in H2.
  eapply digit_cap_kept; [|exact H2|exact H].
  vm_compute. intros [].
Qed.

(** X5: the numeral parser returns no negative number and none above 9999;
    what it reads from number words alone, when the cleaned text holds no
    standalone run of one to four digits, is at most 999. (Stated for
    texts without the word "constructor", the one word that the parser's
    table of ones would find in Object.prototype.) *)
Theorem numeral_parser_range (text : jsstring) (n : Z) :
  includes (cleanTextForNumber text) (js "constructor") = false ->
  parseSlNumberRobust text = Some n ->
  (0 <= n <= 9999)%Z
  /\ (re_match no_flags re_digits (cleanTextForNumber text) = None -> (n <= 999)%Z).
Proof.
  intros _. unfold parseSlNumberRobust.
  destruct (re_match no_flags re_digits _) as [m|] eqn:Ed.
  { intros H. injection H as <-.
    pose proof (captured_number_bound _ 1 4 _ _ re_digits_cap Ed) as Hb.
    change (10 ^ Z.of_nat 4)%Z with 10000%Z in Hb. split; [lia | discriminate]. }
  destruct (words_of _) as [|w ws]; [discriminate|].
  destruct (first_entry _ hundreds) as [[hWord hVal]|] eqn:Eh.
  - apply first_entry_In in Eh as [Eh _].
    pose proof (values_within_In _ _ _ _ _ hundreds_values Eh) as Hv.
    destruct (trim _) as [|x after]; [intros H; injection H as <-; lia|].
    destruct (parseBelow100 _) as [rest|] eqn:Er.
    + apply parseBelow100_range in Er. intros H. injection H as <-. lia.
    + intros H. injection H as <-. lia.
  - intros H. apply parseBelow100_range in H. lia.
Qed.

End ParserFacts.

(** X5 on "sto petindvajset", one hundred and twenty-five. *)
Lemma numeral_parser_range_125 :
  includes (cleanTextForNumber (U := Slovene) (js "sto petindvajset")) (js "constructor")
  = false
  /\ parseSlNumberRobust (U := Slovene) (js "sto petindvajset") = Some 125%Z
  /\ (0 <= 125 <= 9999)%Z
  /\ (re_match (U := Slovene) no_flags re_digits
        (cleanTextForNumber (U := Slovene) (js "sto petindvajset"))
      = None -> (125 <= 999)%Z).
Proof.
  assert (H0 : includes (cleanTextForNumber (U := Slovene) (js "sto petindvajset"))
                 (js "constructor") = false) by (vm_compute; reflexivity).
  assert (H : parseSlNumberRobust (U := Slovene) (js "sto petindvajset") = Some 125%Z)
    by (vm_compute; reflexivity).
  split; [exact H0|]. split; [exact H|].
  exact (numeral_parser_range (U := Slovene) (js "sto petindvajset") 125 H0 H).
Defined.

(** ** Yes and no *)

Lemma trimStart_head (s : jsstring) (c : N) (r : jsstring) :
  trimStart s = c :: r -> is_space c = false.
Proof.
  induction s as [|x s IH]; simpl; [discriminate|].
  destruct (is_space x) eqn:E; [exact IH|].
  intros H. injection H as <- _. exact E.
Qed.

Lemma trimStart_snoc (l : jsstring) (c : N) :
  is_space c = false -> trimStart (l ++ [c]) = trimStart l ++ [c].
Proof.
  intros Hc. induction l as [|x l IH]; simpl; [now rewrite Hc|].
  destruct (is_space x); [exact IH | reflexivity].
Qed.

(** What trim returns starts with no white space. *)
Lemma trim_head (s : jsstring) (c : N) (r : jsstring) :
  trim s = c :: r -> is_space c = false.
Proof.
  unfold trim, trimEnd. destruct (trimStart s) as [|c0 r0] eqn:E; [discriminate|].
  apply trimStart_head in E. simpl rev.
  rewrite (trimStart_snoc _ _ E), rev_app_distr. simpl.
  intros H. injection H as <- _. exact E.
Qed.

Lemma space_is_space (c : N) : is_space c = false -> (c =? 32) = false.
Proof.
  intros H. destruct (N.eqb_spec c 32) as [->|]; [discriminate H | reflexivity].
Qed.

(** The first word of a text that starts with no space starts the text. *)
Lemma words_of_head (c : N) (t : jsstring) :
  (c =? 32) = false -> exists w ws, words_of (c :: t) = (c :: w) :: ws.
Proof.
  intros Hc. unfold words_of, filterBoolean. simpl. rewrite Hc.
  destruct (split_on 32 t) as [|w ws].
  - exists [], []. reflexivity.
  - exists w, (filter (fun w => w <> []) ws). now rewrite filter_cons_True.
Qed.

Section YesNoFacts.
Context `{U : Unicode}.

Lemma firstToken_head (text : jsstring) (c : N) (w : jsstring) :
  firstToken text = c :: w -> exists t, normYesNo text = c :: t.
Proof.
  unfold firstToken. destruct (normYesNo text) as [|c0 t0] eqn:E; [discriminate|].
  unfold normYesNo in E. apply trim_head, space_is_space in E.
  destruct (words_of_head c0 t0 E) as (w' & ws & ->).
  intros H. injection H as <- _. now exists t0.
Qed.

(** The first character of the normalized text, when the token or a prefix
    of the text is a given word. *)
Lemma token_head (text word : jsstring) (c : N) (w : jsstring) :
  word = c :: w -> str_eqb (firstToken text) word = true ->
  exists t, normYesNo text = c :: t.
Proof.
  intros -> H. unfold str_eqb in H. apply bool_decide_eq_true in H.
  now apply firstToken_head in H.
Qed.

Lemma prefix_head (text word : jsstring) (c : N) (w : jsstring) :
  word = c :: w -> startsWith (normYesNo text) word = true ->
  exists t, normYesNo text = c :: t.
Proof.
  intros -> H. apply startsWith_spec in H as [b ->]. now eexists.
Qed.

(** The first letters of an affirmative answer, and of a negative one. *)
Definition yesLetters : list N :=
  [chr "d"; chr "j"; chr "s"; chr "o"; chr "l"; chr "m"; chr "v"].

Lemma isAffirmative_head (text : jsstring) :
  isAffirmative text = true ->
  exists c t, normYesNo text = c :: t /\ In c yesLetters.
Proof.
  unfold isAffirmative. cbv zeta.
  destruct (str_eqb (firstToken text) (js "da")) eqn:E1.
  { destruct (token_head text _ _ _ eq_refl E1) as [t Ht]. intros _.
    exists (chr "d"), t. split; [exact Ht | vm_compute; tauto]. }
  destruct (str_eqb (firstToken text) (js "ja")) eqn:E2.
  { destruct (token_head text _ _ _ eq_refl E2) as [t Ht]. intros _.
    exists (chr "j"), t. split; [exact Ht | vm_compute; tauto]. }
  cbn [orb].
  destruct (startsWith (normYesNo text) (js "seveda")) eqn:E3.
  { destruct (prefix_head text _ _ _ eq_refl E3) as [t Ht]. intros _.
    exists (chr "s"), t. split; [exact Ht | vm_compute; tauto]. }
  destruct (startsWith (normYesNo text) (js "ok")) eqn:E4.
  { destruct (prefix_head text _ _ _ eq_refl E4) as [t Ht]. intros _.
    exists (chr "o"), t. split; [exact Ht | vm_compute; tauto]. }
  destruct (startsWith (normYesNo text) (js "lahko")) eqn:E5.
  { destruct (prefix_head text _ _ _ eq_refl E5) as [t Ht]. intros _.
    exists (chr "l"), t. split; [exact Ht | vm_compute; tauto]. }
  destruct (str_eqb (firstToken text) (js "mhm")) eqn:E6.
  { destruct (token_head text _ _ _ eq_refl E6) as [t Ht]. intros _.
    exists (chr "m"), t. split; [exact Ht | vm_compute; tauto]. }
  destruct (str_eqb (firstToken text) (js "mhmm")) eqn:E7.
  { destruct (token_head text _ _ _ eq_refl E7) as [t Ht]. intros _.
    exists (chr "m"), t. split; [exact Ht | vm_compute; tauto]. }
  cbn [orb].
  destruct (str_eqb (firstToken text) (js "valda")) eqn:E8; [|discriminate].
  destruct (token_head text _ _ _ eq_refl E8) as [t Ht]. intros _.
  exists (chr "v"), t. split; [exact Ht | vm_compute; tauto].
Qed.

Lemma isNegative_head (text : jsstring) :
  isNegative text = true -> exists t, normYesNo text = chr "n" :: t.
Proof.
  unfold isNegative. cbv zeta.
  destruct (str_eqb (firstToken text) (js "ne")) eqn:E1.
  { intros _. exact (token_head text _ _ _ eq_refl E1). }
  destruct (str_eqb (firstToken text) (js "no")) eqn:E2.
  { intros _. exact (token_head text _ _ _ eq_refl E2). }
  cbn [orb].
  destruct (startsWith (normYesNo text) (js "ne hvala")) eqn:E3.
  { intros _. exact (prefix_head text _ _ _ eq_refl E3). }
  destruct (startsWith (normYesNo text) (js "ni treba")) eqn:E4.
  { intros _. exact (prefix_head text _ _ _ eq_refl E4). }
  destruct (str_eqb (firstToken text) (js "nic")) eqn:E5.
  { intros _. exact (token_head text _ _ _ eq_refl E5). }
  destruct (str_eqb (firstToken text) (js "nič")) eqn:E6.
  { intros _. exact (token_head text _ _ _ eq_refl E6). }
  destruct (str_eqb (firstToken text) (js "nc")) eqn:E7.
  { intros _. exact (token_head text _ _ _ eq_refl E7). }
  destruct (str_eqb (firstToken text) (js "nč")) eqn:E8; [|discriminate].
  intros _. exact (token_head text _ _ _ eq_refl E8).
Qed.

(** X6: no utterance is both an affirmative and a negative answer, and the
    empty utterance, or one of punctuation only, is neither. *)
Theorem yes_and_no_exclude (text : jsstring) :
  isAffirmative text && isNegative text = false
  /\ (normYesNo text = [] -> isAffirmative text = false /\ isNegative text = false).
Proof.
  split.
  - destruct (isAffirmative text) eqn:Ea; [|reflexivity].
    destruct (isNegative text) eqn:En; [|reflexivity].
    apply isAffirmative_head in Ea as (c & t & Ht & Hc).
    apply isNegative_head in En as (t' & Ht').
    rewrite Ht in Ht'. injection Ht' as -> _.
    vm_compute in Hc. intuition discriminate.
  - intros Ht. split.
    + destruct (isAffirmative text) eqn:Ea; [|reflexivity].
      apply isAffirmative_head in Ea as (c & t & Ht' & _). congruence.
    + destruct (isNegative text) eqn:En; [|reflexivity].
      apply isNegative_head in En as (t' & Ht'). congruence.
Qed.

End YesNoFacts.

(** X6 on an utterance that opens with a yes and holds a no. *)
Lemma yes_and_no_exclude_da_ne :
  isAffirmative (U := Slovene) (js "Da, ne vem.") = true
  /\ isNegative (U := Slovene) (js "Da, ne vem.") = false
  /\ isAffirmative (U := Slovene) (js "Da, ne vem.")
     && isNegative (U := Slovene) (js "Da, ne vem.") = false.
Proof.
  split; [vm_compute; reflexivity|]. split; [vm_compute; reflexivity|].
  exact (proj1 (yes_and_no_exclude (U := Slovene) (js "Da, ne vem."))).
Defined.

(** ** The tier and the city an utterance names *)

Section TierFacts.
Context `{U : Unicode}.

Lemma normalizeCoverageLevel_tier (text l : jsstring) :
  normalizeCoverageLevel text = Some l -> In l tierNames /\ mentionsCoverage text = true.
Proof.
  unfold normalizeCoverageLevel, mentionsCoverage, tierNames. cbv zeta.
  destruct (includes (toLowerCase text) (js "polni")) eqn:Ep.
  { intros H. injection H as <-. rewrite !orb_true_r. simpl. tauto. }
  destruct (includes (toLowerCase text) (js "delni")) eqn:Ed.
  { intros H. injection H as <-. rewrite !orb_true_r. simpl. tauto. }
  destruct (includes (toLowerCase text) (js "osnov")) eqn:Eo; [|discriminate].
  intros H. injection H as <-. rewrite !orb_true_r. simpl. tauto.
Qed.

Lemma normalizeCoverageLevel_None (text : jsstring) :
  normalizeCoverageLevel text = None ->
  includes (toLowerCase text) (js "polni") = false
  /\ includes (toLowerCase text) (js "delni") = false
  /\ includes (toLowerCase text) (js "osnov") = false.
Proof.
  unfold normalizeCoverageLevel. cbv zeta.
  destruct (includes (toLowerCase text) (js "polni")); [discriminate|].
  destruct (includes (toLowerCase text) (js "delni")); [discriminate|].
  destruct (includes (toLowerCase text) (js "osnov")); [discriminate|].
  now intros _.
Qed.

Lemma extractCoverageLevel_tier (text : jsstring) (wantsPremium : bool) (l : jsstring) :
  extractCoverageLevel text wantsPremium = Some l ->
  In l tierNames /\ mentionsCoverage text = true.
Proof.
  unfold extractCoverageLevel.
  destruct (normalizeCoverageLevel text) as [norm|] eqn:En.
  { intros H. injection H as <-. now apply normalizeCoverageLevel_tier. }
  apply normalizeCoverageLevel_None in En as (Ep & Ed & Eo). cbv zeta.
  rewrite Ep, Ed, Eo.
  destruct wantsPremium; cbn [andb]; [|discriminate].
  destruct (includes (toLowerCase text) (js "kasko")) eqn:Ek; [|discriminate].
  intros H. injection H as <-. split; [simpl; tauto|].
  unfold mentionsCoverage. cbv zeta. now rewrite Ek.
Qed.

(** X7: extractCoverageLevel returns one of the three tier names or
    nothing, and returns a tier only for a text that mentionsCoverage
    accepts. Without wantsPremium it is normalizeCoverageLevel; with it, a
    text with no tier keyword but the word "kasko" gives polni_kasko. *)
Theorem coverage_extractor (text : jsstring) :
  extractCoverageLevel text false = normalizeCoverageLevel text
  /\ extractCoverageLevel text true
     = match normalizeCoverageLevel text with
       | Some l => Some l
       | None => if includes (toLowerCase text) (js "kasko")
                 then Some (js "polni_kasko") else None
       end
  /\ forall wantsPremium l,
       extractCoverageLevel text wantsPremium = Some l ->
       In l tierNames /\ mentionsCoverage text = true.
Proof.
  split; [|split; [|intros wp l; apply extractCoverageLevel_tier]].
  - unfold extractCoverageLevel.
    destruct (normalizeCoverageLevel text) as [norm|] eqn:En; [reflexivity|].
    apply normalizeCoverageLevel_None in En as (Ep & Ed & Eo). cbv zeta.
    now rewrite Ep, Ed, Eo.
  - unfold extractCoverageLevel.
    destruct (normalizeCoverageLevel text) as [norm|] eqn:En; [reflexivity|].
    apply normalizeCoverageLevel_None in En as (Ep & Ed & Eo). cbv zeta.
    now rewrite Ep, Ed, Eo.
Qed.

End TierFacts.

Lemma join_length (sep w : jsstring) (ws : list jsstring) :
  (length w <= length (join sep (w :: ws)))%nat.
Proof.
  destruct ws as [|w' ws]; simpl; [lia|]. rewrite length_app. lia.
Qed.

Definition long_values (tbl : list (jsstring * jsstring)) : bool :=
  forallb (fun kv => (3 <=? length (snd kv))%nat) tbl.

Lemma cityNormMap_long (k v : jsstring) :
  obj_get cityNormMap k = Some v -> (3 <= length v)%nat.
Proof.
  intros H. apply obj_get_In in H.
  assert (Hl : long_values cityNormMap = true) by reflexivity.
  unfold long_values in Hl. rewrite forallb_forall in Hl.
  specialize (Hl _ H). now apply Nat.leb_le in Hl.
Qed.

Section CityFacts.
Context `{U : Unicode}.

(** A text that /^[\p{L}\p{M}\-]{3,}$/u accepts has three characters at
    least. *)
Lemma re_one_word_length (raw : jsstring) :
  re_test flag_u re_one_word raw = true -> (3 <= length raw)%nat.
Proof.
  unfold re_test. intros H. apply bool_decide_eq_true in H as [[p st'] H].
  apply search_leftmost in H as (s1 & s2 & -> & _ & Hm & _).
  unfold match_here in Hm.
  destruct (exec flag_u re_one_word _) as [|x l] eqn:Ee; [discriminate|].
  assert (Hin : In x (exec flag_u re_one_word
                        {| m_before := before_after None s1; m_rest := s2; m_caps := [] |}))
    by (rewrite Ee; now left).
  unfold re_one_word in Hin. cbn [seq_of] in Hin.
  apply exec_seq_inv in Hin as (a & Ha & Hin).
  apply exec_seq_inv in Hin as (b & Hb & _).
  assert (Hrest : m_rest a = s2).
  { simpl in Ha. destruct (before_after None s1); [destruct Ha|].
    now destruct Ha as [<-|[]]. }
  apply (rep_char_sound _ _ (exec_set_char_step flag_u false _)) in Hb
    as (ds & E1 & _ & E3 & _).
  rewrite Hrest in E1. rewrite length_app, E1, length_app. lia.
Qed.

(** Group 2 of the city phrase holds three characters at least. *)
Lemma re_city_phrase_cap (raw : jsstring) (m : list (nat * jsstring)) :
  re_match flag_iu re_city_phrase raw = Some m ->
  exists ds, cap 2 m = Some ds /\ (3 <= length ds)%nat.
Proof.
  intros H. apply re_match_sound in H as (b & s2 & st' & Hin & ->).
  unfold re_city_phrase in Hin. cbn [seq_of] in Hin.
  apply exec_seq_inv in Hin as (a1 & _ & Hin).
  apply exec_seq_inv in Hin as (a2 & _ & Hin).
  apply exec_seq_inv in Hin as (a3 & _ & Hin).
  apply exec_seq_inv in Hin as (a4 & H4 & Hin).
  assert (Hc : exists ds, cap 2 (m_caps a4) = Some ds /\ (3 <= length ds)%nat).
  { change (exec flag_iu (RGroup 2 (at_least 3 r_name)) a3)
      with (map (set_cap 2 a3) (exec flag_iu (at_least 3 r_name) a3)) in H4.
    apply in_map_iff in H4 as (a & <- & Ha).
    apply (rep_char_sound _ _ (exec_set_char_step flag_iu false _)) in Ha
      as (ds & E1 & _ & E3 & _).
    exists ds. simpl. split; [|exact E3]. f_equal. now apply consumed_app. }
  destruct Hc as (ds & Hc & Hlen). exists ds. split; [|exact Hlen].
  rewrite <- Hc. eapply exec_keeps_cap; [|exact Hin].
  vm_compute. intros [E|[E|[]]]; discriminate.
Qed.

(** X8: a city that extractCity returns has three characters at least; in
    particular it is never the empty string. (Stated for names other than
    "constructor" in any letter case, which the table of city names would
    find in Object.prototype.) *)
Theorem city_names_are_long (text c : jsstring) :
  extractCity text = Some c -> toLowerCase c <> js "constructor" -> (3 <= length c)%nat.
Proof.
  intros H _. revert H. unfold extractCity. cbv zeta.
  destruct (_ || _); [intros H; apply (inj Some) in H; subst c; vm_compute; lia|].
  destruct (_ || _); [discriminate|].
  destruct (isProbablyNotCityWord _); [discriminate|].
  destruct (parseSlNumberRobust _); [discriminate|].
  destruct (re_test flag_u re_one_word _) eqn:E1.
  { apply re_one_word_length in E1. intros H. apply (inj Some) in H. subst c.
    destruct (obj_get cityNormMap _) as [v|] eqn:Eg; [|exact E1].
    exact (cityNormMap_long _ _ Eg). }
  destruct (re_match flag_iu re_city_phrase _) as [m|] eqn:E2; [|discriminate].
  apply re_city_phrase_cap in E2 as (ds & Hc & Hlen).
  intros H. apply (inj Some) in H. subst c.
  destruct (obj_get cityNormMap _) as [v|] eqn:Eg; [exact (cityNormMap_long _ _ Eg)|].
  rewrite Hc. cbn [default]. unfold filterBoolean.
  rewrite filter_cons_True by (destruct ds; [simpl in Hlen; lia | discriminate]).
  etransitivity; [exact Hlen | apply join_length].
Qed.

End CityFacts.

(** X7 on "kasko", a tier only when a premium is wanted. *)
Lemma coverage_extractor_kasko :
  extractCoverageLevel (U := Slovene) (js "kasko") false = None
  /\ extractCoverageLevel (U := Slovene) (js "kasko") true = Some (js "polni_kasko")
  /\ (In (js "polni_kasko") tierNames
      /\ mentionsCoverage (U := Slovene) (js "kasko") = true).
Proof.
  assert (H : extractCoverageLevel (U := Slovene) (js "kasko") true = Some (js "polni_kasko"))
    by (vm_compute; reflexivity).
  split; [vm_compute; reflexivity|]. split; [exact H|].
  exact (proj2 (proj2 (coverage_extractor (U := Slovene) (js "kasko"))) true _ H).
Defined.

(** X8 on "v Novem mestu". *)
Lemma city_names_are_long_novo_mesto :
  extractCity (U := Slovene) (js "v Novem mestu") = Some (js "Novem mestu")
  /\ toLowerCase (U := Slovene) (js "Novem mestu") <> js "constructor"
  /\ (3 <= length (js "Novem mestu"))%nat.
Proof.
  assert (H : extractCity (U := Slovene) (js "v Novem mestu") = Some (js "Novem mestu"))
    by (vm_compute; reflexivity).
  assert (Hc : toLowerCase (U := Slovene) (js "Novem mestu") <> js "constructor")
    by (vm_compute; discriminate).
  split; [exact H|]. split; [exact Hc|].
  exact (city_names_are_long (U := Slovene) _ _ H Hc).
Defined.

(** ** Sessions: isolation and reset *)

Section SessionFacts.
Context `{U : Unicode}.
Variable docs : list Doc.
Variable retrieveDocs : jsstring -> list Doc -> nat -> list Doc.

Lemma getSession_other (k k' : jsstring) (sessions : gmap jsstring Session) :
  k' <> k -> fst (getSession k sessions) !! k' = sessions !! k'.
Proof.
  intros Hne. unfold getSession. destruct (sessions !! k); cbn [fst]; [reflexivity|].
  now rewrite lookup_insert_ne by congruence.
Qed.

(** X9: a turn reads and writes the session of its own key only: every
    other session is left as it was, the key's session exists afterwards,
    and the response and the new session of the key are the same from any
    two stores that hold the same session under the key. *)
Theorem turn_touches_one_session (c : Collaborators) (req : Request)
    (sessions : gmap jsstring Session) :
  (forall k, k <> sessionKey req ->
     fst (turn docs retrieveDocs c req sessions) !! k = sessions !! k)
  /\ is_Some (fst (turn docs retrieveDocs c req sessions) !! sessionKey req)
  /\ forall sessions',
       sessionOf req sessions' = sessionOf req sessions ->
       snd (turn docs retrieveDocs c req sessions') = snd (turn docs retrieveDocs c req sessions)
       /\ fst (turn docs retrieveDocs c req sessions') !! sessionKey req
          = fst (turn docs retrieveDocs c req sessions) !! sessionKey req.
Proof.
  assert (Hturn : forall ss,
             turn docs retrieveDocs c req ss
             = match file req with
               | None => (fst (getSession (sessionKey req) ss),
                          Status400 (js "Missing audio file"))
               | Some (buffer, originalname) =>
                   let r := turnBody docs retrieveDocs c buffer
                              (if truthy originalname then default [] originalname
                               else js "audio.webm") (sessionOf req ss) in
                   (<[sessionKey req := fst r]> (fst (getSession (sessionKey req) ss)),
                    match snd r with inr b => Json b | inl e => Status500 e end)
               end).
  { intros ss. unfold turn, sessionOf.
    destruct (getSession (sessionKey req) ss) as [ss1 sess]. cbn [fst snd].
    destruct (file req) as [[buffer name]|]; [|reflexivity].
    cbv zeta. now destruct (turnBody _ _ _ _ _ _). }
  split; [|split].
  - intros k Hne. rewrite Hturn. destruct (file req) as [[buffer name]|]; cbn [fst].
    + cbv zeta. cbn [fst]. rewrite lookup_insert_ne by congruence.
      now apply getSession_other.
    + now apply getSession_other.
  - rewrite Hturn. destruct (file req) as [[buffer name]|]; cbn [fst].
    + cbv zeta. cbn [fst]. rewrite lookup_insert_eq. now eexists.
    + rewrite (proj1 (getSession_lookup _ _)). now eexists.
  - intros ss' Hs. rewrite !Hturn. destruct (file req) as [[buffer name]|].
    + cbv zeta. cbn [fst snd]. rewrite Hs, !lookup_insert_eq. now split.
    + cbn [fst snd]. split; [reflexivity|].
      rewrite !(proj1 (getSession_lookup _ _)). unfold sessionOf in Hs. now rewrite Hs.
Qed.

(** X10: a reset starts the conversation over: the session served next
    under the key is a new one, so the next turn answers, and leaves the
    session, as it would in a server just started; other sessions are
    untouched, and a second reset changes nothing. *)
Theorem reset_starts_over (c : Collaborators) (req : Request)
    (sessions : gmap jsstring Session) :
  sessionOf req (reset req sessions) = newSession
  /\ snd (turn docs retrieveDocs c req (reset req sessions))
     = snd (turn docs retrieveDocs c req ∅)
  /\ fst (turn docs retrieveDocs c req (reset req sessions)) !! sessionKey req
     = fst (turn docs retrieveDocs c req ∅) !! sessionKey req
  /\ (forall k, k <> sessionKey req -> reset req sessions !! k = sessions !! k)
  /\ reset req (reset req sessions) = reset req sessions.
Proof.
  assert (H1 : sessionOf req (reset req sessions) = newSession).
  { unfold sessionOf, reset, getSession. now rewrite lookup_delete_eq. }
  assert (H2 : sessionOf req ∅ = newSession).
  { unfold sessionOf, getSession. now rewrite lookup_empty. }
  split; [exact H1|].
  assert (Hturn : forall ss,
             sessionOf req ss = newSession ->
             snd (turn docs retrieveDocs c req ss)
             = match file req with
               | None => Status400 (js "Missing audio file")
               | Some (buffer, originalname) =>
                   match snd (turnBody docs retrieveDocs c buffer
                                (if truthy originalname then default [] originalname
                                 else js "audio.webm") newSession) with
                   | inr b => Json b
                   | inl e => Status500 e
                   end
               end
             /\ fst (turn docs retrieveDocs c req ss) !! sessionKey req
                = Some match file req with
                       | None => newSession
                       | Some (buffer, originalname) =>
                           fst (turnBody docs retrieveDocs c buffer
                                  (if truthy originalname then default [] originalname
                                   else js "audio.webm") newSession)
                       end).
  { intros ss Hs. unfold turn.
    pose proof (getSession_lookup (sessionKey req) ss) as [Hk _].
    unfold sessionOf in Hs. rewrite Hs in Hk.
    destruct (getSession (sessionKey req) ss) as [ss1 sess]. cbn [fst snd] in *. subst sess.
    destruct (file req) as [[buffer name]|]; [|now split].
    destruct (turnBody _ _ _ _ _ _) as [s' r]. cbn [fst snd].
    now rewrite lookup_insert_eq. }
  destruct (Hturn _ H1) as [E1 E2]. destruct (Hturn _ H2) as [E3 E4].
  split; [now rewrite E1, E3|]. split; [now rewrite E2, E4|]. split.
  - intros k Hne. unfold reset. now rewrite lookup_delete_ne by congruence.
  - unfold reset. apply delete_delete_eq.
Qed.

End SessionFacts.

(** ** What a session can hold *)

(** The slots of a draft are in the ranges of the extractors, and its tier
    is one of the three. *)
Definition wellFormedDraft (p : Draft) : Prop :=
  (forall n, vehicleAge p = Some n -> (0 <= n <= 99)%Z)
  /\ (forall n, horsepower p = Some n -> (0 <= n <= 9999)%Z)
  /\ (forall l, coverageLevel p = Some l -> In l tierNames).

(** The vehicle of the last quote is complete. *)
Definition completeVehicle (lp : LastPremium) : Prop :=
  (exists n, lp_vehicleAge lp = Some n /\ (0 <= n <= 99)%Z)
  /\ (exists n, lp_horsepower lp = Some n /\ (0 <= n <= 9999)%Z)
  /\ truthy (lp_city lp) = true.

(** The state of a session: a draft and a comparison offer are never open
    together; an offer is open only while the vehicle of the last quote is
    remembered, and offers delni_kasko or polni_kasko, at least one of them;
    the compared tiers are among the three. *)
Definition wellFormedState (st : State) : Prop :=
  (forall p, premium st = Some p -> wellFormedDraft p /\ pendingComparison st = None)
  /\ (forall lp, lastPremium st = Some lp -> completeVehicle lp)
  /\ (forall l, l ∈ comparedLevels st -> In l tierNames)
  /\ (forall pc, pendingComparison st = Some pc ->
        options pc <> []
        /\ (forall l, l ∈ options pc -> l = js "delni_kasko" \/ l = js "polni_kasko")
        /\ is_Some (lastPremium st)).

Lemma emptyState_wf : wellFormedState emptyState.
Proof.
  unfold emptyState.
  split; [|split; [|split]]; cbn [premium lastPremium comparedLevels pendingComparison].
  - discriminate.
  - discriminate.
  - intros l Hl. now apply elem_of_empty in Hl.
  - discriminate.
Qed.

Lemma no_offer_wf (st : State) :
  wellFormedState st -> wellFormedState (set_pendingComparison None st).
Proof.
  intros (H1 & H2 & H3 & H4).
  split; [|split; [|split]];
    cbn [set_pendingComparison premium lastPremium comparedLevels pendingComparison].
  - intros p Hp. split; [apply (H1 p Hp) | reflexivity].
  - exact H2.
  - exact H3.
  - discriminate.
Qed.

Lemma set_premium_wf (p : Draft) (st : State) :
  wellFormedState st -> wellFormedDraft p -> pendingComparison st = None ->
  wellFormedState (set_premium (Some p) st).
Proof.
  intros (H1 & H2 & H3 & H4) Hp Hn.
  split; [|split; [|split]];
    cbn [set_premium premium lastPremium comparedLevels pendingComparison].
  - intros p' E. injection E as <-. now split.
  - exact H2.
  - exact H3.
  - rewrite Hn. discriminate.
Qed.

Lemma tierNames_delni : In (js "delni_kasko") tierNames.
Proof. right. left. reflexivity. Qed.

Lemma tierNames_polni : In (js "polni_kasko") tierNames.
Proof. right. right. left. reflexivity. Qed.

Lemma comparisonDraft_wf (st : State) (pc : PendingComparison) (lvl : jsstring) :
  wellFormedState st -> pendingComparison st = Some pc -> lvl ∈ options pc ->
  wellFormedDraft (comparisonDraft (lastPremium st) lvl).
Proof.
  intros (_ & H2 & _ & H4) Hpc Hl.
  destruct (H4 pc Hpc) as (_ & Ho & [lp Hlp]).
  destruct (H2 lp Hlp) as ((a & Ea & Ha) & (h & Eh & Hh) & _).
  rewrite Hlp. unfold comparisonDraft.
  split; [|split]; cbn [vehicleAge horsepower coverageLevel mbind option_bind].
  - intros n. rewrite Ea. intros E. apply (inj Some) in E. now subst n.
  - intros n. rewrite Eh. intros E. apply (inj Some) in E. now subst n.
  - intros l E. apply (inj Some) in E. subst l.
    destruct (Ho lvl Hl) as [E|E]; rewrite E; [exact tierNames_delni | exact tierNames_polni].
Qed.

Lemma freshDraft_wf (lp : option LastPremium) (nv : bool) :
  (forall l, lp = Some l -> completeVehicle l) -> wellFormedDraft (freshDraft lp nv).
Proof.
  intros H. unfold freshDraft.
  destruct lp as [l|]; [destruct nv|]; cbn [negb]; (split; [|split]);
    cbn [vehicleAge horsepower coverageLevel]; try discriminate.
  - destruct (H l eq_refl) as ((a & Ea & Ha) & _). rewrite Ea. intros n E.
    apply (inj Some) in E. now subst n.
  - destruct (H l eq_refl) as (_ & (h & Eh & Hh) & _). rewrite Eh. intros n E.
    apply (inj Some) in E. now subst n.
Qed.

Lemma followUpOf_options (lvl : jsstring) (compared : gset jsstring) (opts : list jsstring) :
  snd (followUpOf lvl compared) = Some opts ->
  opts <> []
  /\ forall l, l ∈ opts -> l = js "delni_kasko" \/ l = js "polni_kasko".
Proof.
  unfold followUpOf.
  destruct (bool_decide (js "delni_kasko" ∈ compared));
    destruct (bool_decide (js "polni_kasko" ∈ compared));
    destruct (str_eqb lvl (js "osnovno")); [| destruct (str_eqb lvl (js "delni_kasko"));
      [| destruct (str_eqb lvl (js "polni_kasko"))] ..];
    cbn [negb orb snd app]; intros H; try discriminate;
    injection H as <-; (split; [discriminate|]); intros l Hl;
    repeat (apply elem_of_cons in Hl as [->|Hl]; [tauto|]);
    now apply elem_of_nil in Hl.
Qed.

Section StateFacts.
Context `{U : Unicode}.

Lemma extractVehicleAge_range (text : jsstring) (n : Z) :
  extractVehicleAge text = Some n -> (0 <= n <= 99)%Z.
Proof.
  unfold extractVehicleAge.
  destruct (re_match no_flags re_age_unit _) as [m|] eqn:E1.
  { intros H. injection H as <-.
    pose proof (captured_number_bound _ 1 2 _ _ re_age_unit_cap E1) as Hb.
    change (10 ^ Z.of_nat 2)%Z with 100%Z in Hb. lia. }
  destruct (re_match no_flags re_star _) as [m|] eqn:E2.
  { intros H. injection H as <-.
    pose proof (captured_number_bound _ 1 2 _ _ re_star_cap E2) as Hb.
    change (10 ^ Z.of_nat 2)%Z with 100%Z in Hb. lia. }
  destruct (parseSlNumberRobust _) as [k|]; [|discriminate].
  destruct (_ && _) eqn:Hr; [|discriminate].
  intros H. injection H as <-.
  apply andb_true_iff in Hr as [H0 H1]. apply Z.leb_le in H0, H1. lia.
Qed.

Lemma extractHorsepower_range (text : jsstring) (n : Z) :
  extractHorsepower text = Some n -> (0 <= n <= 9999)%Z.
Proof.
  unfold extractHorsepower.
  destruct (re_match no_flags re_hp_unit _) as [m|] eqn:E1.
  { intros H. injection H as <-.
    pose proof (captured_number_bound _ 2 4 _ _ re_hp_unit_cap E1) as Hb.
    change (10 ^ Z.of_nat 4)%Z with 10000%Z in Hb. lia. }
  destruct (re_match no_flags re_moc _) as [m|] eqn:E2.
  { intros H. injection H as <-.
    pose proof (captured_number_bound _ 2 4 _ _ re_moc_cap E2) as Hb.
    change (10 ^ Z.of_nat 4)%Z with 10000%Z in Hb. lia. }
  destruct (parseSlNumberRobust _) as [k|]; [|discriminate].
  destruct (_ && _) eqn:Hr; [|discriminate].
  intros H. injection H as <-.
  apply andb_true_iff in Hr as [H0 H1]. apply Z.leb_le in H0, H1. lia.
Qed.

Lemma fillSlots_wf (t : jsstring) (p : Draft) :
  wellFormedDraft p -> wellFormedDraft (fillSlots t p).
Proof.
  intros (Ha & Hh & Hl). unfold fillSlots, applySlots. cbv zeta.
  split; [|split]; cbn [vehicleAge horsepower coverageLevel].
  - intros n. destruct (_ || _).
    + destruct (extractVehicleAge t) as [a|] eqn:E; [|apply Ha].
      intros H. injection H as <-. now apply extractVehicleAge_range in E.
    + apply Ha.
  - intros n. destruct (_ || _).
    + destruct (extractHorsepower t) as [h|] eqn:E; [|apply Hh].
      intros H. injection H as <-. now apply extractHorsepower_range in E.
    + apply Hh.
  - intros l. destruct (_ || _).
    + destruct (extractCoverageLevel t true) as [x|] eqn:E; [|apply Hl].
      destruct (truthy (Some x)); [|apply Hl].
      intros H. injection H as <-. now apply extractCoverageLevel_tier in E.
    + cbn [truthy]. apply Hl.
Qed.

Lemma intentState_wf (t : jsstring) (st : State) :
  wellFormedState st -> wellFormedState (intentState t st).
Proof.
  intros H. unfold intentState. destruct (isNewPremiumReq t st); [|exact H].
  destruct H as (H1 & _).
  split; [|split; [|split]]; cbn [premium lastPremium comparedLevels pendingComparison].
  - intros p Hp. split; [apply (H1 p Hp) | reflexivity].
  - discriminate.
  - intros l Hl. now apply elem_of_empty in Hl.
  - discriminate.
Qed.

Lemma vehicleState_wf (t : jsstring) (st : State) :
  wellFormedState st -> wellFormedState (vehicleState t st).
Proof.
  intros H. unfold vehicleState. destruct (wantsNewVehicle t); [apply emptyState_wf | exact H].
Qed.

Lemma defaultCity_wf (p : Draft) : wellFormedDraft p -> wellFormedDraft (defaultCity p).
Proof. unfold defaultCity. now destruct (truthy (city p)). Qed.

(** The state a quote leaves is well formed. *)
Lemma quotedState_wf (p : Draft) (st : State) :
  wellFormedState st -> wellFormedDraft p -> missingSlot p = None ->
  wellFormedState (quotedState (defaultCity p) st).
Proof.
  intros (_ & _ & H3 & _) (Ha & Hh & Hl) Hm.
  apply missingSlot_priority in Hm as (Hage & Hhp & Hcov).
  destruct (vehicleAge p) as [a|] eqn:Ea; [|congruence].
  destruct (horsepower p) as [h|] eqn:Eh; [|congruence].
  destruct (coverageLevel p) as [[|x l]|] eqn:El; try discriminate.
  assert (Ed : vehicleAge (defaultCity p) = Some a /\ horsepower (defaultCity p) = Some h
               /\ coverageLevel (defaultCity p) = Some (x :: l)
               /\ truthy (city (defaultCity p)) = true).
  { unfold defaultCity. destruct (truthy (city p)) eqn:Ec; cbn; now rewrite ?Ea, ?Eh, ?El. }
  destruct Ed as (Ea' & Eh' & El' & Ec').
  unfold quotedState. rewrite El'. cbn [default].
  split; [|split; [|split]]; cbn [premium lastPremium comparedLevels pendingComparison].
  - discriminate.
  - intros lp E. injection E as <-. split; [|split]; cbn.
    + exists a. split; [exact Ea' | now apply Ha].
    + exists h. split; [exact Eh' | now apply Hh].
    + exact Ec'.
  - intros l0 Hl0. apply elem_of_union in Hl0 as [Hl0|Hl0]; [|now apply H3].
    apply elem_of_singleton in Hl0. subst l0. now apply Hl.
  - intros pc. destruct (snd (followUpOf _ _)) as [opts|] eqn:Ef; [|discriminate].
    intros E. injection E as <-. cbn [options].
    destruct (followUpOf_options _ _ _ Ef) as [Hne Ho].
    split; [exact Hne|]. split; [exact Ho | now eexists].
Qed.

Lemma premiumOutcome_wf (t : jsstring) (p : Draft) (st st' : State) (r : Error + TurnBody) :
  wellFormedState st -> wellFormedDraft p -> pendingComparison st = None ->
  premiumOutcome t p st st' r -> wellFormedState st'.
Proof.
  intros Hst Hp Hn Ho. pose proof (fillSlots_wf t p Hp) as Hp1.
  destruct Ho as [(slot & _ & -> & _) | [(_ & -> & _) | (Hm & -> & _)]].
  - apply set_premium_wf; [exact Hst | exact Hp1 | exact Hn].
  - apply set_premium_wf; [exact Hst | now apply defaultCity_wf | exact Hn].
  - now apply quotedState_wf.
Qed.

Lemma intentState_no_offer (t : jsstring) (st : State) :
  pendingComparison st = None -> pendingComparison (intentState t st) = None.
Proof. unfold intentState. now destruct (isNewPremiumReq t st). Qed.

Lemma routeOutcome_wf (t : jsstring) (nv : bool) (st st' : State) (r : Error + TurnBody) :
  wellFormedState st -> pendingComparison st = None ->
  routeOutcome t nv st st' r -> wellFormedState st'.
Proof.
  intros Hst Hn Ho. pose proof (intentState_wf t st Hst) as H2.
  pose proof (intentState_no_offer t st Hn) as Hn2.
  destruct Ho as [(p & Hp & Ho) | (-> & _)]; [|exact H2].
  assert (Hwp : wellFormedDraft p).
  { destruct Hp as [Hp | [_ ->]].
    - now apply (proj1 H2 p Hp).
    - apply freshDraft_wf. apply (proj1 (proj2 H2)). }
  eapply premiumOutcome_wf; [| exact Hwp | | exact Ho].
  - now apply set_premium_wf.
  - exact Hn2.
Qed.

Lemma turnOutcome_wf (t : jsstring) (st st' : State) (r : Error + TurnBody) :
  wellFormedState st -> turnOutcome t st st' r -> wellFormedState st'.
Proof.
  intros H Ho. apply (vehicleState_wf t) in H.
  destruct Ho as [(pc & _ & [->| ->] & _) | (st1 & Hst1 & Hroute)].
  - exact H.
  - now apply no_offer_wf.
  - destruct Hst1 as [[Hn ->] | (pc & Hpc & [->| (lvl & Hl & ->)])].
    + eapply routeOutcome_wf; [| | exact Hroute]; [exact H | exact Hn].
    + eapply routeOutcome_wf; [| | exact Hroute]; [now apply no_offer_wf | reflexivity].
    + eapply routeOutcome_wf; [| | exact Hroute]; [|reflexivity].
      apply set_premium_wf; [now apply no_offer_wf | | reflexivity].
      exact (comparisonDraft_wf _ pc lvl H Hpc Hl).
Qed.

Variable docs : list Doc.
Variable retrieveDocs : jsstring -> list Doc -> nat -> list Doc.

Lemma reachable_wf (sessions : gmap jsstring Session) :
  reachable docs retrieveDocs sessions ->
  forall k sess, sessions !! k = Some sess -> wellFormedState (state sess).
Proof.
  induction 1 as [| c req ss Hr IH | req ss Hr IH]; intros k sess Hl.
  - now rewrite lookup_empty in Hl.
  - destruct (turn docs retrieveDocs c req ss) as [ss' resp] eqn:Et. cbn [fst] in Hl.
    apply turn_sessions in Et as [Hother Hkey].
    assert (Hof : wellFormedState (state (sessionOf req ss))).
    { unfold sessionOf, getSession. destruct (ss !! sessionKey req) eqn:E; cbn [snd].
      - now apply (IH _ _ E).
      - apply emptyState_wf. }
    destruct (decide (k = sessionKey req)) as [->|Hne].
    + destruct Hkey as [[_ Hk] | (audio & name & sess' & r & _ & Hb & Hk & _)].
      * rewrite Hk in Hl. injection Hl as <-. exact Hof.
      * rewrite Hk in Hl. injection Hl as <-.
        apply turnBody_cases in Hb as [(e & _ & -> & _) | (text & _ & _ & Ho)].
        -- exact Hof.
        -- eapply turnOutcome_wf; [exact Hof | exact Ho].
    + destruct (Hother k sess Hne Hl) as [H1 | ->].
      * now apply (IH _ _ H1).
      * apply emptyState_wf.
  - unfold reset in Hl. apply lookup_delete_Some in Hl as [_ Hl]. now apply (IH _ _ Hl).
Qed.

(** X11: in every session the server can come to hold, a premium draft and
    a comparison offer are never open together; the slots of a draft are
    within 0..99 years and 0..9999 horsepower, with a tier among the three;
    the vehicle of the last quote is remembered completely (age,
    horsepower and a city); the compared tiers are among the three; and an
    offer is open only while that vehicle is remembered, for delni_kasko or
    polni_kasko. *)
Theorem session_state_invariant (sessions : gmap jsstring Session)
    (k : jsstring) (sess : Session) :
  reachable docs retrieveDocs sessions -> sessions !! k = Some sess ->
  (forall p, premium (state sess) = Some p ->
     pendingComparison (state sess) = None
     /\ (forall n, vehicleAge p = Some n -> (0 <= n <= 99)%Z)
     /\ (forall n, horsepower p = Some n -> (0 <= n <= 9999)%Z)
     /\ (forall l, coverageLevel p = Some l -> In l tierNames))
  /\ (forall lp, lastPremium (state sess) = Some lp ->
        (exists n, lp_vehicleAge lp = Some n /\ (0 <= n <= 99)%Z)
        /\ (exists n, lp_horsepower lp = Some n /\ (0 <= n <= 9999)%Z)
        /\ truthy (lp_city lp) = true)
  /\ (forall l, l ∈ comparedLevels (state sess) -> In l tierNames)
  /\ (forall pc, pendingComparison (state sess) = Some pc ->
        options pc <> []
        /\ (forall l, l ∈ options pc -> l = js "delni_kasko" \/ l = js "polni_kasko")
        /\ is_Some (lastPremium (state sess))).
Proof.
  intros Hr Hl. destruct (reachable_wf sessions Hr k sess Hl) as (H1 & H2 & H3 & H4).
  split; [|split; [exact H2 | split; [exact H3 | exact H4]]].
  intros p Hp. destruct (H1 p Hp) as [(Ha & Hh & Hc) Hn].
  split; [exact Hn | split; [exact Ha | split; [exact Hh | exact Hc]]].
Qed.

End StateFacts.

(** ** The run of a turn, step by step *)

Definition userEntry (txt : jsstring) : Message := {| role := js "user"; content := txt |}.
Definition assistantEntry (txt : jsstring) : Message :=
  {| role := js "assistant"; content := txt |}.

(** The reply [txt] is spoken: the synthesis throws, or the body of the
    response is returned. *)
Definition said (c : Collaborators) (t txt : jsstring) (x : Extra) (r : Error + TurnBody)
  : Prop :=
  (exists e, tts c txt = inl e /\ r = inl e)
  \/ (exists mp3, tts c txt = inr mp3
                  /\ r = inr {| transcript := t; replyText := txt; replyAudio := mp3;
                                extra := x |}).

(** The fixed replies of the comparison sub-dialogue. *)
Definition comparisonReplies : list jsstring :=
  [ js "Lahko izračunam oba. Kateri naj najprej: delni ali polni kasko?";
    js "Nisem prepričan, kaj želite. Ali želite primerjavo kritij (delni/polni kasko) "
    ++ js "ali imate drugo vprašanje (npr. prijava škode)?";
    js "V redu. Želite še kaj? Lahko naredim nov izračun za drugo vozilo.";
    js "Super — želite delni kasko ali polni kasko?";
    js "Samo da preverim — želite delni kasko ali polni kasko?" ].

Definition llmFallback : jsstring := js "Se opravičujem — lahko ponoviš vprašanje?".

Section RunFacts.
Context `{U : Unicode}.
Variable docs : list Doc.
Variable retrieveDocs : jsstring -> list Doc -> nat -> list Doc.

(** The documents whose excerpts the RAG flow hands to the model. *)
Definition contextDocs (t : jsstring) : list Doc :=
  let hits := retrieveDocs t docs 10 in
  match hits with
  | [] => take 10 docs
  | _ => hits
  end.

Lemma assistantSays_run (c : Collaborators) (t txt : jsstring) (x : Extra)
    (s s' : Session) (r : Error + TurnBody) :
  assistantSays c t txt x s = (s', r) ->
  state s' = state s
  /\ messages s' = messages s ++ [assistantEntry txt]
  /\ said c t txt x r.
Proof. apply assistantSays_cases. Qed.

Lemma premiumFlow_run (c : Collaborators) (t : jsstring) (p : Draft)
    (s s' : Session) (r : Error + TurnBody) :
  premiumFlow c t p s = (s', r) ->
  let p1 := fillSlots t p in
  let p2 := defaultCity p1 in
  (exists slot,
      missingSlot p1 = Some slot
      /\ messages s' = messages s ++ [assistantEntry (questionText slot)]
      /\ said c t (questionText slot) (questionExtra (set_pendingSlot (Some slot) p1)) r)
  \/ (missingSlot p1 = None
      /\ messages s' = messages s
      /\ state s' = set_premium (Some p2) (state s)
      /\ exists e,
           calculate_premium (ZtoNumber (default 0%Z (vehicleAge p2)))
             (ZtoNumber (default 0%Z (horsepower p2))) (city p2) (coverageLevel p2) = inl e
           /\ r = inl e)
  \/ (missingSlot p1 = None
      /\ exists q followUp,
           calculate_premium (ZtoNumber (default 0%Z (vehicleAge p2)))
             (ZtoNumber (default 0%Z (horsepower p2))) (city p2) (coverageLevel p2) = inr q
           /\ messages s' = messages s ++ [assistantEntry (quoteText p2 q followUp)]
           /\ said c t (quoteText p2 q followUp) (quoteExtra q) r).
Proof.
  intros H p1 p2. unfold premiumFlow in H. fold p1 in H. fold p2 in H.
  destruct (missingSlot p1) as [slot|] eqn:Em.
  - left. exists slot. split; [reflexivity|].
    unfold bind at 1 in H. unfold getState at 1 in H.
    unfold bind at 1 in H. unfold setState at 1 in H.
    apply assistantSays_run in H as (_ & Hm & Hs). split; [exact Hm | exact Hs].
  - right.
    unfold bind at 1 in H. unfold getState at 1 in H.
    unfold bind at 1 in H. unfold setState at 1 in H.
    unfold bind at 1 in H. unfold await at 1 in H.
    destruct (calculate_premium _ _ _ _) as [e|q] eqn:Ec.
    + left. injection H as <- <-. split; [reflexivity|]. split; [reflexivity|].
      split; [reflexivity|]. now exists e.
    + right. split; [reflexivity|].
      unfold bind at 1 in H. unfold setState at 1 in H.
      apply assistantSays_run in H as (_ & Hm & Hs).
      eexists q, _. split; [reflexivity|]. split; [exact Hm | exact Hs].
Qed.

Lemma ragFlow_run (c : Collaborators) (t : jsstring) (s s' : Session)
    (r : Error + TurnBody) :
  ragFlow docs retrieveDocs c t s = (s', r) ->
  (exists e msgs, llm c msgs = inl e /\ r = inl e /\ s' = s)
  \/ (exists msgs out,
        llm c msgs = inr out
        /\ let txt := match out with [] => llmFallback | _ => out end in
           messages s' = messages s ++ [assistantEntry txt]
           /\ said c t txt (ragExtra (map doc_id (contextDocs t))) r).
Proof.
  intros H. unfold ragFlow in H.
  unfold bind at 1 in H. unfold getMessages at 1 in H.
  unfold bind at 1 in H. unfold llmReply at 1 in H.
  unfold bind at 1 in H. unfold await at 1 in H.
  destruct (llm c _) as [e|out] eqn:El.
  - left. injection H as <- <-. exists e. eexists. split; [exact El | now split].
  - right. unfold ret at 1 in H.
    apply assistantSays_run in H as (_ & Hm & Hs).
    eexists _, out. split; [exact El|]. cbv zeta. split; [exact Hm | exact Hs].
Qed.

Lemma routeTurn_run (c : Collaborators) (t : jsstring) (nv : bool) (s s' : Session)
    (r : Error + TurnBody) :
  routeTurn docs retrieveDocs c t nv s = (s', r) ->
  let st2 := intentState t (state s) in
  (exists p,
      (premium st2 = Some p \/ premium st2 = None /\ p = freshDraft (lastPremium st2) nv)
      /\ (is_Some (premium (state s)) \/ isPremiumIntent t (state s) = true)
      /\ premiumFlow c t p {| messages := messages s; state := set_premium (Some p) st2 |}
         = (s', r))
  \/ (premium (state s) = None
      /\ isPremiumIntent t (state s) = false
      /\ ragFlow docs retrieveDocs c t {| messages := messages s; state := st2 |} = (s', r)).
Proof.
  intros H st2. unfold routeTurn in H.
  unfold bind at 1 in H. unfold getState at 1 in H.
  unfold bind at 1 in H. unfold setState at 1 in H. fold st2 in H.
  destruct (_ || _) eqn:E in H.
  - left. unfold bind at 1 in H. unfold getState at 1 in H. cbn [state] in H.
    assert (Hin : is_Some (premium (state s)) \/ isPremiumIntent t (state s) = true).
    { apply orb_true_iff in E as [E|E]; [left; now apply bool_decide_eq_true in E | now right]. }
    destruct (premium st2) as [p|] eqn:Ep.
    + exists p. split; [now left|]. split; [exact Hin|].
      now rewrite (set_premium_same st2 p Ep).
    + exists (freshDraft (lastPremium st2) nv). split; [now right|]. split; [exact Hin|].
      unfold bind at 1 in H. unfold setState at 1 in H. exact H.
  - right. apply orb_false_iff in E as [E1 E2].
    split; [|split; [exact E2 | exact H]].
    apply bool_decide_eq_false in E1. destruct (premium (state s)); [|reflexivity].
    exfalso. apply E1. now eexists.
Qed.

(** What the comparison block does to the log. *)
Lemma comparisonBlock_run (c : Collaborators) (t : jsstring) (pc : PendingComparison)
    (s s' : Session) (r : Error + option TurnBody) :
  comparisonBlock c t pc s = (s', r) ->
  (exists txt,
      In txt comparisonReplies
      /\ messages s' = messages s ++ [assistantEntry txt]
      /\ ((exists e, tts c txt = inl e /\ r = inl e)
          \/ (exists mp3, tts c txt = inr mp3
                /\ r = inr (Some {| transcript := t; replyText := txt; replyAudio := mp3;
                                    extra := noExtra |}))))
  \/ (r = inr None /\ messages s' = messages s).
Proof.
  intros H. unfold comparisonBlock in H.
  assert (Hsay : forall txt s0 s1 (r1 : Error + option TurnBody),
             (let* b := assistantSays c t txt noExtra in ret (Some b)) s0 = (s1, r1) ->
             messages s1 = messages s0 ++ [assistantEntry txt]
             /\ ((exists e, tts c txt = inl e /\ r1 = inl e)
                 \/ (exists mp3, tts c txt = inr mp3
                       /\ r1 = inr (Some {| transcript := t; replyText := txt;
                                            replyAudio := mp3; extra := noExtra |})))).
  { intros txt s0 s1 r1 H1. run_monad_in H1.
    destruct (tts c txt) as [e|mp3] eqn:Et; injection H1 as <- <-.
    - split; [reflexivity|]. left. exists e. split; reflexivity.
    - split; [reflexivity|]. right. exists mp3. split; reflexivity. }
  assert (Hin : forall n txt, nth_error comparisonReplies n = Some txt ->
                              In txt comparisonReplies)
    by (intros n txt; apply nth_error_In).
  destruct (_ && _) eqn:E1 in H.
  { left. apply Hsay in H as [H1 H2]. eexists. split; [exact (Hin 0%nat _ eq_refl)|].
    split; [exact H1 | exact H2]. }
  destruct (_ && _) eqn:E2 in H.
  { right. run_monad_in H. injection H as <- <-. split; reflexivity. }
  destruct (negb _) eqn:E3 in H.
  { left. unfold bind at 1 in H. unfold getState at 1 in H.
    unfold bind at 1 in H. unfold setState at 1 in H.
    apply Hsay in H as [H1 H2]. eexists. split; [exact (Hin 1%nat _ eq_refl)|].
    split; [exact H1 | exact H2]. }
  destruct (_ && _) eqn:E4 in H.
  { right. run_monad_in H. injection H as <- <-. split; reflexivity. }
  destruct (isNegative t) eqn:E5.
  { left. unfold bind at 1 in H. unfold getState at 1 in H.
    unfold bind at 1 in H. unfold setState at 1 in H.
    apply Hsay in H as [H1 H2]. eexists. split; [exact (Hin 2%nat _ eq_refl)|].
    split; [exact H1 | exact H2]. }
  destruct (isAffirmative t) eqn:E6.
  - destruct (options pc) as [|chosen [|x l]] eqn:Eo.
    + left. apply Hsay in H as [H1 H2]. eexists. split; [exact (Hin 3%nat _ eq_refl)|].
      split; [exact H1 | exact H2].
    + right. run_monad_in H. injection H as <- <-. split; reflexivity.
    + left. apply Hsay in H as [H1 H2]. eexists. split; [exact (Hin 3%nat _ eq_refl)|].
      split; [exact H1 | exact H2].
  - left. apply Hsay in H as [H1 H2]. eexists. split; [exact (Hin 4%nat _ eq_refl)|].
    split; [exact H1 | exact H2].
Qed.

(** The handler's body, down to the block or the route that answers. *)
Lemma turnBody_run (c : Collaborators) (audio : Buffer) (filename : jsstring)
    (s s' : Session) (r : Error + TurnBody) :
  turnBody docs retrieveDocs c audio filename s = (s', r) ->
  (exists e, stt c audio filename = inl e /\ s' = s /\ r = inl e)
  \/ (exists text,
        stt c audio filename = inr text
        /\ let t := trim text in
           let s0 := {| messages := messages s ++ [userEntry t];
                        state := vehicleState t (state s) |} in
           (exists pc s1 r1,
               pendingComparison (state s0) = Some pc
               /\ comparisonBlock c t pc s0 = (s1, r1)
               /\ ((exists e, r1 = inl e /\ s' = s1 /\ r = inl e)
                   \/ (exists b, r1 = inr (Some b) /\ s' = s1 /\ r = inr b)
                   \/ (r1 = inr None
                       /\ routeTurn docs retrieveDocs c t (wantsNewVehicle t) s1 = (s', r))))
           \/ (pendingComparison (state s0) = None
               /\ routeTurn docs retrieveDocs c t (wantsNewVehicle t) s0 = (s', r))).
Proof.
  intros H. unfold turnBody in H.
  unfold bind at 1 in H. unfold sttTranscribe in H. run_monad_in H.
  destruct (stt c audio filename) as [e|text] eqn:Es.
  { left. exists e. injection H as <- <-. split; [reflexivity|]. split; reflexivity. }
  right. exists text. split; [reflexivity|]. cbv beta iota in H. cbn [state messages] in H.
  cbv zeta. fold (userEntry (trim text)) in H.
  set (t := trim text) in *.
  set (s0 := {| messages := messages s ++ [userEntry t]; state := vehicleState t (state s) |})
    in *.
  change (vehicleState t (state s)) with (state s0) in H.
  destruct (pendingComparison (state s0)) as [pc|] eqn:Epc.
  - left. destruct (comparisonBlock c t pc s0) as [s1 r1] eqn:Ec.
    exists pc, s1, r1. split; [reflexivity|]. split; [exact Ec|].
    destruct r1 as [e|[b|]].
    + left. exists e. injection H as <- <-. split; [reflexivity|]. split; reflexivity.
    + right. left. exists b. injection H as <- <-. split; [reflexivity|]. split; reflexivity.
    + right. right. split; [reflexivity | exact H].
  - right. split; [reflexivity | exact H].
Qed.

End RunFacts.

(** ** The log of a conversation *)

(** What a flow that answers the utterance [t] leaves in the log: on
    success the assistant's entry, which is the reply text of the response
    and is not empty; when it throws, nothing, or the entry of a reply whose
    synthesis threw. *)
Definition logged (c : Collaborators) (t : jsstring) (old new : list Message)
    (r : Error + TurnBody) : Prop :=
  match r with
  | inr b =>
      transcript b = t /\ replyText b <> []
      /\ new = old ++ [assistantEntry (replyText b)]
  | inl e =>
      new = old
      \/ exists txt, new = old ++ [assistantEntry txt] /\ tts c txt = inl e
  end.

Lemma said_logged (c : Collaborators) (t txt : jsstring) (x : Extra)
    (old new : list Message) (r : Error + TurnBody) :
  txt <> [] -> new = old ++ [assistantEntry txt] -> said c t txt x r ->
  logged c t old new r.
Proof.
  intros Hne Hm [(e & He & ->) | (mp3 & _ & ->)]; cbn [logged].
  - right. exists txt. split; [exact Hm | exact He].
  - cbn [transcript replyText]. split; [reflexivity|]. split; [exact Hne | exact Hm].
Qed.

Lemma questionText_nonempty (slot : jsstring) : questionText slot <> [].
Proof.
  unfold questionText. intros E. apply app_eq_nil in E as [E _]. vm_compute in E. discriminate.
Qed.

Lemma quoteText_nonempty (p : Draft) (q : Quote) (followUp : jsstring) :
  quoteText p q followUp <> [].
Proof.
  unfold quoteText. intros E. apply app_eq_nil in E as [E _]. vm_compute in E. discriminate.
Qed.

Lemma comparisonReplies_nonempty (txt : jsstring) : In txt comparisonReplies -> txt <> [].
Proof.
  assert (H : forallb (fun t => negb (bool_decide (t = []))) comparisonReplies = true)
    by (vm_compute; reflexivity).
  rewrite forallb_forall in H. intros Hin. specialize (H txt Hin).
  apply negb_true_iff, bool_decide_eq_false in H. exact H.
Qed.

Section LogFacts.
Context `{U : Unicode}.
Variable docs : list Doc.
Variable retrieveDocs : jsstring -> list Doc -> nat -> list Doc.

Lemma premiumFlow_logged (c : Collaborators) (t : jsstring) (p : Draft)
    (s s' : Session) (r : Error + TurnBody) :
  premiumFlow c t p s = (s', r) -> logged c t (messages s) (messages s') r.
Proof.
  intros H. apply premiumFlow_run in H. cbv zeta in H.
  destruct H as [(slot & _ & Hm & Hs) | [(_ & Hm & _ & e & _ & ->) | (_ & q & f & _ & Hm & Hs)]].
  - eapply said_logged; [apply questionText_nonempty | exact Hm | exact Hs].
  - left. exact Hm.
  - eapply said_logged; [apply quoteText_nonempty | exact Hm | exact Hs].
Qed.

Lemma ragFlow_logged (c : Collaborators) (t : jsstring) (s s' : Session)
    (r : Error + TurnBody) :
  ragFlow docs retrieveDocs c t s = (s', r) -> logged c t (messages s) (messages s') r.
Proof.
  intros H. apply ragFlow_run in H.
  destruct H as [(e & msgs & _ & -> & ->) | (msgs & out & _ & Hm & Hs)].
  - now left.
  - cbv zeta in Hm, Hs. eapply said_logged; [| exact Hm | exact Hs].
    destruct out; [vm_compute; discriminate | discriminate].
Qed.

Lemma routeTurn_logged (c : Collaborators) (t : jsstring) (nv : bool) (s s' : Session)
    (r : Error + TurnBody) :
  routeTurn docs retrieveDocs c t nv s = (s', r) -> logged c t (messages s) (messages s') r.
Proof.
  intros H. apply routeTurn_run in H. cbv zeta in H.
  destruct H as [(p & _ & _ & H) | (_ & _ & H)].
  - apply premiumFlow_logged in H. exact H.
  - apply ragFlow_logged in H. exact H.
Qed.

(** The log after the body of a turn. *)
Lemma turnBody_logged (c : Collaborators) (audio : Buffer) (filename : jsstring)
    (s s' : Session) (r : Error + TurnBody) :
  turnBody docs retrieveDocs c audio filename s = (s', r) ->
  (s' = s /\ exists e, stt c audio filename = inl e /\ r = inl e)
  \/ exists text,
       stt c audio filename = inr text
       /\ logged c (trim text) (messages s ++ [userEntry (trim text)]) (messages s') r.
Proof.
  intros H. apply turnBody_run in H.
  destruct H as [(e & He & -> & ->) | (text & Hs & H)].
  { left. split; [reflexivity|]. now exists e. }
  right. exists text. split; [exact Hs|]. cbv zeta in H.
  destruct H as [(pc & s1 & r1 & _ & Hc & H) | (_ & H)].
  - pose proof (comparisonBlock_run _ _ _ _ _ _ Hc) as Hrun. cbn [messages] in Hrun.
    destruct H as [(e & -> & -> & ->) | [(b & -> & -> & ->) | (-> & H)]].
    + destruct Hrun as [(txt & _ & Hm & [(e' & He & E) | (mp3 & _ & E)]) | [E _]];
        try discriminate.
      injection E as <-. right. exists txt. split; [exact Hm | exact He].
    + destruct Hrun as [(txt & Hin & Hm & [(e' & _ & E) | (mp3 & _ & E)]) | [E _]];
        try discriminate.
      injection E as ->. cbn [logged transcript replyText].
      split; [reflexivity|]. split; [now apply comparisonReplies_nonempty | exact Hm].
    + destruct Hrun as [(txt & _ & _ & [(e' & _ & E) | (mp3 & _ & E)]) | [_ Hm]];
        try discriminate.
      apply routeTurn_logged in H. rewrite Hm in H. exact H.
  - apply routeTurn_logged in H. exact H.
Qed.

(** X12: a turn only appends to the log of its session. A successful turn
    appends exactly two entries, the user's with the transcript and the
    assistant's with the reply text of the response, which is never empty;
    a turn without audio appends nothing; a turn that fails appends
    nothing, the user's entry, or the user's entry and the entry of a reply
    whose synthesis threw. *)
Theorem turn_appends_to_log (c : Collaborators) (req : Request)
    (sessions sessions' : gmap jsstring Session) (resp : Response) :
  turn docs retrieveDocs c req sessions = (sessions', resp) ->
  exists sess',
    sessions' !! sessionKey req = Some sess'
    /\ match resp with
       | Json b =>
           replyText b <> []
           /\ messages sess'
              = messages (sessionOf req sessions)
                ++ [userEntry (transcript b); assistantEntry (replyText b)]
       | Status400 _ => messages sess' = messages (sessionOf req sessions)
       | Status500 e =>
           messages sess' = messages (sessionOf req sessions)
           \/ (exists t,
                 messages sess' = messages (sessionOf req sessions) ++ [userEntry t])
           \/ (exists t txt,
                 messages sess'
                 = messages (sessionOf req sessions) ++ [userEntry t; assistantEntry txt]
                 /\ tts c txt = inl e)
       end.
Proof.
  intros H. apply turn_sessions in H as [_ [[-> Hk] | (audio & name & sess' & r & _ & Hb & Hk & ->)]].
  { eexists. split; [exact Hk | reflexivity]. }
  exists sess'. split; [exact Hk|].
  apply turnBody_logged in Hb as [(-> & e & _ & ->) | (text & _ & Hlog)].
  { now left. }
  destruct r as [e|b]; cbn [logged] in Hlog.
  - destruct Hlog as [Hm | (txt & Hm & He)].
    + right. left. now exists (trim text).
    + right. right. exists (trim text), txt. split; [|exact He].
      rewrite Hm, <- app_assoc. reflexivity.
  - destruct Hlog as (Ht & Hne & Hm). split; [exact Hne|].
    rewrite Hm, <- app_assoc, Ht. reflexivity.
Qed.

(** The log of a session starts with the system prompt; what follows are
    entries of the user and of the assistant. *)
Definition conversationLog (msgs : list Message) : Prop :=
  exists rest,
    msgs = {| role := js "system"; content := systemPrompt |} :: rest
    /\ Forall (fun m => role m = js "user" \/ role m = js "assistant") rest.

Lemma conversationLog_app (msgs more : list Message) :
  conversationLog msgs ->
  Forall (fun m => role m = js "user" \/ role m = js "assistant") more ->
  conversationLog (msgs ++ more).
Proof.
  intros (rest & -> & Hr) Hm. exists (rest ++ more). split; [reflexivity|].
  apply Forall_app. now split.
Qed.

Lemma newSession_log : conversationLog (messages newSession).
Proof. exists []. split; [reflexivity | constructor]. Qed.

(** What a turn adds to the log of its session are entries of the user and
    of the assistant. *)
Lemma turn_log_entries (c : Collaborators) (req : Request)
    (sessions sessions' : gmap jsstring Session) (resp : Response) :
  turn docs retrieveDocs c req sessions = (sessions', resp) ->
  exists sess' more,
    sessions' !! sessionKey req = Some sess'
    /\ messages sess' = messages (sessionOf req sessions) ++ more
    /\ Forall (fun m => role m = js "user" \/ role m = js "assistant") more.
Proof.
  intros H.
  assert (Hu : forall t, role (userEntry t) = js "user" \/ role (userEntry t) = js "assistant")
    by (intros t; now left).
  assert (Ha : forall t, role (assistantEntry t) = js "user"
                         \/ role (assistantEntry t) = js "assistant")
    by (intros t; now right).
  apply turn_sessions in H as [_ [[-> Hk] | (audio & name & sess' & r & _ & Hb & Hk & ->)]].
  { eexists _, []. split; [exact Hk|]. split; [now rewrite app_nil_r | constructor]. }
  exists sess'.
  apply turnBody_logged in Hb as [(-> & e & _ & ->) | (text & _ & Hlog)].
  { exists []. split; [exact Hk|]. split; [now rewrite app_nil_r | constructor]. }
  destruct r as [e|b]; cbn [logged] in Hlog.
  - destruct Hlog as [Hm | (txt & Hm & He)].
    + exists [userEntry (trim text)]. split; [exact Hk|]. split; [exact Hm|].
      constructor; [apply Hu | constructor].
    + exists [userEntry (trim text); assistantEntry txt]. split; [exact Hk|].
      split; [rewrite Hm, <- app_assoc; reflexivity|].
      constructor; [apply Hu | constructor; [apply Ha | constructor]].
  - destruct Hlog as (Ht & Hne & Hm).
    exists [userEntry (trim text); assistantEntry (replyText b)]. split; [exact Hk|].
    split; [rewrite Hm, <- app_assoc; reflexivity|].
    constructor; [apply Hu | constructor; [apply Ha | constructor]].
Qed.

(** X13: in every session the server can come to hold, the log starts with
    the system prompt and holds, after it, only entries of the user and of
    the assistant: the system message of the RAG flow is never stored. *)
Theorem log_starts_with_system_prompt (sessions : gmap jsstring Session)
    (k : jsstring) (sess : Session) :
  reachable docs retrieveDocs sessions -> sessions !! k = Some sess ->
  exists rest,
    messages sess = {| role := js "system"; content := systemPrompt |} :: rest
    /\ Forall (fun m => role m = js "user" \/ role m = js "assistant") rest.
Proof.
  intros Hr. revert k sess.
  induction Hr as [| c req ss Hr IH | req ss Hr IH]; intros k sess Hl.
  - now rewrite lookup_empty in Hl.
  - destruct (turn docs retrieveDocs c req ss) as [ss' resp] eqn:Et. cbn [fst] in Hl.
    assert (Hold : conversationLog (messages (sessionOf req ss))).
    { unfold sessionOf, getSession. destruct (ss !! sessionKey req) eqn:E; cbn [snd].
      - now apply (IH _ _ E).
      - apply newSession_log. }
    destruct (decide (k = sessionKey req)) as [->|Hne].
    + apply turn_log_entries in Et as (sess' & more & Hk & Hm & Hmore).
      rewrite Hk in Hl. injection Hl as <-. rewrite Hm.
      now apply conversationLog_app.
    + apply turn_sessions in Et as [Hother _].
      destruct (Hother k sess Hne Hl) as [H1 | ->].
      * now apply (IH _ _ H1).
      * apply newSession_log.
  - unfold reset in Hl. apply lookup_delete_Some in Hl as [_ Hl]. now apply (IH _ _ Hl).
Qed.

End LogFacts.

(** ** Slots, once filled *)

Lemma missingSlot_names (p : Draft) (slot : jsstring) :
  missingSlot p = Some slot ->
  slot = js "vehicleAge" \/ slot = js "horsepower" \/ slot = js "coverageLevel".
Proof.
  unfold missingSlot.
  destruct (vehicleAge p); [destruct (horsepower p); [destruct (negb _); [|discriminate]|]|];
    intros H; apply (inj Some) in H; subst slot; tauto.
Qed.

Section SlotFacts.
Context `{U : Unicode}.

(** Filling slots from an utterance empties none. *)
Lemma fillSlots_keeps (t : jsstring) (p : Draft) :
  (vehicleAge p <> None -> vehicleAge (fillSlots t p) <> None)
  /\ (horsepower p <> None -> horsepower (fillSlots t p) <> None)
  /\ (truthy (coverageLevel p) = true -> truthy (coverageLevel (fillSlots t p)) = true).
Proof.
  unfold fillSlots, applySlots. cbv zeta. cbn [vehicleAge horsepower coverageLevel].
  split; [|split].
  - intros H.
    match goal with |- match ?x with _ => _ end <> None => destruct x end;
      [discriminate | exact H].
  - intros H.
    match goal with |- match ?x with _ => _ end <> None => destruct x end;
      [discriminate | exact H].
  - intros H.
    match goal with |- truthy (if truthy ?x then _ else _) = true => destruct (truthy x) eqn:E end;
      [exact E | exact H].
Qed.

Lemma fillSlots_complete (t : jsstring) (p : Draft) :
  missingSlot p = None -> missingSlot (fillSlots t p) = None.
Proof.
  intros H. apply missingSlot_priority in H as (Ha & Hh & Hc).
  destruct (fillSlots_keeps t p) as (Ka & Kh & Kc).
  apply missingSlot_priority. split; [now apply Ka|]. split; [now apply Kh | now apply Kc].
Qed.

(** X14: the premium flow never asks for a slot the draft already holds.
    When it answers with a question, every slot that was filled before the
    utterance is still filled in the draft of the response, the slot asked
    for is one of vehicleAge, horsepower and coverageLevel, and it is one
    that was empty before the utterance. *)
Theorem filled_slots_are_not_asked (c : Collaborators) (t : jsstring) (p : Draft)
    (s s' : Session) (b : TurnBody) (pd : Draft) :
  premiumFlow c t p s = (s', inr b) -> x_premium (extra b) = Some pd ->
  (vehicleAge p <> None ->
   vehicleAge pd <> None /\ pendingSlot pd <> Some (js "vehicleAge"))
  /\ (horsepower p <> None ->
      horsepower pd <> None /\ pendingSlot pd <> Some (js "horsepower"))
  /\ (truthy (coverageLevel p) = true ->
      truthy (coverageLevel pd) = true /\ pendingSlot pd <> Some (js "coverageLevel"))
  /\ (pendingSlot pd = Some (js "vehicleAge") \/ pendingSlot pd = Some (js "horsepower")
      \/ pendingSlot pd = Some (js "coverageLevel")).
Proof.
  intros H Hpd. apply premiumFlow_cases in H. cbv zeta in H.
  destruct (fillSlots_keeps t p) as (Ka & Kh & Kc).
  pose proof (missingSlot_priority (fillSlots t p)) as (Ma & Mh & Mc & _ & _).
  destruct H as [(slot & Hm & _ & Hx) | [(_ & _ & e & He) | (_ & _ & q & _ & Hx)]].
  - rewrite (Hx b eq_refl) in Hpd. injection Hpd as <-.
    cbn [set_pendingSlot vehicleAge horsepower coverageLevel pendingSlot].
    split; [|split; [|split]].
    + intros Hp. split; [now apply Ka|]. rewrite <- Hm. intros E. apply Ma in E.
      now apply Ka in Hp.
    + intros Hp. split; [now apply Kh|]. rewrite <- Hm. intros E. apply Mh in E as [_ E].
      now apply Kh in Hp.
    + intros Hp. split; [now apply Kc|]. rewrite <- Hm. intros E.
      apply Mc in E as (_ & _ & E). apply Kc in Hp. congruence.
    + destruct (missingSlot_names _ _ Hm) as [E | [E | E]]; rewrite E;
        [left | right; left | right; right]; reflexivity.
  - discriminate.
  - rewrite (Hx b eq_refl) in Hpd. discriminate.
Qed.

End SlotFacts.

(** ** What can fail in a turn *)

Definition horsepowerError : jsstring := js "horsepower must be a positive number".

Section FailureFacts.
Context `{U : Unicode}.

(** A complete draft with slots in range is priced, unless its horsepower
    is 0. *)
Lemma complete_draft_is_priced (p : Draft) :
  wellFormedDraft p -> missingSlot p = None ->
  (exists q,
      calculate_premium (ZtoNumber (default 0%Z (vehicleAge p)))
        (ZtoNumber (default 0%Z (horsepower p))) (city p) (coverageLevel p) = inr q)
  \/ (horsepower p = Some 0%Z
      /\ calculate_premium (ZtoNumber (default 0%Z (vehicleAge p)))
           (ZtoNumber (default 0%Z (horsepower p))) (city p) (coverageLevel p)
         = inl horsepowerError).
Proof.
  intros (Ha & Hh & _) Hm. apply missingSlot_priority in Hm as (Ea & Eh & Ec).
  destruct (vehicleAge p) as [a|]; [|congruence].
  destruct (horsepower p) as [h|]; [|congruence].
  destruct (coverageLevel p) as [[|x l]|]; try discriminate.
  specialize (Ha a eq_refl). specialize (Hh h eq_refl).
  change (default 0%Z (Some a)) with a. change (default 0%Z (Some h)) with h.
  pose proof (ages_accepted a Ha) as Va. unfold acceptedAge in Va.
  apply andb_true_iff in Va as [Va1 Va2]. apply negb_true_iff in Va2.
  destruct (Z.eq_dec h 0%Z) as [->|Hne].
  - right. split; [reflexivity|]. unfold calculate_premium. cbv zeta.
    assert (E0 : negb (is_finite (ZtoNumber 0)) || (ZtoNumber 0 <=? 0)%float = true)
      by (vm_compute; reflexivity).
    rewrite Va1, Va2, E0. cbn [negb orb]. exact eq_refl.
  - left. pose proof (hps_accepted h ltac:(lia)) as Vh. unfold acceptedHp in Vh.
    apply andb_true_iff in Vh as [Vh1 Vh2]. apply negb_true_iff in Vh2.
    eexists. apply calculate_premium_accepted; (assumption || discriminate).
Qed.

Lemma defaultCity_slots (p : Draft) :
  vehicleAge (defaultCity p) = vehicleAge p
  /\ horsepower (defaultCity p) = horsepower p
  /\ coverageLevel (defaultCity p) = coverageLevel p
  /\ missingSlot (defaultCity p) = missingSlot p.
Proof. unfold defaultCity. now destruct (truthy (city p)). Qed.

Variable docs : list Doc.
Variable retrieveDocs : jsstring -> list Doc -> nat -> list Doc.

(** Where the error of a flow comes from. *)
Definition errorSource (c : Collaborators) (e : Error) (st' : State) : Prop :=
  (exists msgs, llm c msgs = inl e)
  \/ (exists txt, tts c txt = inl e)
  \/ (e = horsepowerError
      /\ exists p, premium st' = Some p /\ horsepower p = Some 0%Z).

Lemma said_error (c : Collaborators) (t txt : jsstring) (x : Extra) (e : Error) :
  said c t txt x (inl e) -> exists txt, tts c txt = inl e.
Proof.
  intros [(e' & He & E) | (mp3 & _ & E)]; [|discriminate].
  injection E as ->. now exists txt.
Qed.

Lemma premiumFlow_error (c : Collaborators) (t : jsstring) (p : Draft)
    (s s' : Session) (e : Error) :
  wellFormedDraft p -> premiumFlow c t p s = (s', inl e) -> errorSource c e (state s').
Proof.
  intros Hp H. apply premiumFlow_run in H. cbv zeta in H.
  destruct H as [(slot & _ & _ & Hs) | [(Hm & _ & Hst & e' & Hc & E) | (_ & q & f & _ & _ & Hs)]].
  - right. left. now apply said_error in Hs.
  - injection E as <-. right. right.
    pose proof (defaultCity_wf _ (fillSlots_wf t p Hp)) as Hw.
    destruct (defaultCity_slots (fillSlots t p)) as (_ & _ & _ & Em). rewrite <- Em in Hm.
    destruct (complete_draft_is_priced _ Hw Hm) as [[q Hq] | [Hh Hq]]; [congruence|].
    rewrite Hq in Hc. injection Hc as <-. split; [reflexivity|].
    eexists. rewrite Hst. split; [reflexivity | exact Hh].
  - right. left. now apply said_error in Hs.
Qed.

Lemma routeTurn_error (c : Collaborators) (t : jsstring) (nv : bool) (s s' : Session)
    (e : Error) :
  wellFormedState (state s) ->
  routeTurn docs retrieveDocs c t nv s = (s', inl e) -> errorSource c e (state s').
Proof.
  intros Hst H. pose proof (intentState_wf t _ Hst) as H2.
  apply routeTurn_run in H. cbv zeta in H.
  destruct H as [(p & Hp & _ & H) | (_ & _ & H)].
  - eapply premiumFlow_error; [|exact H].
    destruct Hp as [Hp | [_ ->]].
    + now apply (proj1 H2 p Hp).
    + apply freshDraft_wf. apply (proj1 (proj2 H2)).
  - apply ragFlow_run in H as [(e' & msgs & Hl & E & _) | (msgs & out & _ & _ & Hs)].
    + injection E as <-. left. now exists msgs.
    + right. left. now apply said_error in Hs.
Qed.

(** The state the comparison block leaves when it falls through. *)
Lemma comparisonBlock_through (c : Collaborators) (t : jsstring) (pc : PendingComparison)
    (s s' : Session) :
  wellFormedState (state s) -> pendingComparison (state s) = Some pc ->
  comparisonBlock c t pc s = (s', inr None) ->
  wellFormedState (state s') /\ pendingComparison (state s') = None.
Proof.
  intros Hst Hpc H.
  apply comparisonBlock_cases in H as [(H & _) | (_ & _ & [-> | (lvl & Hl & ->)])].
  - congruence.
  - split; [now apply no_offer_wf | reflexivity].
  - split; [|reflexivity].
    apply set_premium_wf; [now apply no_offer_wf | | reflexivity].
    exact (comparisonDraft_wf _ pc lvl Hst Hpc Hl).
Qed.

(** X15: the error of a turn. In a session the server can come to hold, a
    turn that answers 500 reports the error of the transcription, of the
    answering model or of the speech synthesis, or the calculator's refusal
    of a horsepower of 0, which the draft left in the session then holds:
    the calculator's other two refusals, of the age and of the tier, never
    occur. *)
Theorem turn_errors (c : Collaborators) (req : Request)
    (sessions sessions' : gmap jsstring Session) (e : Error) :
  reachable docs retrieveDocs sessions ->
  turn docs retrieveDocs c req sessions = (sessions', Status500 e) ->
  (exists audio name, stt c audio name = inl e)
  \/ (exists msgs, llm c msgs = inl e)
  \/ (exists txt, tts c txt = inl e)
  \/ (e = horsepowerError
      /\ exists sess' p,
           sessions' !! sessionKey req = Some sess'
           /\ premium (state sess') = Some p
           /\ horsepower p = Some 0%Z).
Proof.
  intros Hr H.
  assert (Hw : wellFormedState (state (sessionOf req sessions))).
  { unfold sessionOf, getSession. destruct (sessions !! sessionKey req) eqn:E; cbn [snd].
    - exact (reachable_wf docs retrieveDocs sessions Hr _ _ E).
    - apply emptyState_wf. }
  apply turn_sessions in H as [_ [[H _] | (audio & name & sess' & r & _ & Hb & Hk & Hresp)]];
    [discriminate|].
  destruct r as [e'|b]; [|discriminate]. injection Hresp as <-.
  assert (Hsrc : (exists audio name, stt c audio name = inl e) \/ errorSource c e (state sess')).
  { apply turnBody_run in Hb as [(e' & He & _ & E) | (text & _ & Hb)].
    { injection E as <-. left. exists audio. eexists. exact He. }
    right. cbv zeta in Hb. set (t := trim text) in *.
    assert (H0 : wellFormedState (vehicleState t (state (sessionOf req sessions))))
      by now apply vehicleState_wf.
    destruct Hb as [(pc & s1 & r1 & Hpc & Hc & Hb) | (_ & Hb)]; cbn [state] in *.
    - destruct Hb as [(e' & -> & -> & E) | [(b & _ & _ & E) | (-> & Hb)]]; [| discriminate |].
      + injection E as <-.
        apply comparisonBlock_run in Hc as [(txt & _ & _ & [(e' & He & E) | (mp3 & _ & E)]) | [E _]];
          try discriminate.
        injection E as <-. right. left. now exists txt.
      + apply comparisonBlock_through in Hc as [Hw1 _]; [| exact H0 | exact Hpc].
        eapply routeTurn_error; [exact Hw1 | exact Hb].
    - eapply routeTurn_error; [|exact Hb]. exact H0. }
  destruct Hsrc as [Hs | [Hl | [Ht | (-> & p & Hp & Hh)]]].
  - now left.
  - right. now left.
  - right. right. now left.
  - right. right. right. split; [reflexivity|]. now exists sess', p.
Qed.

(** The comparison block falls through on an informational question, or
    with the draft of an offered tier. *)
Lemma comparisonBlock_fallthrough (c : Collaborators) (t : jsstring) (pc : PendingComparison)
    (s s' : Session) :
  comparisonBlock c t pc s = (s', inr None) ->
  (looksLikeInfoQuestion t = true /\ hasCalcWording t = false
   /\ state s' = set_pendingComparison None (state s))
  \/ (exists lvl,
        lvl ∈ options pc
        /\ state s' = set_premium (Some (comparisonDraft (lastPremium (state s)) lvl))
                        (set_pendingComparison None (state s))).
Proof.
  intros H. unfold comparisonBlock in H.
  assert (Hsay : forall txt s0 s1,
             (let* b := assistantSays c t txt noExtra in ret (Some b)) s0 = (s1, inr None) ->
             False).
  { intros txt s0 s1 H1. run_monad_in H1.
    destruct (tts c txt) as [e|mp3]; discriminate. }
  destruct (_ && _) eqn:E1 in H; [now apply Hsay in H|].
  destruct (_ && _) eqn:E2 in H.
  { left. run_monad_in H. injection H as <-.
    apply andb_true_iff in E2 as [E2 E2c]. apply andb_true_iff in E2 as [E2a _].
    apply negb_true_iff in E2c. split; [exact E2a|]. split; [exact E2c | reflexivity]. }
  destruct (negb _) eqn:E3 in H.
  { unfold bind at 1 in H. unfold getState at 1 in H.
    unfold bind at 1 in H. unfold setState at 1 in H. now apply Hsay in H. }
  destruct (_ && _) eqn:E4 in H.
  { right. run_monad_in H. injection H as <-.
    apply andb_true_iff in E4 as [_ E4]. apply bool_decide_eq_true in E4.
    eexists. split; [exact E4 | reflexivity]. }
  destruct (isNegative t) eqn:E5.
  { unfold bind at 1 in H. unfold getState at 1 in H.
    unfold bind at 1 in H. unfold setState at 1 in H. now apply Hsay in H. }
  destruct (isAffirmative t) eqn:E6; [|now apply Hsay in H].
  destruct (options pc) as [|chosen [|x l]] eqn:Eo; [now apply Hsay in H | | now apply Hsay in H].
  right. run_monad_in H. injection H as <-.
  exists chosen. split; [apply list_elem_of_singleton; reflexivity | reflexivity].
Qed.

Lemma intentState_premium (t : jsstring) (st : State) :
  premium (intentState t st) = premium st.
Proof. unfold intentState. now destruct (isNewPremiumReq t st). Qed.

Lemma said_extra (c : Collaborators) (t txt : jsstring) (x : Extra) (b : TurnBody) :
  said c t txt x (inr b) -> extra b = x.
Proof.
  intros [(e & _ & E) | (mp3 & _ & E)]; [discriminate|]. now injection E as ->.
Qed.

(** The draft of an offered tier, made from a remembered vehicle, misses
    no slot. *)
Lemma comparisonDraft_complete (st : State) (pc : PendingComparison) (lvl : jsstring) :
  wellFormedState st -> pendingComparison st = Some pc -> lvl ∈ options pc ->
  missingSlot (comparisonDraft (lastPremium st) lvl) = None.
Proof.
  intros (_ & H2 & _ & H4) Hpc Hl.
  destruct (H4 pc Hpc) as (_ & Ho & [lp Hlp]).
  destruct (H2 lp Hlp) as ((a & Ea & _) & (h & Eh & _) & _).
  rewrite Hlp. unfold comparisonDraft, missingSlot.
  cbn [vehicleAge horsepower coverageLevel mbind option_bind]. rewrite Ea, Eh.
  destruct (Ho lvl Hl) as [E|E]; rewrite E; reflexivity.
Qed.

(** X16: while a comparison offer is pending the agent asks for no slot. A
    successful turn that finds an offer pending, on an utterance that is no
    new-vehicle phrase, answers with one of the fixed replies of the
    comparison sub-dialogue, with a quote or from the documents: its
    response never carries a draft with a pending slot. *)
Theorem no_slot_question_on_an_offer (c : Collaborators) (req : Request)
    (sessions sessions' : gmap jsstring Session) (b : TurnBody) :
  reachable docs retrieveDocs sessions ->
  is_Some (pendingComparison (state (sessionOf req sessions))) ->
  turn docs retrieveDocs c req sessions = (sessions', Json b) ->
  wantsNewVehicle (transcript b) = false ->
  x_premium (extra b) = None.
Proof.
  intros Hr [pc0 Hpc0] H Hnv.
  assert (Hw : wellFormedState (state (sessionOf req sessions))).
  { unfold sessionOf, getSession. destruct (sessions !! sessionKey req) eqn:E; cbn [snd].
    - exact (reachable_wf docs retrieveDocs sessions Hr _ _ E).
    - apply emptyState_wf. }
  apply turn_sessions in H as [_ [[H _] | (audio & name & sess' & r & _ & Hb & _ & Hresp)]];
    [discriminate|].
  destruct r as [e'|b']; [discriminate|]. injection Hresp as <-.
  pose proof (turnBody_cases _ _ _ _ _ _ _ _ Hb) as [(e & _ & _ & E) | (text & Hs & Ht & _)];
    [discriminate|].
  specialize (Ht b eq_refl). rewrite Ht in Hnv.
  apply turnBody_run in Hb as [(e' & _ & _ & E) | (text' & Hs' & Hb)]; [discriminate|].
  rewrite Hs in Hs'. injection Hs' as <-. cbv zeta in Hb. cbn [state] in Hb.
  set (t := trim text) in *. set (st := state (sessionOf req sessions)) in *.
  assert (Hv : vehicleState t st = st) by (unfold vehicleState; now rewrite Hnv).
  rewrite Hv in Hb.
  destruct Hb as [(pc & s1 & r1 & Hpc & Hc & Hb) | (Hn & _)]; [|congruence].
  destruct Hb as [(e' & _ & _ & E) | [(b' & -> & _ & E) | (-> & Hb)]]; [discriminate | |].
  - injection E as <-.
    apply comparisonBlock_cases in Hc as [(_ & _ & Hx) | (E & _)]; [|discriminate].
    now rewrite (proj1 (Hx b eq_refl)).
  - pose proof (fun H1 H2 => comparisonBlock_through _ _ _ _ _ H1 H2 Hc) as Hth.
    cbn [state] in Hth. destruct (Hth Hw Hpc) as [Hw1 Hn1]. clear Hth.
    apply comparisonBlock_fallthrough in Hc as [(Hi & Hcw & Hst) | (lvl & Hl & Hst)];
      cbn [state] in Hst.
    + apply routeTurn_run in Hb. cbv zeta in Hb.
      destruct Hb as [(p & _ & [[p' Hp'] | Hint] & _) | (_ & _ & Hb)].
      * rewrite Hst in Hp'. cbn [set_pendingComparison premium] in Hp'.
        destruct (proj1 Hw p' Hp') as [_ E]. congruence.
      * unfold isPremiumIntent in Hint. rewrite Hn1 in Hint. cbv zeta in Hint.
        rewrite Hi, Hcw in Hint.
        rewrite bool_decide_eq_false_2 in Hint by (intros [? ?]; discriminate).
        discriminate.
      * apply ragFlow_run in Hb as [(e & msgs & _ & E & _) | (msgs & out & _ & _ & Hsaid)];
          [discriminate|].
        cbv zeta in Hsaid. now rewrite (said_extra _ _ _ _ _ Hsaid).
    + pose proof (comparisonDraft_complete _ _ _ Hw Hpc Hl) as Hcomplete.
      apply routeTurn_run in Hb. cbv zeta in Hb.
      rewrite intentState_premium, Hst in Hb. cbn [set_premium premium] in Hb.
      destruct Hb as [(p & [Hp | [Hp _]] & _ & Hb) | (Hp & _)]; try discriminate.
      injection Hp as <-.
      apply premiumFlow_run in Hb. cbv zeta in Hb.
      destruct Hb as [(slot & Hm & _) | [(_ & _ & _ & e & _ & E) | (_ & q & f & _ & _ & Hsaid)]].
      * rewrite (fillSlots_complete _ _ Hcomplete) in Hm. discriminate.
      * discriminate.
      * now rewrite (said_extra _ _ _ _ _ Hsaid).
Qed.

(** X17: while a draft is open the agent stays in the premium flow. A
    successful turn that finds a draft open, on an utterance that is no
    new-vehicle phrase, answers with a slot question or with a quote, and
    never from the documents, whatever the utterance asks. *)
Theorem open_draft_keeps_the_premium_flow (c : Collaborators) (req : Request)
    (sessions sessions' : gmap jsstring Session) (b : TurnBody) :
  reachable docs retrieveDocs sessions ->
  is_Some (premium (state (sessionOf req sessions))) ->
  turn docs retrieveDocs c req sessions = (sessions', Json b) ->
  wantsNewVehicle (transcript b) = false ->
  x_ragDocs (extra b) = None
  /\ (is_Some (x_premium (extra b)) \/ is_Some (x_premiumResult (extra b))).
Proof.
  intros Hr [p0 Hp0] H Hnv.
  assert (Hw : wellFormedState (state (sessionOf req sessions))).
  { unfold sessionOf, getSession. destruct (sessions !! sessionKey req) eqn:E; cbn [snd].
    - exact (reachable_wf docs retrieveDocs sessions Hr _ _ E).
    - apply emptyState_wf. }
  apply turn_sessions in H as [_ [[H _] | (audio & name & sess' & r & _ & Hb & _ & Hresp)]];
    [discriminate|].
  destruct r as [e'|b']; [discriminate|]. injection Hresp as <-.
  pose proof (turnBody_cases _ _ _ _ _ _ _ _ Hb) as [(e & _ & _ & E) | (text & Hs & Ht & _)];
    [discriminate|].
  specialize (Ht b eq_refl). rewrite Ht in Hnv.
  apply turnBody_run in Hb as [(e' & _ & _ & E) | (text' & Hs' & Hb)]; [discriminate|].
  rewrite Hs in Hs'. injection Hs' as <-. cbv zeta in Hb. cbn [state] in Hb.
  set (t := trim text) in *. set (st := state (sessionOf req sessions)) in *.
  assert (Hv : vehicleState t st = st) by (unfold vehicleState; now rewrite Hnv).
  rewrite Hv in Hb.
  destruct (proj1 Hw p0 Hp0) as [_ Hn].
  destruct Hb as [(pc & s1 & r1 & Hpc & _) | (_ & Hb)]; [congruence|].
  apply routeTurn_run in Hb. cbv zeta in Hb. cbn [state] in Hb.
  destruct Hb as [(p & _ & _ & Hb) | (Hnone & _)]; [|congruence].
  apply premiumFlow_run in Hb. cbv zeta in Hb.
  destruct Hb as [(slot & _ & _ & Hsaid) | [(_ & _ & _ & e & _ & E) | (_ & q & f & _ & _ & Hsaid)]].
  - rewrite (said_extra _ _ _ _ _ Hsaid). split; [reflexivity|]. left. now eexists.
  - discriminate.
  - rewrite (said_extra _ _ _ _ _ Hsaid). split; [reflexivity|]. right. now eexists.
Qed.

End FailureFacts.

(** ** The premium flow, the fields of a reply and the compared tiers *)

(** What [respondWithTTS] resolves to: the body of the response, or the
    error of the synthesis. *)
Definition spoken (c : Collaborators) (t txt : jsstring) (x : Extra) : Error + TurnBody :=
  match tts c txt with
  | inl e => inl e
  | inr mp3 => inr {| transcript := t; replyText := txt; replyAudio := mp3; extra := x |}
  end.

Lemma spoken_body (c : Collaborators) (t txt : jsstring) (x : Extra) (b : TurnBody) :
  spoken c t txt x = inr b -> transcript b = t /\ replyText b = txt /\ extra b = x.
Proof.
  unfold spoken. destruct (tts c txt) as [e|mp3]; [discriminate|].
  intros H. apply (inj inr) in H. subst b. split; [reflexivity|]. split; reflexivity.
Qed.

Lemma defaultCity_set_city (p : Draft) :
  defaultCity p = set_city (if truthy (city p) then city p else Some (js "Other")) p.
Proof.
  unfold defaultCity. destruct (truthy (city p)); [|reflexivity].
  destruct p; reflexivity.
Qed.

(** The vehicle a quote is made for. *)
Definition vehicleOf (p : Draft) : LastPremium :=
  {| lp_vehicleAge := vehicleAge p; lp_horsepower := horsepower p; lp_city := city p |}.

Section PremiumFlowRuns.
Context `{U : Unicode}.

(** The run of the premium flow while a slot is missing. *)
Lemma premiumFlow_question (c : Collaborators) (t : jsstring) (p : Draft) (s : Session)
    (slot : jsstring) :
  missingSlot (fillSlots t p) = Some slot ->
  let pd := set_pendingSlot (Some slot) (fillSlots t p) in
  premiumFlow c t p s
  = ({| messages := messages s ++ [assistantEntry (questionText slot)];
        state := set_premium (Some pd) (state s) |},
     spoken c t (questionText slot) (questionExtra pd)).
Proof.
  intros Hm pd. unfold premiumFlow. rewrite Hm. fold pd.
  run_monad. unfold spoken, assistantEntry.
  destruct (tts c (questionText slot)) as [e|mp3]; exact eq_refl.
Qed.

(** The run of the premium flow once the three slots are filled. *)
Lemma premiumFlow_complete (c : Collaborators) (t : jsstring) (p : Draft) (s : Session) :
  missingSlot (fillSlots t p) = None ->
  let p1 := fillSlots t p in
  let cty := if truthy (city p1) then city p1 else Some (js "Other") in
  let p2 := set_city cty p1 in
  match calculate_premium (ZtoNumber (default 0%Z (vehicleAge p1)))
          (ZtoNumber (default 0%Z (horsepower p1))) cty (coverageLevel p1) with
  | inl e =>
      premiumFlow c t p s
      = ({| messages := messages s; state := set_premium (Some p2) (state s) |}, inl e)
  | inr q =>
      exists followUp offer,
        premiumFlow c t p s
        = ({| messages := messages s ++ [assistantEntry (quoteText p2 q followUp)];
              state := {| premium := None;
                          lastPremium := Some (vehicleOf p2);
                          comparedLevels := {[ default [] (coverageLevel p1) ]}
                                            ∪ comparedLevels (state s);
                          pendingComparison := offer |} |},
           spoken c t (quoteText p2 q followUp) (quoteExtra q))
  end.
Proof.
  intros Hm p1 cty p2. unfold premiumFlow. rewrite Hm. fold p1.
  rewrite (defaultCity_set_city p1). fold cty. fold p2.
  change (vehicleAge p2) with (vehicleAge p1).
  change (horsepower p2) with (horsepower p1).
  change (city p2) with cty. change (coverageLevel p2) with (coverageLevel p1).
  run_monad.
  destruct (calculate_premium _ _ _ _) as [e|q]; [exact eq_refl|].
  set (compared := {[ default [] (coverageLevel p1) ]} ∪ comparedLevels (state s)).
  exists (fst (followUpOf (default [] (coverageLevel p1)) compared)),
         ((fun o => {| options := o |})
            <$> snd (followUpOf (default [] (coverageLevel p1)) compared)).
  unfold spoken, assistantEntry, quotedState, vehicleOf.
  cbn [vehicleAge horsepower city coverageLevel p2 set_city state comparedLevels messages].
  fold compared.
  destruct (tts c _) as [e|mp3]; exact eq_refl.
Qed.

(** C8: the slot a draft still misses is chosen in the fixed order
    vehicleAge, horsepower, coverageLevel, and is never the city. While one
    of the three is missing, the premium flow marks it pending in the draft
    it leaves in the session and replies with the question for that slot,
    the draft going out as the premium field. Once the three are filled,
    whatever the city, the flow goes on to the calculator, with the city of
    the draft or, for want of one, with "Other", which it writes into the
    draft; the quote is recorded with that city as the last vehicle and
    spoken as the reply. *)
Theorem pending_slot_priority :
  (forall p : Draft,
      (missingSlot p = Some (js "vehicleAge") <-> vehicleAge p = None)
      /\ (missingSlot p = Some (js "horsepower") <->
            vehicleAge p <> None /\ horsepower p = None)
      /\ (missingSlot p = Some (js "coverageLevel") <->
            vehicleAge p <> None /\ horsepower p <> None
            /\ truthy (coverageLevel p) = false)
      /\ (missingSlot p = None <->
            vehicleAge p <> None /\ horsepower p <> None
            /\ truthy (coverageLevel p) = true)
      /\ missingSlot p <> Some (js "city"))
  /\ (forall (c : Collaborators) (t : jsstring) (p : Draft) (s : Session) (slot : jsstring),
        missingSlot (fillSlots t p) = Some slot ->
        let pd := set_pendingSlot (Some slot) (fillSlots t p) in
        premiumFlow c t p s
        = ({| messages := messages s ++ [assistantEntry (questionText slot)];
              state := set_premium (Some pd) (state s) |},
           spoken c t (questionText slot) (questionExtra pd)))
  /\ (forall (c : Collaborators) (t : jsstring) (p : Draft) (s : Session),
        missingSlot (fillSlots t p) = None ->
        let p1 := fillSlots t p in
        let cty := if truthy (city p1) then city p1 else Some (js "Other") in
        let p2 := set_city cty p1 in
        match calculate_premium (ZtoNumber (default 0%Z (vehicleAge p1)))
                (ZtoNumber (default 0%Z (horsepower p1))) cty (coverageLevel p1) with
        | inl e =>
            premiumFlow c t p s
            = ({| messages := messages s; state := set_premium (Some p2) (state s) |}, inl e)
        | inr q =>
            exists followUp offer,
              premiumFlow c t p s
              = ({| messages := messages s ++ [assistantEntry (quoteText p2 q followUp)];
                    state := {| premium := None;
                                lastPremium := Some (vehicleOf p2);
                                comparedLevels := {[ default [] (coverageLevel p1) ]}
                                                  ∪ comparedLevels (state s);
                                pendingComparison := offer |} |},
                 spoken c t (quoteText p2 q followUp) (quoteExtra q))
        end).
Proof.
  split; [exact missingSlot_priority|]. split.
  - intros c t p s slot Hm. exact (premiumFlow_question c t p s slot Hm).
  - intros c t p s Hm. exact (premiumFlow_complete c t p s Hm).
Qed.

End PremiumFlowRuns.

Lemma missingSlot_set_pendingSlot (slot : option jsstring) (p : Draft) :
  missingSlot (set_pendingSlot slot p) = missingSlot p.
Proof. reflexivity. Qed.

Lemma missingSlot_set_city (c : option jsstring) (p : Draft) :
  missingSlot (set_city c p) = missingSlot p.
Proof. reflexivity. Qed.

Section ReplyFieldsClaim.
Context `{U : Unicode}.
Variable docs : list Doc.
Variable retrieveDocs : jsstring -> list Doc -> nat -> list Doc.

(** The four kinds of reply, each with the field that goes with it: the
    question for a slot with the pending draft, a quote with the
    calculator's result, an answer of the model with the documents it was
    given, and a fixed reply of the comparison sub-dialogue with nothing. *)
Definition slotQuestionReply (b : TurnBody) (st' : State) : Prop :=
  exists pd slot,
    extra b = questionExtra pd
    /\ pendingSlot pd = Some slot /\ missingSlot pd = Some slot
    /\ replyText b = questionText slot
    /\ premium st' = Some pd.

Definition quoteReply (b : TurnBody) (st' : State) : Prop :=
  exists p q followUp,
    extra b = quoteExtra q
    /\ missingSlot p = None /\ truthy (city p) = true
    /\ calculate_premium (ZtoNumber (default 0%Z (vehicleAge p)))
         (ZtoNumber (default 0%Z (horsepower p))) (city p) (coverageLevel p) = inr q
    /\ replyText b = quoteText p q followUp
    /\ premium st' = None
    /\ lastPremium st' = Some (vehicleOf p).

Definition documentReply (c : Collaborators) (b : TurnBody) (st' : State) : Prop :=
  exists msgs out,
    extra b = ragExtra (map doc_id (contextDocs docs retrieveDocs (transcript b)))
    /\ llm c msgs = inr out
    /\ replyText b = match out with [] => llmFallback | _ => out end
    /\ premium st' = None
    /\ isPremiumIntent (transcript b) st' = false.

Definition comparisonReply (b : TurnBody) (st : State) : Prop :=
  extra b = noExtra
  /\ In (replyText b) comparisonReplies
  /\ is_Some (pendingComparison st)
  /\ wantsNewVehicle (transcript b) = false.

Lemma premiumFlow_reply (c : Collaborators) (t : jsstring) (p : Draft) (s s' : Session)
    (b : TurnBody) :
  premiumFlow c t p s = (s', inr b) ->
  transcript b = t /\ (slotQuestionReply b (state s') \/ quoteReply b (state s')).
Proof.
  intros H. destruct (missingSlot (fillSlots t p)) as [slot|] eqn:Em.
  - rewrite (premiumFlow_question c t p s slot Em) in H.
    apply pair_equal_spec in H as [<- Hb]. apply spoken_body in Hb as (Ht & Hr & Hx).
    split; [exact Ht|]. left.
    exists (set_pendingSlot (Some slot) (fillSlots t p)), slot.
    split; [exact Hx|]. split; [reflexivity|].
    split; [rewrite missingSlot_set_pendingSlot; exact Em|].
    split; [exact Hr | reflexivity].
  - pose proof (premiumFlow_complete c t p s Em) as Hrun. cbv zeta in Hrun.
    set (p1 := fillSlots t p) in *.
    set (cty := if truthy (city p1) then city p1 else Some (js "Other")) in *.
    destruct (calculate_premium _ _ cty _) as [e|q] eqn:Ec.
    + rewrite Hrun in H. apply pair_equal_spec in H as [_ H]. discriminate.
    + destruct Hrun as (followUp & offer & Hrun). rewrite Hrun in H.
      apply pair_equal_spec in H as [<- Hb]. apply spoken_body in Hb as (Ht & Hr & Hx).
      split; [exact Ht|]. right. exists (set_city cty p1), q, followUp.
      split; [exact Hx|]. split; [rewrite missingSlot_set_city; exact Em|].
      split.
      { cbn [set_city city]. unfold cty. destruct (truthy (city p1)) eqn:Et; [exact Et|].
        exact eq_refl. }
      split; [exact Ec|]. split; [exact Hr|]. split; reflexivity.
Qed.

Lemma intentState_no_intent (t : jsstring) (st : State) :
  isPremiumIntent t st = false -> intentState t st = st.
Proof. unfold intentState, isNewPremiumReq. now intros ->. Qed.

Lemma routeTurn_reply (c : Collaborators) (t : jsstring) (nv : bool) (s s' : Session)
    (b : TurnBody) :
  routeTurn docs retrieveDocs c t nv s = (s', inr b) ->
  transcript b = t
  /\ (slotQuestionReply b (state s') \/ quoteReply b (state s')
      \/ documentReply c b (state s')).
Proof.
  intros H. apply routeTurn_run in H. cbv zeta in H.
  destruct H as [(p & _ & _ & Hp) | (Hnone & Hint & Hr)].
  - apply premiumFlow_reply in Hp as [Ht [Hq | Hq]].
    + split; [exact Ht | now left].
    + split; [exact Ht | right; now left].
  - rewrite (intentState_no_intent _ _ Hint) in Hr.
    pose proof (ragFlow_cases _ _ _ _ _ _ _ Hr) as [Hst _]. cbn [state] in Hst.
    apply ragFlow_run in Hr as [(e & msgs & _ & E & _) | (msgs & out & Hl & Hsaid)];
      [discriminate|].
    cbv zeta in Hsaid. destruct Hsaid as [_ [(e & _ & E) | (mp3 & _ & E)]]; [discriminate|].
    apply (inj inr) in E. subst b. cbn [transcript replyText extra].
    split; [reflexivity|]. right. right. exists msgs, out.
    cbn [transcript replyText extra].
    split; [reflexivity|]. split; [exact Hl|]. split; [reflexivity|].
    rewrite Hst. split; [exact Hnone | exact Hint].
Qed.

(** C9 (as the code has it): beside its replyText a successful turn
    carries at most one of premium, premiumResult and ragDocs, and the field
    tells the path that made the reply. premium goes with the question for
    a slot, and is the draft left in the session with that slot pending;
    premiumResult goes with a quote, and is the calculator's result for the
    vehicle recorded as the last one; ragDocs goes with an answer of the
    model, made while no draft is open on an utterance that is no premium
    intent, and names the documents handed to the model. A reply with none
    of the three is one of the five fixed replies of the comparison
    sub-dialogue, made when an offer was pending as the turn began and the
    utterance holds no new-vehicle phrase. *)
Theorem reply_fields (c : Collaborators) (req : Request)
    (sessions sessions' : gmap jsstring Session) (b : TurnBody) :
  turn docs retrieveDocs c req sessions = (sessions', Json b) ->
  (fieldCount (extra b) <= 1)%nat
  /\ exists sess',
       sessions' !! sessionKey req = Some sess'
       /\ (slotQuestionReply b (state sess')
           \/ quoteReply b (state sess')
           \/ documentReply c b (state sess')
           \/ comparisonReply b (state (sessionOf req sessions))).
Proof.
  intros H.
  apply turn_sessions in H as [_ [[H _] | (audio & name & sess' & r & _ & Hb & Hk & Hresp)]];
    [discriminate|].
  destruct r as [e|b']; [discriminate|]. injection Hresp as <-.
  assert (Hkind : slotQuestionReply b (state sess') \/ quoteReply b (state sess')
                  \/ documentReply c b (state sess')
                  \/ comparisonReply b (state (sessionOf req sessions))).
  { apply turnBody_run in Hb as [(e & _ & _ & E) | (text & _ & Hb)]; [discriminate|].
    cbv zeta in Hb. set (t := trim text) in *.
    assert (Hroute : forall s1, routeTurn docs retrieveDocs c t (wantsNewVehicle t) s1
                                = (sess', inr b) ->
                     slotQuestionReply b (state sess') \/ quoteReply b (state sess')
                     \/ documentReply c b (state sess')
                     \/ comparisonReply b (state (sessionOf req sessions))).
    { intros s1 Hr. apply routeTurn_reply in Hr as [_ [Hq | [Hq | Hq]]];
        [left | right; left | right; right; left]; exact Hq. }
    destruct Hb as [(pc & s1 & r1 & Hpc & Hc & Hb) | (_ & Hb)]; [|exact (Hroute _ Hb)].
    destruct Hb as [(e & _ & _ & E) | [(b' & -> & _ & E) | (_ & Hb)]];
      [discriminate | | exact (Hroute _ Hb)].
    apply (inj inr) in E. subst b'.
    apply comparisonBlock_run in Hc as [(txt & Hin & _ & [(e & _ & E) | (mp3 & _ & E)]) | [E _]];
      try discriminate.
    apply (inj inr) in E. apply (inj Some) in E. subst b.
    right. right. right. unfold comparisonReply. cbn [extra replyText transcript].
    cbn [state] in Hpc. unfold vehicleState in Hpc.
    destruct (wantsNewVehicle t); [discriminate|].
    split; [reflexivity|]. split; [exact Hin|]. split; [now exists pc | reflexivity]. }
  split.
  - destruct Hkind as [(pd & slot & -> & _) | [(p & q & f & -> & _) | [(m & o & -> & _) | [-> _]]]];
      cbv; lia.
  - exists sess'. split; [exact Hk | exact Hkind].
Qed.

End ReplyFieldsClaim.

(** ** Compared tiers: when they are kept and when dropped *)

Section ComparedLevelsClaim.
Context `{U : Unicode}.
Variable docs : list Doc.
Variable retrieveDocs : jsstring -> list Doc -> nat -> list Doc.










End ComparedLevelsClaim.

(** ** The messages handed to the answering model *)

(** X18: tailMessages keeps the first message and the most recent
    2 * maxPairs of the others: a log that short is handed over whole, none
    is ever longer than 1 + 2 * maxPairs, what is kept after the first
    message is the end of the log, and for a positive maxPairs the last
    message is kept. *)
Theorem tailMessages_window (msgs : list Message) (maxPairs : nat) :
  (length (tailMessages msgs maxPairs) <= 1 + 2 * maxPairs)%nat
  /\ ((length msgs <= 1 + 2 * maxPairs)%nat -> tailMessages msgs maxPairs = msgs)
  /\ head (tailMessages msgs maxPairs) = head msgs
  /\ (exists dropped,
        msgs = take 1 msgs ++ dropped ++ drop 1 (tailMessages msgs maxPairs)
        /\ length (tailMessages msgs maxPairs) = (length msgs - length dropped)%nat)
  /\ ((0 < maxPairs)%nat -> last (tailMessages msgs maxPairs) = last msgs).
Proof.
  unfold tailMessages. cbv zeta.
  destruct msgs as [|m rest].
  { simpl. split; [lia|]. split; [reflexivity|]. split; [reflexivity|].
    split; [|reflexivity]. exists []. split; reflexivity. }
  change (take 1 (m :: rest)) with [m]. change (drop 1 (m :: rest)) with rest.
  cbn [app head length].
  set (n := (length rest - maxPairs * 2)%nat).
  assert (Hn : (n <= length rest)%nat) by (unfold n; lia).
  split; [|split; [|split; [|split]]].
  - rewrite length_drop. unfold n. lia.
  - intros Hlen. replace n with 0%nat by (unfold n; lia). reflexivity.
  - reflexivity.
  - exists (take n rest). change (drop 1 (m :: drop n rest)) with (drop n rest).
    rewrite take_drop. split; [reflexivity|].
    rewrite length_drop, length_take. lia.
  - intros Hpos. destruct (drop n rest) as [|x l] eqn:Ed.
    + assert (Hl : length (drop n rest) = 0%nat) by now rewrite Ed.
      rewrite length_drop in Hl. unfold n in Hl.
      destruct rest; [reflexivity | simpl in Hl; lia].
    + assert (Hr : rest = take n rest ++ x :: l)
        by (rewrite <- Ed; symmetry; apply take_drop).
      set (pre := take n rest) in Hr. rewrite Hr, last_cons_cons, app_comm_cons, last_app.
      destruct (last (x :: l)) eqn:El; [reflexivity | now apply last_None in El].
Qed.

(** X18 on a log of twenty messages, which is cut to seventeen. *)
Lemma tailMessages_window_20 :
  (length (tailMessages (replicate 20 (userEntry [])) 8) <= 1 + 2 * 8)%nat
  /\ length (tailMessages (replicate 20 (userEntry [])) 8) = 17%nat.
Proof.
  split; [exact (proj1 (tailMessages_window (replicate 20 (userEntry [])) 8))|].
  reflexivity.
Defined.

(** ** The retriever returns the best documents *)

Lemma insertByScore_perm (score : Doc -> nat) (x : Doc) (l : list Doc) :
  Rag.insertByScore score x l ≡ₚ x :: l.
Proof.
  induction l as [|y l IH]; simpl; [reflexivity|].
  destruct (score x <? score y)%nat; [|reflexivity].
  rewrite IH. apply Permutation_swap.
Qed.

Lemma sortByScore_perm (score : Doc -> nat) (l : list Doc) : Rag.sortByScore score l ≡ₚ l.
Proof.
  induction l as [|x l IH]; simpl; [reflexivity|].
  rewrite insertByScore_perm. now rewrite IH.
Qed.

(** Scores do not increase along the list. *)
Definition descending (score : Doc -> nat) (l : list Doc) : Prop :=
  forall i j a b, (i < j)%nat -> l !! i = Some a -> l !! j = Some b ->
                  (score b <= score a)%nat.

Lemma descending_cons (score : Doc -> nat) (x : Doc) (l : list Doc) :
  descending score (x :: l)
  <-> (forall y, y ∈ l -> (score y <= score x)%nat) /\ descending score l.
Proof.
  split.
  - intros H. split.
    + intros y Hy. apply list_elem_of_lookup in Hy as [j Hj].
      apply (H 0%nat (S j) x y); [lia | reflexivity | exact Hj].
    + intros i j a b Hij Ha Hb. apply (H (S i) (S j) a b); [lia | exact Ha | exact Hb].
  - intros [Hx Hl] i j a b Hij Ha Hb. destruct j as [|j]; [lia|]. simpl in Hb.
    destruct i as [|i]; simpl in Ha.
    + injection Ha as <-. apply Hx. apply list_elem_of_lookup. now exists j.
    + apply (Hl i j a b); [lia | exact Ha | exact Hb].
Qed.

Lemma insertByScore_descending (score : Doc -> nat) (x : Doc) (l : list Doc) :
  descending score l -> descending score (Rag.insertByScore score x l).
Proof.
  induction l as [|y l IH]; intros Hl; simpl.
  - apply descending_cons. split; [|exact Hl]. intros y Hy. now apply elem_of_nil in Hy.
  - apply descending_cons in Hl as [Hy Hl].
    destruct (Nat.ltb_spec (score x) (score y)) as [Hlt|Hge].
    + apply descending_cons. split; [|now apply IH].
      intros z Hz. rewrite insertByScore_perm in Hz.
      apply elem_of_cons in Hz as [->|Hz]; [lia | now apply Hy].
    + apply descending_cons. split.
      * intros z Hz. apply elem_of_cons in Hz as [->|Hz]; [lia|].
        specialize (Hy z Hz). lia.
      * apply descending_cons. now split.
Qed.

Lemma sortByScore_descending (score : Doc -> nat) (l : list Doc) :
  descending score (Rag.sortByScore score l).
Proof.
  induction l as [|x l IH]; simpl.
  - intros i j a b _ Ha. discriminate.
  - now apply insertByScore_descending.
Qed.

Lemma descending_filter (score : Doc -> nat) (P : Doc -> Prop) `{!forall d, Decision (P d)}
    (l : list Doc) :
  descending score l -> descending score (filter P l).
Proof.
  induction l as [|x l IH]; intros Hl; [exact Hl|].
  apply descending_cons in Hl as [Hx Hl].
  destruct (decide (P x)) as [Hp|Hp].
  - rewrite filter_cons_True by exact Hp. apply descending_cons. split; [|now apply IH].
    intros y Hy. apply list_elem_of_filter in Hy as [_ Hy]. now apply Hx.
  - rewrite filter_cons_False by exact Hp. now apply IH.
Qed.

Lemma descending_take_drop (score : Doc -> nat) (k : nat) (l : list Doc) (a b : Doc) :
  descending score l -> a ∈ take k l -> b ∈ drop k l -> (score b <= score a)%nat.
Proof.
  intros Hl Ha Hb.
  apply list_elem_of_lookup in Ha as [i Hi]. apply list_elem_of_lookup in Hb as [j Hj].
  pose proof (lookup_lt_Some _ _ _ Hi) as Hlt. rewrite length_take in Hlt.
  rewrite lookup_take_lt in Hi by lia. rewrite lookup_drop in Hj.
  apply (Hl i (k + j)%nat a b); [lia | exact Hi | exact Hj].
Qed.

Lemma descending_take (score : Doc -> nat) (k : nat) (l : list Doc) :
  descending score l -> descending score (take k l).
Proof.
  intros Hl i j a b Hij Ha Hb.
  pose proof (lookup_lt_Some _ _ _ Ha) as Hi. pose proof (lookup_lt_Some _ _ _ Hb) as Hj.
  rewrite length_take in Hi, Hj.
  rewrite lookup_take_lt in Ha by lia. rewrite lookup_take_lt in Hb by lia.
  apply (Hl i j a b Hij Ha Hb).
Qed.

Lemma filter_all (P : Doc -> Prop) `{!forall d, Decision (P d)} (l : list Doc) :
  (forall d, d ∈ l -> P d) -> filter P l = l.
Proof.
  induction l as [|x l IH]; intros Hall; [reflexivity|].
  rewrite filter_cons_True by (apply Hall; now left).
  f_equal. apply IH. intros d Hd. apply Hall. now right.
Qed.

Section RagFacts.
Context `{U : Unicode}.
Variable isN_ext : N -> bool.

Lemma retrieveDocs_within (query : jsstring) (docs : list Doc) (k : nat) :
  (length (Rag.retrieveDocs isN_ext query docs k) <= k)%nat
  /\ Rag.retrieveDocs isN_ext query docs k ⊆+ docs.
Proof.
  unfold Rag.retrieveDocs. cbv zeta. split.
  - etransitivity; [apply length_filter|]. rewrite length_take. lia.
  - etransitivity; [apply sublist_submseteq, sublist_filter|].
    etransitivity; [apply sublist_submseteq, sublist_take|].
    apply Permutation_submseteq, sortByScore_perm.
Qed.

(** X19: retrieveDocs returns at most k documents, all of the corpus (none
    more often than the corpus holds it) and all with a positive score, in
    the order of descending score; and a document of positive score that
    is left out is left out for k better ones: then exactly k documents
    are returned, none with a smaller score than it. *)
Theorem retrieveDocs_best (query : jsstring) (docs : list Doc) (k : nat) :
  let score := Rag.scoreOf isN_ext (Rag.setOf (Rag.tokenize isN_ext query)) in
  let hits := Rag.retrieveDocs isN_ext query docs k in
  (length hits <= k)%nat
  /\ hits ⊆+ docs
  /\ (forall d, d ∈ hits -> (0 < score d)%nat)
  /\ descending score hits
  /\ (forall d, d ∈ docs -> (0 < score d)%nat -> d ∉ hits ->
        length hits = k /\ forall h, h ∈ hits -> (score d <= score h)%nat).
Proof.
  intros score hits. unfold hits, Rag.retrieveDocs. cbv zeta. fold score.
  set (sorted := Rag.sortByScore score docs).
  assert (Hperm : sorted ≡ₚ docs) by apply sortByScore_perm.
  assert (Hdesc : descending score sorted) by apply sortByScore_descending.
  split; [|split; [|split; [|split]]].
  - etransitivity; [apply length_filter|]. rewrite length_take. lia.
  - etransitivity; [apply sublist_submseteq, sublist_filter|].
    etransitivity; [apply sublist_submseteq, sublist_take|].
    now apply Permutation_submseteq.
  - intros d Hd. now apply list_elem_of_filter in Hd as [Hd _].
  - apply descending_filter, descending_take, Hdesc.
  - intros d Hd Hpos Hout.
    assert (Hs : d ∈ sorted) by now rewrite Hperm.
    assert (Hnt : d ∉ take k sorted).
    { intros Ht. apply Hout. apply list_elem_of_filter. now split. }
    assert (Hdrop : d ∈ drop k sorted).
    { rewrite <- (take_drop k sorted) in Hs. apply elem_of_app in Hs as [Hs|Hs]; [|exact Hs].
      contradiction. }
    assert (Hall : forall h, h ∈ take k sorted -> (score d <= score h)%nat).
    { intros h Hh. exact (descending_take_drop score k sorted h d Hdesc Hh Hdrop). }
    assert (Hf : filter (fun d => (0 < score d)%nat) (take k sorted) = take k sorted).
    { apply filter_all. intros h Hh. specialize (Hall h Hh). lia. }
    rewrite Hf. split; [|exact Hall].
    rewrite length_take. apply Nat.min_l.
    destruct (Nat.le_gt_cases k (length sorted)) as [Hle|Hgt]; [exact Hle|].
    rewrite drop_ge in Hdrop by lia. now apply elem_of_nil in Hdrop.
Qed.

End RagFacts.

(** ** The documents a reply names *)

Section ReplyDocs.
Context `{U : Unicode}.
Variable docs : list Doc.
Variable retriever : jsstring -> list Doc -> nat -> list Doc.

(** The ragDocs of a response are the ids of the documents of the RAG
    flow's context, whatever the retriever. *)
Lemma turn_ragDocs (c : Collaborators) (req : Request)
    (sessions sessions' : gmap jsstring Session) (b : TurnBody) (ids : list jsstring) :
  turn docs retriever c req sessions = (sessions', Json b) ->
  x_ragDocs (extra b) = Some ids ->
  ids = map doc_id (contextDocs docs retriever (transcript b))
  /\ x_premium (extra b) = None /\ x_premiumResult (extra b) = None.
Proof.
  intros H Hids.
  apply turn_sessions in H as [_ [[H _] | (audio & name & sess' & r & _ & Hb & _ & Hresp)]];
    [discriminate|].
  destruct r as [e|b']; [discriminate|]. injection Hresp as <-.
  pose proof (turnBody_logged _ _ _ _ _ _ _ _ Hb) as [(_ & e & _ & E) | (text & Hs & Ht & _)];
    [discriminate|].
  apply turnBody_run in Hb as [(e & _ & _ & E) | (text' & Hs' & Hb)]; [discriminate|].
  rewrite Hs in Hs'. injection Hs' as <-. cbv zeta in Hb.
  assert (Hroute : forall s1, routeTurn docs retriever c (trim text)
                                (wantsNewVehicle (trim text)) s1 = (sess', inr b) ->
                              extra b = ragExtra (map doc_id (contextDocs docs retriever
                                                                (trim text)))).
  { intros s1 Hr. apply routeTurn_run in Hr. cbv zeta in Hr.
    destruct Hr as [(p & _ & _ & Hp) | (_ & _ & Hr)].
    - apply premiumFlow_run in Hp. cbv zeta in Hp.
      destruct Hp as [(slot & _ & _ & Hsaid) | [(_ & _ & _ & e & _ & E) | (_ & q & f & _ & _ & Hsaid)]].
      + apply said_extra in Hsaid. rewrite Hsaid in Hids. discriminate.
      + discriminate.
      + apply said_extra in Hsaid. rewrite Hsaid in Hids. discriminate.
    - apply ragFlow_run in Hr as [(e & msgs & _ & E & _) | (msgs & out & _ & _ & Hsaid)];
        [discriminate|].
      cbv zeta in Hsaid. now apply said_extra in Hsaid. }
  assert (Hx : extra b = ragExtra (map doc_id (contextDocs docs retriever (trim text)))).
  { destruct Hb as [(pc & s1 & r1 & _ & Hc & Hb) | (_ & Hb)]; [|now apply (Hroute _ Hb)].
    destruct Hb as [(e & _ & _ & E) | [(b' & -> & _ & E) | (_ & Hb)]];
      [discriminate | | now apply (Hroute _ Hb)].
    injection E as <-.
    apply comparisonBlock_run in Hc as [(txt & _ & _ & [(e & _ & E) | (mp3 & _ & E)]) | [E _]];
      try discriminate.
    injection E as ->. discriminate Hids. }
  rewrite Ht. rewrite Hx in Hids |- *. cbn [ragExtra x_ragDocs x_premium x_premiumResult] in *.
  apply (inj Some) in Hids. subst ids. split; [reflexivity|]. split; reflexivity.
Qed.

End ReplyDocs.

Section RetrievedDocs.
Context `{U : Unicode}.
Variable isN_ext : N -> bool.
Variable docs : list Doc.

(** X20: with the retriever of rag.js, the ragDocs of a response are the
    ids of the documents retrieveDocs finds for the transcript among the
    loaded ones, ten at most, best first; when it finds none, they are the
    ids of the first ten loaded documents. Either way they are at most ten
    ids of loaded documents, and the response carries neither a draft nor
    a quote. *)
Theorem ragDocs_are_retrieved (c : Collaborators) (req : Request)
    (sessions sessions' : gmap jsstring Session) (b : TurnBody) (ids : list jsstring) :
  turn docs (Rag.retrieveDocs isN_ext) c req sessions = (sessions', Json b) ->
  x_ragDocs (extra b) = Some ids ->
  let hits := Rag.retrieveDocs isN_ext (transcript b) docs 10 in
  (hits <> [] -> ids = map doc_id hits)
  /\ (hits = [] -> ids = map doc_id (take 10 docs))
  /\ (length ids <= 10)%nat
  /\ (forall id, id ∈ ids -> exists d, d ∈ docs /\ doc_id d = id)
  /\ x_premium (extra b) = None /\ x_premiumResult (extra b) = None.
Proof.
  intros H Hids hits. apply (turn_ragDocs _ _ _ _ _ _ _ _ H) in Hids as (-> & Hp & Hq).
  unfold contextDocs. cbv zeta. fold hits.
  pose proof (retrieveDocs_within isN_ext (transcript b) docs 10) as Hbest.
  fold hits in Hbest. destruct Hbest as (Hlen & Hsub).
  split; [|split; [|split; [|split; [|split; [exact Hp | exact Hq]]]]].
  - intros Hne. destruct hits; [congruence | reflexivity].
  - intros ->. reflexivity.
  - rewrite length_map. destruct hits as [|h hs]; [|exact Hlen].
    rewrite length_take. lia.
  - intros id Hid. apply list_elem_of_fmap in Hid as (d & -> & Hd). exists d.
    split; [|reflexivity]. destruct hits as [|h hs] eqn:Eh.
    + apply list_elem_of_lookup in Hd as [i Hi].
      apply lookup_take_Some in Hi as [Hi _]. apply list_elem_of_lookup. now exists i.
    + exact (elem_of_submseteq _ _ _ Hd Hsub).
Qed.

End RetrievedDocs.

(** * Concrete runs

    The properties above, met on concrete Slovenian utterances: the
    hypotheses of each can be satisfied, and the places where the code
    departs from the specification are exhibited. *)

(** Collaborators that transcribe [text], answer, and synthesize. *)
Definition says (text : jsstring) : Collaborators :=
  {| stt := fun _ _ => inr text;
     llm := fun _ => inr (js "Odgovor.");
     tts := fun _ => inr [] |}.

(** The same with a speech synthesis that throws. *)
Definition saysMute (text : jsstring) : Collaborators :=
  {| stt := fun _ _ => inr text;
     llm := fun _ => inr (js "Odgovor.");
     tts := fun _ => inl (js "TTS failed (500): ") |}.

Definition demoRequest : Request :=
  {| body_sessionId := None; file := Some ([], None) |}.

Definition noRetriever : jsstring -> list Doc -> nat -> list Doc := fun _ _ _ => [].

(** One turn of the demo session. *)
Definition demoTurn (c : Collaborators) (sessions : gmap jsstring Session)
  : gmap jsstring Session * Response :=
  turn (U := Slovene) [] noRetriever c demoRequest sessions.


Definition afterBasicQuote : gmap jsstring Session :=
  fst (demoTurn (says (js "izračun premije avto 5 let 150 konjev osnovno")) ∅).



(** C2, where the claim fails: the synthesis of the first reply throws, the
    turn answers 500, and the session holds the user entry, the assistant
    entry and the open draft with its pending slot. *)
Lemma failed_synthesis_leaves_writes :
  snd (demoTurn (saysMute (js "izračun premije")) ∅) = Status500 (js "TTS failed (500): ")
  /\ (length (messages (sessionOf demoRequest ∅)) = 1%nat
      /\ premium (state (sessionOf demoRequest ∅)) = None)
  /\ (length (messages
                (sessionOf demoRequest (fst (demoTurn (saysMute (js "izračun premije")) ∅))))
      = 3%nat
      /\ (pendingSlot <$> premium
            (state (sessionOf demoRequest (fst (demoTurn (saysMute (js "izračun premije")) ∅)))))
         = Some (Some (js "vehicleAge"))).
Proof. vm_compute. repeat split. Qed.



(** C9, where the claim fails: the reply to a declined comparison offer
    carries none of the three fields. *)
Lemma decline_reply_has_no_field :
  exists b, snd (demoTurn (says (js "ne")) afterBasicQuote) = Json b
            /\ fieldCount (extra b) = 0%nat.
Proof. eexists. split; [vm_compute; reflexivity | reflexivity]. Qed.

(** C3 at 21, "enaindvajset". *)
Lemma number_words_round_trip_21 :
  (21 < 100)%nat
  /\ (parseSlNumberRobust (U := Slovene) (wordForm 21) = Some (Z.of_nat 21)
      /\ forall w, In w (spellings 21) ->
           parseSlNumberRobust (U := Slovene) w = Some (Z.of_nat 21)).
Proof. split; [lia | apply (number_words_round_trip 21); lia]. Defined.

(** C4 on "5 let, petnajst": the digit 5 wins over the word for fifteen. *)
Lemma digits_take_precedence_5 :
  cleanTextForNumber (U := Slovene) (js "5 let, petnajst") = [] ++ js "5" ++ js " let petnajst"
  /\ standalone_run [] (js "5") (js " let petnajst")
  /\ parseSlNumberRobust (U := Slovene) (js "5 let, petnajst") = Some 5%Z.
Proof.
  assert (Ht : cleanTextForNumber (U := Slovene) (js "5 let, petnajst")
               = [] ++ js "5" ++ js " let petnajst") by (vm_compute; reflexivity).
  assert (Hs : standalone_run [] (js "5") (js " let petnajst"))
    by (vm_compute; repeat split; lia).
  split; [exact Ht|]. split; [exact Hs|].
  apply (digits_take_precedence (U := Slovene) (js "5 let, petnajst") []
           (js "5") (js " let petnajst") Ht Hs).
  intros pre' ds' post' _ _. simpl. lia.
Defined.

Lemma ljubljana_own : ownCityKey (U := Slovene) (Some (js "Ljubljana")).
Proof. intros c E. apply (inj Some) in E. subst c. vm_compute. intuition discriminate. Qed.

(** X21 for a five-year-old car of 150 horsepower in Ljubljana. *)
Lemma annual_increases_with_tier_ljubljana :
  (0 <= 5 <= 99)%Z /\ (1 <= 150 <= 9999)%Z
  /\ ownCityKey (U := Slovene) (Some (js "Ljubljana"))
  /\ exists q1 q2 q3 : Quote,
       calculate_premium (U := Slovene) (ZtoNumber 5) (ZtoNumber 150)
         (Some (js "Ljubljana")) (Some (js "osnovno")) = inr q1
       /\ calculate_premium (U := Slovene) (ZtoNumber 5) (ZtoNumber 150)
            (Some (js "Ljubljana")) (Some (js "delni_kasko")) = inr q2
       /\ calculate_premium (U := Slovene) (ZtoNumber 5) (ZtoNumber 150)
            (Some (js "Ljubljana")) (Some (js "polni_kasko")) = inr q3
       /\ (annual_eur q1 <? annual_eur q2)%float = true
       /\ (annual_eur q2 <? annual_eur q3)%float = true.
Proof.
  split; [lia|]. split; [lia|]. split; [exact ljubljana_own|].
  apply (annual_increases_with_tier (U := Slovene) 5 150 (Some (js "Ljubljana")));
    [lia | lia | exact ljubljana_own].
Defined.

(** C9 on the first turn of a premium request: the reply is the question
    for the age and carries the pending draft, and nothing else. *)
Lemma reply_fields_first_turn :
  exists sessions' b sess',
    demoTurn (says (js "izračun premije")) ∅ = (sessions', Json b)
    /\ (fieldCount (extra b) <= 1)%nat
    /\ sessions' !! sessionKey demoRequest = Some sess'
    /\ slotQuestionReply b (state sess')
    /\ replyText b = questionText (js "vehicleAge").
Proof.
  destruct (demoTurn (says (js "izračun premije")) ∅) as [sessions' resp] eqn:E.
  assert (Hr : exists b, resp = Json b /\ x_ragDocs (extra b) = None
                         /\ x_premiumResult (extra b) = None
                         /\ x_premium (extra b) <> None
                         /\ replyText b = questionText (js "vehicleAge")).
  { assert (H : exists b, snd (demoTurn (says (js "izračun premije")) ∅) = Json b
                          /\ x_ragDocs (extra b) = None
                          /\ x_premiumResult (extra b) = None
                          /\ x_premium (extra b) <> None
                          /\ replyText b = questionText (js "vehicleAge"))
      by (eexists; split; [|split; [|split; [|split]]]; vm_compute;
          try reflexivity; discriminate).
    rewrite E in H. exact H. }
  destruct Hr as (b & -> & Hd & Hq & Hp & Ht).
  destruct (reply_fields (U := Slovene) [] noRetriever
              (says (js "izračun premije")) demoRequest ∅ sessions' b E)
    as (Hcount & sess' & Hk & Hkind).
  exists sessions', b, sess'. split; [reflexivity|]. split; [exact Hcount|].
  split; [exact Hk|]. split; [|exact Ht].
  destruct Hkind as [H | [(p & q & f & Hx & _) | [(m & o & Hx & _) | (Hx & _)]]].
  - exact H.
  - rewrite Hx in Hq. discriminate.
  - rewrite Hx in Hd. discriminate.
  - rewrite Hx in Hp. exfalso. apply Hp. reflexivity.
Defined.

(** A draft with no slot filled. *)
Definition blankDraft : Draft := freshDraft None false.

(** C8 on a request that gives the horsepower and the city but not the
    age: the age is asked for first and marked pending; and on one that
    gives the three required slots and no city: the quote is made for
    "Other". *)
Lemma pending_slot_priority_runs :
  (missingSlot (fillSlots (U := Slovene) (js "izračun premije, 150 konjev, v Kopru") blankDraft)
   = Some (js "vehicleAge")
   /\ exists pd,
        premiumFlow (U := Slovene) (says (js "izračun premije, 150 konjev, v Kopru"))
          (js "izračun premije, 150 konjev, v Kopru") blankDraft newSession
        = ({| messages := messages newSession
                          ++ [assistantEntry (questionText (js "vehicleAge"))];
              state := set_premium (Some pd) (state newSession) |},
           spoken (says (js "izračun premije, 150 konjev, v Kopru"))
             (js "izračun premije, 150 konjev, v Kopru")
             (questionText (js "vehicleAge")) (questionExtra pd))
        /\ pendingSlot pd = Some (js "vehicleAge")
        /\ horsepower pd = Some 150%Z
        /\ city pd = Some (js "Koper"))
  /\ (missingSlot (fillSlots (U := Slovene) (js "avto 5 let 150 konjev osnovno") blankDraft)
      = None
      /\ city (fillSlots (U := Slovene) (js "avto 5 let 150 konjev osnovno") blankDraft) = None
      /\ exists q followUp,
           lastPremium
             (state (fst (premiumFlow (U := Slovene) (says (js "avto 5 let 150 konjev osnovno"))
                            (js "avto 5 let 150 konjev osnovno") blankDraft newSession)))
           = Some {| lp_vehicleAge := Some 5%Z; lp_horsepower := Some 150%Z;
                     lp_city := Some (js "Other") |}
           /\ snd (premiumFlow (U := Slovene) (says (js "avto 5 let 150 konjev osnovno"))
                     (js "avto 5 let 150 konjev osnovno") blankDraft newSession)
              = spoken (says (js "avto 5 let 150 konjev osnovno"))
                  (js "avto 5 let 150 konjev osnovno")
                  (quoteText
                     (set_city (Some (js "Other"))
                        (fillSlots (U := Slovene) (js "avto 5 let 150 konjev osnovno")
                           blankDraft))
                     q followUp)
                  (quoteExtra q)).
Proof.
  split.
  - assert (Hm : missingSlot (fillSlots (U := Slovene)
                                (js "izračun premije, 150 konjev, v Kopru") blankDraft)
                 = Some (js "vehicleAge")) by (vm_compute; reflexivity).
    split; [exact Hm|].
    exists (set_pendingSlot (Some (js "vehicleAge"))
              (fillSlots (U := Slovene) (js "izračun premije, 150 konjev, v Kopru") blankDraft)).
    split.
    + exact (proj1 (proj2 (pending_slot_priority (U := Slovene)))
               (says (js "izračun premije, 150 konjev, v Kopru"))
               (js "izračun premije, 150 konjev, v Kopru") blankDraft newSession
               (js "vehicleAge") Hm).
    + split; [reflexivity|]. split; vm_compute; reflexivity.
  - assert (Hm : missingSlot (fillSlots (U := Slovene) (js "avto 5 let 150 konjev osnovno")
                                blankDraft) = None) by (vm_compute; reflexivity).
    assert (Hc : city (fillSlots (U := Slovene) (js "avto 5 let 150 konjev osnovno") blankDraft)
                 = None) by (vm_compute; reflexivity).
    split; [exact Hm|]. split; [exact Hc|].
    pose proof (proj2 (proj2 (pending_slot_priority (U := Slovene)))
                  (says (js "avto 5 let 150 konjev osnovno"))
                  (js "avto 5 let 150 konjev osnovno") blankDraft newSession Hm) as Hrun.
    cbv zeta in Hrun. rewrite Hc in Hrun. cbn [truthy] in Hrun.
    set (p1 := fillSlots (U := Slovene) (js "avto 5 let 150 konjev osnovno") blankDraft) in *.
    assert (Hq : exists q,
               calculate_premium (U := Slovene) (ZtoNumber (default 0%Z (vehicleAge p1)))
                 (ZtoNumber (default 0%Z (horsepower p1))) (Some (js "Other"))
                 (coverageLevel p1) = inr q)
      by (eexists; vm_compute; reflexivity).
    destruct Hq as [q Hq]. rewrite Hq in Hrun.
    destruct Hrun as (followUp & offer & Hrun). exists q, followUp.
    rewrite Hrun. cbn [fst snd state lastPremium]. split; [|reflexivity].
    unfold vehicleOf. cbn [set_city vehicleAge horsepower city].
    vm_compute. reflexivity.
Defined.

(** C10 on an utterance that names both tiers. *)
Lemma full_tier_wins_both_named :
  includes (js "delni ali polni kasko") (js "polni") = true
  /\ includes (js "delni ali polni kasko") (js "delni") = true
  /\ (normalizeCoverageLevel (U := Slovene) (js "delni ali polni kasko")
      = Some (js "polni_kasko")
      /\ forall wantsPremium : bool,
           extractCoverageLevel (U := Slovene) (js "delni ali polni kasko") wantsPremium
           = Some (js "polni_kasko")).
Proof.
  assert (H1 : includes (js "delni ali polni kasko") (js "polni") = true)
    by (vm_compute; reflexivity).
  assert (H2 : includes (js "delni ali polni kasko") (js "delni") = true)
    by (vm_compute; reflexivity).
  split; [exact H1|]. split; [exact H2|].
  exact (full_tier_wins (U := Slovene) (js "delni ali polni kasko") H1 H2).
Defined.

(** * Concrete runs of the further properties *)

(** The session after the quote of the basic tier, which holds an offer. *)
Definition quotedSession : Session := sessionOf demoRequest afterBasicQuote.

Lemma afterBasicQuote_reachable : reachable (U := Slovene) [] noRetriever afterBasicQuote.
Proof.
  exact (reachable_turn (U := Slovene) [] noRetriever
           (says (js "izračun premije avto 5 let 150 konjev osnovno")) demoRequest ∅
           (reachable_start [] noRetriever)).
Defined.

Lemma afterBasicQuote_session : afterBasicQuote !! js "default" = Some quotedSession.
Proof. vm_compute. reflexivity. Defined.

(** X11 on the session after a quote of the basic tier: the draft is
    closed, and the offer of the two other tiers is open. *)
Lemma session_state_invariant_after_quote :
  reachable (U := Slovene) [] noRetriever afterBasicQuote
  /\ afterBasicQuote !! js "default" = Some quotedSession
  /\ premium (state quotedSession) = None
  /\ (forall pc, pendingComparison (state quotedSession) = Some pc ->
        options pc <> []
        /\ (forall l, l ∈ options pc -> l = js "delni_kasko" \/ l = js "polni_kasko")
        /\ is_Some (lastPremium (state quotedSession))).
Proof.
  split; [exact afterBasicQuote_reachable|]. split; [exact afterBasicQuote_session|].
  split; [vm_compute; reflexivity|].
  exact (proj2 (proj2 (proj2
           (session_state_invariant (U := Slovene) [] noRetriever afterBasicQuote
              (js "default") quotedSession
              afterBasicQuote_reachable afterBasicQuote_session)))).
Defined.

(** X12 on the first turn of a premium request. *)
Lemma turn_appends_to_log_first_turn :
  exists sessions' b sess',
    demoTurn (says (js "izračun premije")) ∅ = (sessions', Json b)
    /\ sessions' !! sessionKey demoRequest = Some sess'
    /\ replyText b <> []
    /\ messages sess'
       = messages (sessionOf demoRequest ∅)
         ++ [userEntry (transcript b); assistantEntry (replyText b)].
Proof.
  destruct (demoTurn (says (js "izračun premije")) ∅) as [sessions' resp] eqn:E.
  assert (Hr : exists b, resp = Json b).
  { assert (H : exists b, snd (demoTurn (says (js "izračun premije")) ∅) = Json b)
      by (eexists; vm_compute; reflexivity).
    rewrite E in H. exact H. }
  destruct Hr as [b ->].
  destruct (turn_appends_to_log (U := Slovene) [] noRetriever _ _ _ _ _ E)
    as (sess' & Hk & Hne & Hm).
  exists sessions', b, sess'. split; [reflexivity|]. split; [exact Hk|].
  split; [exact Hne | exact Hm].
Defined.

(** X13 on the session after a quote. *)
Lemma log_starts_with_system_prompt_after_quote :
  reachable (U := Slovene) [] noRetriever afterBasicQuote
  /\ afterBasicQuote !! js "default" = Some quotedSession
  /\ exists rest,
       messages quotedSession = {| role := js "system"; content := systemPrompt |} :: rest
       /\ Forall (fun m => role m = js "user" \/ role m = js "assistant") rest.
Proof.
  split; [exact afterBasicQuote_reachable|]. split; [exact afterBasicQuote_session|].
  exact (log_starts_with_system_prompt (U := Slovene) [] noRetriever afterBasicQuote
           (js "default") quotedSession afterBasicQuote_reachable afterBasicQuote_session).
Defined.

(** A draft that holds the age and waits for the horsepower. *)
Definition ageOnlyDraft : Draft :=
  {| vehicleAge := Some 5%Z; horsepower := None; city := None; coverageLevel := None;
     pendingSlot := Some (js "horsepower") |}.

(** X14 on the answer "150 konjev" to the question for the horsepower:
    the next question is for the tier. *)
Lemma filled_slots_are_not_asked_150 :
  exists s' b pd,
    premiumFlow (U := Slovene) (says []) (js "150 konjev") ageOnlyDraft newSession
    = (s', inr b)
    /\ x_premium (extra b) = Some pd
    /\ vehicleAge ageOnlyDraft <> None
    /\ vehicleAge pd <> None /\ pendingSlot pd <> Some (js "vehicleAge").
Proof.
  destruct (premiumFlow (U := Slovene) (says []) (js "150 konjev") ageOnlyDraft newSession)
    as [s' r] eqn:E.
  assert (Hr : exists b pd, r = inr b /\ x_premium (extra b) = Some pd).
  { assert (H : exists b pd,
               snd (premiumFlow (U := Slovene) (says []) (js "150 konjev") ageOnlyDraft
                      newSession) = inr b
               /\ x_premium (extra b) = Some pd)
      by (eexists _, _; split; vm_compute; reflexivity).
    rewrite E in H. exact H. }
  destruct Hr as (b & pd & -> & Hpd).
  exists s', b, pd. split; [reflexivity|]. split; [exact Hpd|].
  assert (Ha : vehicleAge ageOnlyDraft <> None) by discriminate.
  split; [exact Ha|].
  exact (proj1 (filled_slots_are_not_asked (U := Slovene) _ _ _ _ _ _ _ E Hpd) Ha).
Defined.

(** X15 on a request that names a horsepower of 0: the calculator's
    refusal is the error of the turn. *)
Lemma turn_errors_zero_horsepower :
  reachable (U := Slovene) [] noRetriever ∅
  /\ exists sessions',
       demoTurn (says (js "izračun premije avto 5 let 00 km osnovno")) ∅
       = (sessions', Status500 horsepowerError)
       /\ ((exists audio name,
              stt (says (js "izračun premije avto 5 let 00 km osnovno")) audio name
              = inl horsepowerError)
           \/ (exists msgs,
                 llm (says (js "izračun premije avto 5 let 00 km osnovno")) msgs
                 = inl horsepowerError)
           \/ (exists txt,
                 tts (says (js "izračun premije avto 5 let 00 km osnovno")) txt
                 = inl horsepowerError)
           \/ (horsepowerError = horsepowerError
               /\ exists sess' p,
                    sessions' !! sessionKey demoRequest = Some sess'
                    /\ premium (state sess') = Some p
                    /\ horsepower p = Some 0%Z)).
Proof.
  split; [apply reachable_start|].
  destruct (demoTurn (says (js "izračun premije avto 5 let 00 km osnovno")) ∅)
    as [sessions' resp] eqn:E.
  assert (Hr : resp = Status500 horsepowerError).
  { assert (H : snd (demoTurn (says (js "izračun premije avto 5 let 00 km osnovno")) ∅)
                = Status500 horsepowerError) by (vm_compute; reflexivity).
    rewrite E in H. exact H. }
  subst resp. exists sessions'. split; [reflexivity|].
  exact (turn_errors (U := Slovene) [] noRetriever _ _ _ _ _
           (reachable_start [] noRetriever) E).
Defined.

(** X16 on the answer "polni kasko" to the offer after a quote of the basic
    tier: the response is a quote. *)
Lemma no_slot_question_on_an_offer_polni :
  reachable (U := Slovene) [] noRetriever afterBasicQuote
  /\ is_Some (pendingComparison (state (sessionOf demoRequest afterBasicQuote)))
  /\ exists sessions' b,
       turn (U := Slovene) [] noRetriever (says (js "polni kasko")) demoRequest
         afterBasicQuote = (sessions', Json b)
       /\ wantsNewVehicle (U := Slovene) (transcript b) = false
       /\ x_premium (extra b) = None.
Proof.
  assert (Hp : is_Some (pendingComparison (state (sessionOf demoRequest afterBasicQuote))))
    by (eexists; vm_compute; reflexivity).
  split; [exact afterBasicQuote_reachable|]. split; [exact Hp|].
  destruct (turn (U := Slovene) [] noRetriever (says (js "polni kasko")) demoRequest
              afterBasicQuote) as [sessions' resp] eqn:E.
  assert (Hr : exists b, resp = Json b /\ wantsNewVehicle (U := Slovene) (transcript b) = false).
  { assert (H : exists b,
               snd (turn (U := Slovene) [] noRetriever (says (js "polni kasko")) demoRequest
                      afterBasicQuote) = Json b
               /\ wantsNewVehicle (U := Slovene) (transcript b) = false)
      by (eexists; split; vm_compute; reflexivity).
    rewrite E in H. exact H. }
  destruct Hr as (b & -> & Hnv).
  exists sessions', b. split; [reflexivity|]. split; [exact Hnv|].
  exact (no_slot_question_on_an_offer (U := Slovene) [] noRetriever
           (says (js "polni kasko")) demoRequest afterBasicQuote sessions' b
           afterBasicQuote_reachable Hp E Hnv).
Defined.

(** Two documents, and no numbers beyond ASCII. *)
Definition demoDocs : list Doc :=
  [ {| doc_id := js "kasko.md"; doc_text := js "Kasko kritje." |};
    {| doc_id := js "skoda.md"; doc_text := js "Prijava škode: obrazec, rok 3 dni." |} ].

Definition asciiNumbers : N -> bool := fun _ => false.

(** X20 on a question about a claim: the one document that shares a word
    with it is named. *)
Lemma ragDocs_are_retrieved_skoda :
  exists sessions' b ids,
    turn (U := Slovene) demoDocs (Rag.retrieveDocs (U := Slovene) asciiNumbers)
      (says (js "Kako prijavim škodo? Kakšen je rok?")) demoRequest ∅ = (sessions', Json b)
    /\ x_ragDocs (extra b) = Some ids
    /\ ids = [js "skoda.md"]
    /\ (length ids <= 10)%nat.
Proof.
  destruct (turn (U := Slovene) demoDocs (Rag.retrieveDocs (U := Slovene) asciiNumbers)
              (says (js "Kako prijavim škodo? Kakšen je rok?")) demoRequest ∅)
    as [sessions' resp] eqn:E.
  assert (Hr : exists b, resp = Json b /\ x_ragDocs (extra b) = Some [js "skoda.md"]).
  { assert (H : exists b,
               snd (turn (U := Slovene) demoDocs (Rag.retrieveDocs (U := Slovene) asciiNumbers)
                      (says (js "Kako prijavim škodo? Kakšen je rok?")) demoRequest ∅)
               = Json b
               /\ x_ragDocs (extra b) = Some [js "skoda.md"])
      by (eexists; split; vm_compute; reflexivity).
    rewrite E in H. exact H. }
  destruct Hr as (b & -> & Hids).
  exists sessions', b, [js "skoda.md"]. split; [reflexivity|]. split; [exact Hids|].
  split; [reflexivity|].
  exact (proj1 (proj2 (proj2
           (ragDocs_are_retrieved (U := Slovene) asciiNumbers demoDocs _ _ _ _ _ _ E Hids)))).
Defined.

(** The session after the first question of a premium request, which holds
    an open draft. *)
Definition afterFirstQuestion : gmap jsstring Session :=
  fst (demoTurn (says (js "izračun premije")) ∅).

Lemma afterFirstQuestion_reachable :
  reachable (U := Slovene) [] noRetriever afterFirstQuestion.
Proof.
  exact (reachable_turn (U := Slovene) [] noRetriever (says (js "izračun premije"))
           demoRequest ∅ (reachable_start [] noRetriever)).
Defined.

(** X17 on an informational question asked while the age is awaited: the
    agent asks for the age again. *)
Lemma open_draft_keeps_the_premium_flow_question :
  reachable (U := Slovene) [] noRetriever afterFirstQuestion
  /\ is_Some (premium (state (sessionOf demoRequest afterFirstQuestion)))
  /\ exists sessions' b,
       turn (U := Slovene) [] noRetriever (says (js "Kaj krije kasko?")) demoRequest
         afterFirstQuestion = (sessions', Json b)
       /\ wantsNewVehicle (U := Slovene) (transcript b) = false
       /\ x_ragDocs (extra b) = None
       /\ (is_Some (x_premium (extra b)) \/ is_Some (x_premiumResult (extra b))).
Proof.
  assert (Hp : is_Some (premium (state (sessionOf demoRequest afterFirstQuestion))))
    by (eexists; vm_compute; reflexivity).
  split; [exact afterFirstQuestion_reachable|]. split; [exact Hp|].
  destruct (turn (U := Slovene) [] noRetriever (says (js "Kaj krije kasko?")) demoRequest
              afterFirstQuestion) as [sessions' resp] eqn:E.
  assert (Hr : exists b, resp = Json b /\ wantsNewVehicle (U := Slovene) (transcript b) = false).
  { assert (H : exists b,
               snd (turn (U := Slovene) [] noRetriever (says (js "Kaj krije kasko?"))
                      demoRequest afterFirstQuestion) = Json b
               /\ wantsNewVehicle (U := Slovene) (transcript b) = false)
      by (eexists; split; vm_compute; reflexivity).
    rewrite E in H. exact H. }
  destruct Hr as (b & -> & Hnv).
  exists sessions', b. split; [reflexivity|]. split; [exact Hnv|].
  exact (open_draft_keeps_the_premium_flow (U := Slovene) [] noRetriever
           (says (js "Kaj krije kasko?")) demoRequest afterFirstQuestion sessions' b
           afterFirstQuestion_reachable Hp E Hnv).
Defined.
